(** * Tesseract of Time: a shallow embedding of the two engines

    [Sketch] embeds [sketch.js] (the p5.js hypercube piece) and [Main]
    embeds [src/main.js] (the Three.js flip-panel piece).

    Conventions of the embedding.
    - JavaScript numbers are exact: integers that the code uses as array
      indices or bit patterns are [nat] or [Z]; the real-valued quantities of
      [sketch.js] (coordinates, angles, speeds) are [R], because the code
      applies [cos], [sin] and a square root to them; the millisecond
      clock values and factors of [main.js] are [Q], so that every
      definition of the panel engine evaluates (its two computations with
      [sin] and [cos], the zone opacity and the panel placement, are on
      [R]).  [NaN] and the infinities
      are outside the model: a division by zero is excluded by hypothesis
      wherever a statement depends on it.
    - [undefined] is modelled explicitly where the code can meet it (a
      projected point, a candidate text), and reading a property of
      [undefined] is a thrown [TypeError].
    - Canvas, WebGL and DOM calls that no statement below reads (fades,
      strokes, mesh transforms, camera) are left out; each omission is
      marked where the source has it. *)

From Stdlib Require Import ZArith List String Bool Arith Lia.
From Stdlib Require Import QArith Qminmax Qround Qabs Qpower.
From Stdlib Require Import Reals Psatz.
Import ListNotations.

#[local] Close Scope R_scope.
#[local] Close Scope Q_scope.
#[local] Open Scope nat_scope.

(** ** Shared JavaScript plumbing *)

(** How a call ends: it returns, or a [TypeError] propagates out of it. *)
Inductive completion : Type :=
| Normal
| Throw.

(** Array indexing [arr[i]] with a numeric index: anything out of range is
    [undefined], here [None]. *)
Definition js_get {A : Type} (arr : list A) (i : Z) : option A :=
  if (i <? 0)%Z then None else nth_error arr (Z.to_nat i).

(** [for (let i = lo; i < hi; i++)] collects the loop counters in order. *)
Definition range (lo hi : nat) : list nat := seq lo (hi - lo).

(** * sketch.js *)
Module Sketch.

(** ** initTesseract *)

(** [((a >> d) & 1) ? 1 : -1] *)
Definition coord (a d : nat) : Z :=
  if (Z.land (Z.shiftr (Z.of_nat a) (Z.of_nat d)) 1 =? 0)%Z then (-1)%Z else 1%Z.

(** The inner loop [for d in 0..3: v[d] = ...]. *)
Definition vertex (a : nat) : list Z :=
  List.map (coord a) (range 0 4).

(** [verts4D[i][k]]; the loops below never leave the arrays. *)
Definition vcoord (verts : list (list Z)) (i k : nat) : Z :=
  nth k (nth i verts []) 0%Z.

(** The innermost loop: [diffs] counts the [k] with
    [verts4D[i][k] !== verts4D[j][k]]. *)
Definition diffs (verts : list (list Z)) (i j : nat) : nat :=
  fold_left
    (fun d k => if (vcoord verts i k =? vcoord verts j k)%Z then d else S d)
    (range 0 4) 0.

(** The module-level topology that [initTesseract] (re)writes. *)
Record Topology : Type := mkTopology {
  verts4D : list (list Z);
  edges : list (nat * nat)
}.

(** [initTesseract]: both arrays are reset first, so the previous topology
    is read nowhere. *)
Definition initTesseract (prev : Topology) : Topology :=
  let verts := List.map vertex (range 0 16) in
  let es :=
    flat_map
      (fun i =>
         flat_map
           (fun j => if diffs verts i j =? 1 then [(i, j)] else [])
           (range (i + 1) (List.length verts)))
      (range 0 (List.length verts)) in
  mkTopology verts es.

(** Number of edges that mention vertex index [i]. *)
Definition degree (es : list (nat * nat)) (i : nat) : nat :=
  List.length (filter (fun e => (fst e =? i) || (snd e =? i)) es).

(** Number of positions at which two coordinate arrays differ. *)
Fixpoint hamming (u v : list Z) : nat :=
  match u, v with
  | x :: u', y :: v' => (if (x =? y)%Z then 0 else 1) + hamming u' v'
  | _, _ => 0
  end.

(** ** p5.js functions the sketch calls

    p5.js is a library the page loads, not part of this repository; these
    three are transcribed from its [math/calculation.js]. *)
Module P5.

(** [constrain(n, low, high) = Math.max(Math.min(n, high), low)] *)
Definition constrain (n low high : R) : R := Rmax (Rmin n high) low.

(** [map(n, start1, stop1, start2, stop2, withinBounds)]: the linear
    re-mapping; the result is constrained to the target range only when
    the sixth argument is truthy (it is [undefined] when omitted). *)
Definition map (n start1 stop1 start2 stop2 : R) (withinBounds : bool) : R :=
  let newval := ((n - start1) / (stop1 - start1) * (stop2 - start2) + start2)%R in
  if negb withinBounds then newval
  else if Rlt_dec start2 stop2 then constrain newval start2 stop2
       else constrain newval stop2 start2.

(** [dist(x1, y1, x2, y2)]: Euclidean distance in the plane. *)
Definition dist (x1 y1 x2 y2 : R) : R :=
  sqrt ((x2 - x1) * (x2 - x1) + (y2 - y1) * (y2 - y1))%R.

End P5.

(** ** draw: the rotation rate (lines 104-110) *)

(** [let mx = (mouseX === undefined) ? pmouseX : mouseX] *)
Definition pointer (mouse : option R) (pmouse : R) : R :=
  match mouse with
  | Some m => m
  | None => pmouse
  end.

(** [0.0015 + map(dist(mx, my, pmouseX, pmouseY), 0, 60, 0, 0.02)]: the call
    passes five arguments, so [withinBounds] is [undefined]. *)
Definition baseSpeed (mouseX mouseY : option R) (pmouseX pmouseY : R) : R :=
  let mx := pointer mouseX pmouseX in
  let my := pointer mouseY pmouseY in
  (15 / 10000 + P5.map (P5.dist mx my pmouseX pmouseY) 0 60 0 (2 / 100) false)%R.

(** ** rotate4D *)

(** A 4-array [[x, y, z, w]]. *)
Definition Vec4 : Type := (R * R * R * R)%type.

Definition rotate4D (v : Vec4) (plane : string) (t : R) : Vec4 :=
  let '(x, y, z, w) := v in
  let c := cos t in
  let s := sin t in
  if (plane =? "xy")%string then (x * c - y * s, x * s + y * c, z, w)%R
  else if (plane =? "xz")%string then (x * c - z * s, y, x * s + z * c, w)%R
  else if (plane =? "xw")%string then (x * c - w * s, y, z, x * s + w * c)%R
  else if (plane =? "yz")%string then (x, y * c - z * s, y * s + z * c, w)%R
  else if (plane =? "yw")%string then (x, y * c - w * s, z, y * s + w * c)%R
  else if (plane =? "zw")%string then (x, y, z * c - w * s, z * s + w * c)%R
  else v.

(** Euclidean norm of a 4-array. *)
Definition norm4 (v : Vec4) : R :=
  let '(x, y, z, w) := v in
  sqrt (x * x + y * y + z * z + w * w)%R.

(** Reading coordinate [k] of a 4-array, [k] in 0..3. *)
Definition component (k : nat) (v : Vec4) : R :=
  let '(x, y, z, w) := v in
  match k with
  | 0 => x
  | 1 => y
  | 2 => z
  | _ => w
  end.

(** The two coordinate indices a plane name stands for. *)
Definition plane_axes (plane : string) : option (nat * nat) :=
  if (plane =? "xy")%string then Some (0, 1)
  else if (plane =? "xz")%string then Some (0, 2)
  else if (plane =? "xw")%string then Some (0, 3)
  else if (plane =? "yz")%string then Some (1, 2)
  else if (plane =? "yw")%string then Some (1, 3)
  else if (plane =? "zw")%string then Some (2, 3)
  else None.

Definition plane_names : list string :=
  ["xy"; "xz"; "xw"; "yz"; "yw"; "zw"]%string.

(** ** Projected points, segments and draw calls *)

(** What [project4Dto2D] returns: [{ x, y, depth, w }]. *)
Record ProjectedPoint : Type := mkPoint {
  x : R;
  y : R;
  depth : R;
  w : R
}.

(** A point [{ x, y }] of a stored segment. *)
Record Point2 : Type := mkPoint2 {
  sx : R;
  sy : R
}.

(** A stored segment [[{x, y}, {x, y}]] and a frame of them. *)
Definition Segment : Type := (Point2 * Point2)%type.
Definition TrailFrame : Type := list Segment.

(** The call [line(x1, y1, x2, y2)] on the canvas. *)
Inductive DrawCall : Type :=
| line (x1 y1 x2 y2 : R).

(** A value that is a projected point or [undefined]. *)
Definition jspoint : Type := option ProjectedPoint.

(** [points2D[i]]: [undefined] when the slot is missing or holds
    [undefined]. *)
Definition at_index (points2D : list jspoint) (i : nat) : jspoint :=
  match nth_error points2D i with
  | Some a => a
  | None => None
  end.

(** [!a] for such a value: an object is truthy, [undefined] is falsy. *)
Definition not_ (a : jspoint) : bool :=
  match a with
  | Some _ => false
  | None => true
  end.

(** Results of code that can throw. *)
Inductive result (A : Type) : Type :=
| Ok (a : A)
| TypeError.
Arguments Ok {A} a.
Arguments TypeError {A}.

Definition bind {A B : Type} (m : result A) (k : A -> result B) : result B :=
  match m with
  | Ok a => k a
  | TypeError => TypeError
  end.

Notation "v <- m ;; k" := (bind m (fun v => k))
  (at level 61, m at next level, right associativity).

(** Property reads [a.x] and [a.y]: reading a property of [undefined]
    throws. *)
Definition get_x (a : jspoint) : result R :=
  match a with
  | Some p => Ok (x p)
  | None => TypeError
  end.

Definition get_y (a : jspoint) : result R :=
  match a with
  | Some p => Ok (y p)
  | None => TypeError
  end.

(** ** serializeFrame *)

(** The loop [for (let e of edges)] of [serializeFrame], with the segments
    pushed so far. *)
Fixpoint serializeFrame_loop (es : list (nat * nat)) (points2D : list jspoint)
    (segs : TrailFrame) : result TrailFrame :=
  match es with
  | [] => Ok segs
  | e :: rest =>
      let a := at_index points2D (fst e) in
      let b := at_index points2D (snd e) in
      if not_ a || not_ b then serializeFrame_loop rest points2D segs
      else
        ax <- get_x a ;; ay <- get_y a ;;
        bx <- get_x b ;; by_ <- get_y b ;;
        serializeFrame_loop rest points2D
          (segs ++ [(mkPoint2 ax ay, mkPoint2 bx by_)])
  end.

Definition serializeFrame (es : list (nat * nat)) (points2D : list jspoint)
  : result TrailFrame :=
  serializeFrame_loop es points2D [].

(** ** draw: history and current edges *)

Definition HISTORY_MAX : nat := 42.

(** The edge loop of [draw] (lines 162-167), with the calls issued so far. *)
Fixpoint draw_edges (es : list (nat * nat)) (points2D : list jspoint)
    (calls : list DrawCall) : result (list DrawCall) :=
  match es with
  | [] => Ok calls
  | e :: rest =>
      let a := at_index points2D (fst e) in
      let b := at_index points2D (snd e) in
      if not_ a || not_ b then draw_edges rest points2D calls
      else
        ax <- get_x a ;; ay <- get_y a ;;
        bx <- get_x b ;; by_ <- get_y b ;;
        draw_edges rest points2D (calls ++ [line ax ay bx by_])
  end.

(** The module state that the statements below read. *)
Record State : Type := mkState {
  topology : Topology;
  history : list TrailFrame;
  paused : bool
}.

(** [draw], restricted to what it does to [history] and to the [line] calls
    of its edge loop (lines 93-96, 148-150 and 162-167).  Lines 98-146
    (fade, angles, rotation, projection, burst) compute [points2D] and
    touch neither [history] nor [edges]; [points2D] is taken as the input.
    The ghost layers, shimmer, seed point and HUD (lines 153, 168-199) are
    left out, so [Ok] here says that [serializeFrame] and the edge loop did
    not throw; [draw_frame] below adds the burst and the shimmer. *)
Definition draw (points2D : list jspoint) (st : State)
  : result (State * list DrawCall) :=
  if paused st then Ok (st, [])
  else
    frame <- serializeFrame (edges (topology st)) points2D ;;
    let pushed := history st ++ [frame] in
    let kept := if HISTORY_MAX <? List.length pushed then tl pushed else pushed in
    calls <- draw_edges (edges (topology st)) points2D [] ;;
    Ok (mkState (topology st) kept (paused st), calls).

(** Successive calls of [draw], one per entry of [inputs]; a throw ends the
    run. *)
Fixpoint draws (inputs : list (list jspoint)) (st : State) : result State :=
  match inputs with
  | [] => Ok st
  | points2D :: rest =>
      r <- draw points2D st ;;
      draws rest (fst r)
  end.

(** ** draw: rotation and projection of the vertices (lines 119-133) *)

(** The six angles of [angle]. *)
Record Angles : Type := mkAngles {
  xy : R;
  xz : R;
  xw : R;
  yz : R;
  yw : R;
  zw : R
}.

(** [verts4D[i].slice()]: the copy [[x, y, z, w]] of a vertex, a 4-array
    of numbers. *)
Definition slice (v : list Z) : Vec4 :=
  (IZR (nth 0 v 0%Z), IZR (nth 1 v 0%Z), IZR (nth 2 v 0%Z), IZR (nth 3 v 0%Z)).

(** The body of the loop at lines 121-130, after the copy: the six plane
    rotations in their fixed order. *)
Definition rotate_all (angle : Angles) (v : Vec4) : Vec4 :=
  let v := rotate4D v "xy" (xy angle) in
  let v := rotate4D v "xz" (xz angle) in
  let v := rotate4D v "xw" (xw angle) in
  let v := rotate4D v "yz" (yz angle) in
  let v := rotate4D v "yw" (yw angle) in
  let v := rotate4D v "zw" (zw angle) in
  v.

(** The array [rotated] that the loop builds. *)
Definition rotated (angle : Angles) (verts : list (list Z)) : list Vec4 :=
  List.map (fun v => rotate_all angle (slice v)) verts.

(** [project4Dto2D(p)], with the globals [width], [height] and [mouseY] it
    reads. *)
Definition project4Dto2D (width height mouseY : R) (p : Vec4) : ProjectedPoint :=
  let '(p0, p1, p2, p3) := p in
  let wPerspective := P5.map p3 (-2) 2 (14 / 10) (3 / 10) false in
  let scaleBase := (Rmin width height * (16 / 100))%R in
  let x3 := (p0 * scaleBase * wPerspective)%R in
  let y3 := (p1 * scaleBase * wPerspective)%R in
  let z3 := (p2 * scaleBase * wPerspective * (5 / 10))%R in
  let camZ := P5.map mouseY 0 height 900 2200 false in
  let perspective := (camZ / (camZ - z3))%R in
  let sx := (x3 * perspective)%R in
  let sy := (y3 * perspective)%R in
  mkPoint sx sy z3 p3.

(** [let points2D = rotated.map(p => project4Dto2D(p))] *)
Definition points2D_of (width height mouseY : R) (angle : Angles)
    (verts : list (list Z)) : list jspoint :=
  List.map (fun p => Some (project4Dto2D width height mouseY p))
           (rotated angle verts).

(** ** draw: pointer velocity and the burst cooldown (lines 135-146) *)

(** The module variables the motion block keeps between frames. *)
Record Motion : Type := mkMotion {
  lastMouseX : R;
  lastMouseY : R;
  lastVel : R;
  burstCooldown : Z
}.

(** [deltaTime || 16]: zero is falsy. *)
Definition deltaTime_or_16 (deltaTime : R) : R :=
  if Req_dec_T deltaTime 0 then 16%R else deltaTime.

(** [dist(mx, my, lastMouse.x, lastMouse.y) / max(1, deltaTime || 16)] *)
Definition velocity_of (mx my deltaTime : R) (m : Motion) : R :=
  (P5.dist mx my (lastMouseX m) (lastMouseY m)
   / Rmax 1 (deltaTime_or_16 deltaTime))%R.

(** [acceleration > 0.8 && burstCooldown <= 0] *)
Definition burst_due (acceleration : R) (cooldown : Z) : bool :=
  (if Rgt_dec acceleration (8 / 10) then true else false) && (cooldown <=? 0)%Z.

(** Lines 136-146: the motion state afterwards and whether [createBurst]
    was called in this frame. *)
Definition motion_step (mx my deltaTime : R) (m : Motion) : Motion * bool :=
  let velocity := velocity_of mx my deltaTime m in
  let acceleration := Rabs (velocity - lastVel m) in
  let fired := burst_due acceleration (burstCooldown m) in
  let cooldown1 := if fired then 12%Z else burstCooldown m in
  let cooldown2 := if (0 <? cooldown1)%Z then (cooldown1 - 1)%Z else cooldown1 in
  (mkMotion mx my velocity cooldown2, fired).

(** The frames of a run, each with its pointer position and [deltaTime]:
    for every frame, whether it fired a burst. *)
Fixpoint bursts (inputs : list (R * R * R)) (m : Motion) : list bool :=
  match inputs with
  | [] => []
  | (mx, my, deltaTime) :: rest =>
      let '(m', fired) := motion_step mx my deltaTime m in
      fired :: bursts rest m'
  end.

(** The motion state after such a run. *)
Fixpoint motion_after (inputs : list (R * R * R)) (m : Motion) : Motion :=
  match inputs with
  | [] => m
  | (mx, my, deltaTime) :: rest =>
      motion_after rest (fst (motion_step mx my deltaTime m))
  end.

(** [floor(map(intensity, 0, 12, 10, 40, true))], the shard count of
    [createBurst]. *)
Definition burst_count (intensity : R) : Z :=
  Int_part (P5.map intensity 0 12 10 40 true).

(** ** draw: stroke weight, HUD ring and shimmer *)

(** [strokeWeight(map(velocity, 0, 8, 0.5, 2.6, true))] (line 156). *)
Definition edge_strokeWeight (velocity : R) : R :=
  P5.map velocity 0 8 (5 / 10) (26 / 10) true.

(** [drawHUD(velocity)]: the diameter of the ring it draws. *)
Definition drawHUD (velocity : R) : R :=
  P5.map velocity 0 8 30 180 true.

(** [min(9, floor(lingerTime * 1.8))] *)
Definition shimmer_layers (lingerTime : R) : Z :=
  Z.min 9 (Int_part (lingerTime * (18 / 10))).

(** One closed shape of the shimmer: [for (let v of points2D)
    vertex(v.x, v.y)], with the vertices issued so far. *)
Fixpoint shimmer_shape (points2D : list jspoint) (vs : list Point2)
  : result (list Point2) :=
  match points2D with
  | [] => Ok vs
  | v :: rest =>
      vx <- get_x v ;; vy <- get_y v ;;
      shimmer_shape rest (vs ++ [mkPoint2 vx vy])
  end.

(** [for (let i = 1; i <= layers; i++)], with [n] passes left. *)
Fixpoint shimmer_loop (n : nat) (points2D : list jspoint)
    (shapes : list (list Point2)) : result (list (list Point2)) :=
  match n with
  | O => Ok shapes
  | S n' =>
      shape <- shimmer_shape points2D [] ;;
      shimmer_loop n' points2D (shapes ++ [shape])
  end.

(** Lines 169-183: the shapes drawn and the new [lingerStart]; [now] is
    what [millis()] returns.  The stroke of each layer is left out. *)
Definition shimmer (velocity now lingerStart : R) (points2D : list jspoint)
  : result (list (list Point2) * R) :=
  let lingerTime := ((now - lingerStart) / 1000)%R in
  if Rlt_dec velocity (4 / 10) then
    let layers := shimmer_layers lingerTime in
    shapes <- shimmer_loop (Z.to_nat layers) points2D [] ;;
    Ok (shapes, lingerStart)
  else Ok ([], now).

(** ** drawHistoryLines *)

(** What is drawn for one stored frame: the alpha passed to [stroke], the
    stroke weight, and the [line] calls. *)
Record Layer : Type := mkLayer {
  layer_alpha : R;
  layer_weight : R;
  layer_lines : list DrawCall
}.

(** The inner loop [for (let s of hist[i])]. *)
Definition frame_lines (f : TrailFrame) : list DrawCall :=
  List.map (fun s => line (sx (fst s)) (sy (fst s)) (sx (snd s)) (sy (snd s))) f.

(** The body of the outer loop for index [i]. *)
Definition history_layer (hist : list TrailFrame) (i : nat) : Layer :=
  let age := INR (List.length hist - 1 - i) in
  let alpha := P5.map age 0 (INR (List.length hist) - 1) 160 6 false in
  let sw := P5.map age 0 (INR (List.length hist) - 1) (16 / 10) (2 / 10) false in
  mkLayer (alpha * (75 / 100))%R sw (frame_lines (nth i hist [])).

Definition drawHistoryLines (hist : list TrailFrame) : list Layer :=
  List.map (history_layer hist) (range 0 (List.length hist)).

(** ** createBurst *)

(** The loop [for (let i = 0; i < count; i++)] of [createBurst], with [n]
    passes left; [picks i] is the value of [floor(random(edges.length))] in
    pass [i].  With [e] undefined, [e[0]] throws.  A shard is recorded by
    the point [(mx, my)] it starts from; its direction, length and stroke
    come from further [random] calls and are left out. *)
Fixpoint createBurst_loop (n i : nat) (picks : nat -> Z) (es : list (nat * nat))
    (points2D : list jspoint) (shards : list Point2) : result (list Point2) :=
  match n with
  | O => Ok shards
  | S n' =>
      match js_get es (picks i) with
      | None => TypeError
      | Some e =>
          let a := at_index points2D (fst e) in
          let b := at_index points2D (snd e) in
          if not_ a || not_ b then
            createBurst_loop n' (S i) picks es points2D shards
          else
            ax <- get_x a ;; bx <- get_x b ;;
            ay <- get_y a ;; by_ <- get_y b ;;
            createBurst_loop n' (S i) picks es points2D
              (shards ++ [mkPoint2 ((ax + bx) / 2) ((ay + by_) / 2)])
      end
  end.

(** [createBurst(points2D, intensity)], over the global [edges]. *)
Definition createBurst (es : list (nat * nat)) (points2D : list jspoint)
    (intensity : R) (picks : nat -> Z) : result (list Point2) :=
  createBurst_loop (Z.to_nat (burst_count intensity)) 0 picks es points2D [].

(** ** draw: the whole frame *)

(** What one frame leaves behind and draws: the state, the motion
    variables, [lingerStart], the shards of a burst, the [line] calls of
    the edge loop and the shapes of the shimmer. *)
Record Drawn : Type := mkDrawn {
  drawn_state : State;
  drawn_motion : Motion;
  drawn_lingerStart : R;
  drawn_shards : list Point2;
  drawn_lines : list DrawCall;
  drawn_shapes : list (list Point2)
}.

(** [draw] from line 135 on, in source order: the motion block with the
    burst (lines 135-146), the history push and the edge loop (lines
    148-167, by [draw] above), and the shimmer (lines 168-183).  [points2D]
    is the array of line 133, [now] what [millis()] returns.  The fade, the
    ghost layers, the seed point and the HUD read no point of [points2D]
    and no edge; they are left out. *)
Definition draw_frame (points2D : list jspoint) (mx my deltaTime now : R)
    (picks : nat -> Z) (st : State) (m : Motion) (lingerStart : R)
  : result Drawn :=
  if paused st then Ok (mkDrawn st m lingerStart [] [] [])
  else
    let '(m', fired) := motion_step mx my deltaTime m in
    let velocity := lastVel m' in
    shards <- (if fired
               then createBurst (edges (topology st)) points2D velocity picks
               else Ok []) ;;
    r <- draw points2D st ;;
    s <- shimmer velocity now lingerStart points2D ;;
    Ok (mkDrawn (fst r) m' (snd s) shards (snd r) (fst s)).

(** The segments a frame is expected to hold: one per edge whose two
    endpoints are both defined, in edge order. *)
Definition defined_segments (es : list (nat * nat)) (points2D : list jspoint)
  : TrailFrame :=
  flat_map
    (fun e =>
       match at_index points2D (fst e), at_index points2D (snd e) with
       | Some a, Some b => [(mkPoint2 (x a) (y a), mkPoint2 (x b) (y b))]
       | _, _ => []
       end)
    es.

(** The [line] calls expected for the current frame, likewise. *)
Definition defined_lines (es : list (nat * nat)) (points2D : list jspoint)
  : list DrawCall :=
  flat_map
    (fun e =>
       match at_index points2D (fst e), at_index points2D (snd e) with
       | Some a, Some b => [line (x a) (y a) (x b) (y b)]
       | _, _ => []
       end)
    es.

End Sketch.

(** * src/main.js *)
Module Main.

#[local] Open Scope Q_scope.

(** ** Utilities *)

(** Comparisons of numbers, as booleans. *)
Definition ltb (a b : Q) : bool := negb (Qle_bool b a).
Definition geb (a b : Q) : bool := Qle_bool b a.
Definition gtb (a b : Q) : bool := negb (Qle_bool a b).

Definition easeInOutQuad (t : Q) : Q :=
  if ltb t 0.5 then 2 * t * t else -1 + (4 - 2 * t) * t.

(** [Math.max(a, Math.min(b, v))] *)
Definition clamp (v a b : Q) : Q := Qmax a (Qmin b v).

(** ** Zones and the layout table *)

Inductive Blending : Type :=
| NormalBlending
| AdditiveBlending.

Record Zone : Type := mkZone {
  id : string;
  base : Z;
  alpha : Q;
  blending : Blending
}.

Module ZONES.
Definition PAST : Zone := mkZone "PAST" 0x525252 0.35 NormalBlending.
Definition PRESENT : Zone := mkZone "PRESENT" 0xeaeff6 0.95 NormalBlending.
Definition NEAR : Zone := mkZone "NEAR" 0x8de4d8 0.8 NormalBlending.
Definition FAR : Zone := mkZone "FAR" 0xb88cf6 0.9 AdditiveBlending.
End ZONES.

(** An entry of a [texts] array: a string, or [undefined]. *)
Inductive jstext : Type :=
| undefined
| str (s : string).

Record Config : Type := mkConfig {
  cfg_zone : Zone;
  cfg_count : nat;
  cfg_radius : Q;
  cfg_yOffset : Q;
  cfg_texts : list jstext
}.

Definition PANEL_CONFIGS : list Config :=
  [ mkConfig ZONES.PAST 6 240 (-120) [str "memory"; str "echo"; str "yesterday"];
    mkConfig ZONES.PRESENT 8 0 0 [str "now"; str "present"; str "breathe"];
    mkConfig ZONES.NEAR 6 220 110 [str "soon"; str "almost"; str "near"];
    mkConfig ZONES.FAR 4 380 60 [str "future"; str "echoes"; str "beyond"] ].

(** ** Text textures *)

(** What a texture was rasterized from; the canvas work itself is opaque. *)
Record Texture : Type := mkTexture {
  tex_text : string;
  tex_bgColor : Z;
  tex_fgColor : string;
  tex_opacity : Q
}.

(** [createTextTexture(text, bgColor, fgColor, opacity)].  It hands [text]
    to [wrapText], whose first statement is [text.split(' ')]: with
    [undefined] that read throws, here [None]. *)
Definition createTextTexture (text : jstext) (bgColor : Z) (fgColor : string)
    (opacity : Q) : option Texture :=
  match text with
  | str s => Some (mkTexture s bgColor fgColor opacity)
  | undefined => None
  end.

(** ** Panels *)

Record Flip : Type := mkFlip {
  active : bool;
  start : Q;
  duration : Q;
  axis : string
}.

(** The panel object.  [mesh] (position, rotation, material) is left out:
    its material map is always [frontTexture].  [_swapped] is absent on a
    fresh panel, which [!p._swapped] reads as [false]. *)
Record Panel : Type := mkPanel {
  zone : Zone;
  texts : list jstext;
  current : nat;
  flip : Flip;
  frontTexture : Texture;
  _swapped : bool
}.

(** [texts[i]] *)
Definition text_at (ts : list jstext) (i : nat) : jstext := nth i ts undefined.

(** One pass of the inner loop body of [buildPanels]: the panel that is
    pushed, or [None] when [createTextTexture] throws.  The random placement
    only goes into the mesh. *)
Definition newPanel (cfg : Config) : option Panel :=
  let texts0 := cfg_texts cfg in
  let texts1 :=
    if (List.length texts0 <? 2)%nat then texts0 ++ [text_at texts0 0] else texts0 in
  match createTextTexture (text_at texts1 0) (base (cfg_zone cfg)) "#111111"
                          (alpha (cfg_zone cfg)) with
  | None => None
  | Some frontTex =>
      Some (mkPanel (cfg_zone cfg) texts1 0%nat (mkFlip false 0 700 "y")
                    frontTex false)
  end.

(** [for (let i = 0; i < cfg.count; i++)], with [n] passes left. *)
Fixpoint buildLoop (cfg : Config) (n : nat) (panels : list Panel)
  : list Panel * completion :=
  match n with
  | O => (panels, Normal)
  | S n' =>
      match newPanel cfg with
      | None => (panels, Throw)
      | Some panel => buildLoop cfg n' (panels ++ [panel])
      end
  end.

(** [configs.forEach(...)] over the layout table, pushing onto [panels]. *)
Fixpoint buildEach (configs : list Config) (panels : list Panel)
  : list Panel * completion :=
  match configs with
  | [] => (panels, Normal)
  | cfg :: rest =>
      match buildLoop cfg (cfg_count cfg) panels with
      | (panels', Throw) => (panels', Throw)
      | (panels', Normal) => buildEach rest panels'
      end
  end.

(** [buildPanels()], for a given layout table; the module calls it once, on
    [PANEL_CONFIGS], with [panels] empty. *)
Definition buildPanels (configs : list Config) : list Panel * completion :=
  buildEach configs [].

(** ** triggerFlip *)

(** [triggerFlip(panel, speedFactor = 1.0, axis = 'y')]; [perf] is the
    value [performance.now()] returns inside the call, and an omitted
    argument is [None]. *)
Definition triggerFlip (perf : Q) (panel : Panel) (speedFactor : option Q)
    (axis_ : option string) : Panel :=
  let speedFactor := match speedFactor with Some s => s | None => 1 end in
  let axis_ := match axis_ with Some a => a | None => "y"%string end in
  if active (flip panel) then panel
  else
    mkPanel (zone panel) (texts panel) (current panel)
            (mkFlip true perf (clamp (400 * (1 / speedFactor)) 360 1100) axis_)
            (frontTexture panel) (_swapped panel).

(** ** updateFlips *)

(** The progress [t] that [updateFlips(now)] computes for a panel. *)
Definition progress (now : Q) (p : Panel) : Q :=
  let elapsed := now - start (flip p) in
  clamp (elapsed / duration (flip p)) 0 1.

(** The body of [panels.forEach] in [updateFlips]: the panel afterwards, the
    textures it rasterized, and how it ended.  The mesh rotation (lines
    173-176, 191-193) is left out. *)
Definition updateFlip (now : Q) (p : Panel)
  : Panel * list Texture * completion :=
  if negb (active (flip p)) then (p, [], Normal)
  else
    let t := progress now p in
    let '(p1, made, c) :=
      if negb (_swapped p) && geb t 0.5 then
        let current' := ((current p + 1) mod List.length (texts p))%nat in
        match createTextTexture (text_at (texts p) current') (base (zone p))
                                "#111111" (alpha (zone p)) with
        | None =>
            (mkPanel (zone p) (texts p) current' (flip p) (frontTexture p) true,
             [], Throw)
        | Some newTex =>
            (mkPanel (zone p) (texts p) current' (flip p) newTex true,
             [newTex], Normal)
        end
      else (p, [], Normal) in
    match c with
    | Throw => (p1, made, Throw)
    | Normal =>
        if geb t 1 then
          (mkPanel (zone p1) (texts p1) (current p1)
                   (mkFlip false (start (flip p1)) (duration (flip p1))
                           (axis (flip p1)))
                   (frontTexture p1) false,
           made, Normal)
        else (p1, made, Normal)
    end.

(** [updateFlips(now)]: the panels in order; a throw leaves the rest as they
    were. *)
Fixpoint updateFlips (now : Q) (panels : list Panel)
  : list Panel * list Texture * completion :=
  match panels with
  | [] => ([], [], Normal)
  | p :: rest =>
      match updateFlip now p with
      | (p', made, Throw) => (p' :: rest, made, Throw)
      | (p', made, Normal) =>
          let '(rest', made', c) := updateFlips now rest in
          (p' :: rest', made ++ made', c)
      end
  end.

(** ** The animation loop and the handlers *)

Definition IDLE_THRESHOLD : Q := 5000.
Definition AUTO_FLIP_INTERVAL : Q := 1400.

(** The module-level variables the loop reads and writes.  The camera and
    [globalRotation] are left out. *)
Record World : Type := mkWorld {
  panels : list Panel;
  lastInteraction : Q;
  lastAutoFlip : Q;
  paused : bool;
  last : Q
}.

(** What one frame takes from outside: the clock reading [perf] of
    [performance.now()] inside [triggerFlip], and the values the successive
    [Math.random()] calls of the idle block return, in call order. *)
Record Env : Type := mkEnv {
  perf : Q;
  r_chance : Q;
  r_pick : Q;
  r_speed : Q;
  r_axis : Q
}.

(** [Math.random() < 0.5 ? 'x' : 'y'] *)
Definition random_axis (r : Q) : string :=
  if ltb r 0.5 then "x"%string else "y"%string.

(** [Math.floor(r * panels.length)] *)
Definition random_index (r : Q) (ps : list Panel) : Z :=
  Qfloor (r * inject_Z (Z.of_nat (List.length ps))).

(** In-place mutation of the object at index [i] of an array. *)
Fixpoint update_at (i : nat) (f : Panel -> Panel) (ps : list Panel) {struct ps}
  : list Panel :=
  match ps, i with
  | [], _ => []
  | p :: rest, O => f p :: rest
  | p :: rest, S i' => p :: update_at i' f rest
  end.

(** [triggerFlip(panels[i], speedFactor, axis)] for a computed index [i]:
    with [panels[i]] undefined, [panel.flip] throws. *)
Definition triggerAt (i : Z) (clock : Q) (speedFactor : Q) (axis_ : string)
    (ps : list Panel) : option (list Panel) :=
  match js_get ps i with
  | None => None
  | Some _ =>
      Some (update_at (Z.to_nat i)
              (fun p => triggerFlip clock p (Some speedFactor) (Some axis_)) ps)
  end.

(** The condition of the idle block of [animate] (lines 287-288). *)
Definition autoFlipDue (now : Q) (w : World) : bool :=
  let idle := now - lastInteraction w in
  gtb idle IDLE_THRESHOLD && gtb (now - lastAutoFlip w) AUTO_FLIP_INTERVAL.

(** The idle block of [animate] (lines 286-295). *)
Definition animate_idle (now : Q) (env : Env) (w : World) : World * completion :=
  if autoFlipDue now w then
    let chance := 0.55 in
    let flipped :=
      if ltb (r_chance env) chance then
        triggerAt (random_index (r_pick env) (panels w)) (perf env)
                  (clamp (0.5 + r_speed env * 2.5) 0.6 3.2)
                  (random_axis (r_axis env)) (panels w)
      else Some (panels w) in
    match flipped with
    | None => (w, Throw)
    | Some ps =>
        (mkWorld ps (lastInteraction w) now (paused w) (last w), Normal)
    end
  else (w, Normal).

(** [animate(now)].  The group rotation, the camera damping, the zone
    opacity and the render call are left out. *)
Definition animate (now : Q) (env : Env) (w : World)
  : World * list Texture * completion :=
  let w1 := mkWorld (panels w) (lastInteraction w) (lastAutoFlip w) (paused w) now in
  if paused w then (w1, [], Normal)
  else
    match updateFlips now (panels w1) with
    | (ps, made, Throw) =>
        (mkWorld ps (lastInteraction w1) (lastAutoFlip w1) (paused w1) (last w1),
         made, Throw)
    | (ps, made, Normal) =>
        let '(w2, c) :=
          animate_idle now env
            (mkWorld ps (lastInteraction w1) (lastAutoFlip w1) (paused w1) (last w1)) in
        (w2, made, c)
    end.

(** [onPointerMove]: only [lastInteraction] matters here. *)
Definition onPointerMove (clock : Q) (w : World) : World :=
  mkWorld (panels w) clock (lastAutoFlip w) (paused w) (last w).

(** [onPointerDown]; [hit] is the index of the panel the ray cast finds, if
    any, [r] the random number, [clock1] and [clock2] the two clock
    readings. *)
Definition onPointerDown (hit : option nat) (r clock1 clock2 : Q) (w : World)
  : World :=
  match hit with
  | Some i =>
      match nth_error (panels w) i with
      | Some _ =>
          mkWorld (update_at i
                     (fun p => triggerFlip clock1 p (Some 2.2) (Some (random_axis r)))
                     (panels w))
                  clock2 (lastAutoFlip w) (paused w) (last w)
      | None => w
      end
  | None => w
  end.

(** The click handler of [randomBtn]. *)
Definition onRandomClick (r1 r2 clock1 clock2 : Q) (w : World)
  : World * completion :=
  match triggerAt (random_index r1 (panels w)) clock1 2.4 (random_axis r2)
                  (panels w) with
  | None => (w, Throw)
  | Some ps => (mkWorld ps clock2 (lastAutoFlip w) (paused w) (last w), Normal)
  end.

(** The click handler of [pauseBtn]. *)
Definition onPauseClick (w : World) : World :=
  mkWorld (panels w) (lastInteraction w) (lastAutoFlip w) (negb (paused w)) (last w).

(** Everything that can happen to the world. *)
Inductive event : Type :=
| Frame (now : Q) (env : Env)
| PointerMove (clock : Q)
| PointerDown (hit : option nat) (r clock1 clock2 : Q)
| RandomClick (r1 r2 clock1 clock2 : Q)
| PauseClick.

Definition step (ev : event) (w : World) : World * list Texture * completion :=
  match ev with
  | Frame now env => animate now env w
  | PointerMove clock => (onPointerMove clock w, [], Normal)
  | PointerDown hit r clock1 clock2 => (onPointerDown hit r clock1 clock2 w, [], Normal)
  | RandomClick r1 r2 clock1 clock2 =>
      let '(w', c) := onRandomClick r1 r2 clock1 clock2 w in (w', [], c)
  | PauseClick => (onPauseClick w, [], Normal)
  end.

(** A sequence of events; a throw ends it. *)
Fixpoint run (evs : list event) (w : World) : World * list Texture * completion :=
  match evs with
  | [] => (w, [], Normal)
  | ev :: rest =>
      match step ev w with
      | (w', made, Throw) => (w', made, Throw)
      | (w', made, Normal) =>
          let '(w'', made', c) := run rest w' in
          (w'', made ++ made', c)
      end
  end.

(** The frame times at which the idle block is entered during a run. *)
Fixpoint attempts (evs : list event) (w : World) : list Q :=
  match evs with
  | [] => []
  | ev :: rest =>
      let here :=
        match ev with
        | Frame now _ => if negb (paused w) && autoFlipDue now w then [now] else []
        | _ => []
        end in
      match step ev w with
      | (_, _, Throw) => here
      | (w', _, Normal) => here ++ attempts rest w'
      end
  end.

(** The world right after the module has loaded; [t1], [t2] and [t3] are
    the clock readings that initialise the three timers. *)
Definition initial_world (t1 t2 t3 : Q) : World :=
  mkWorld (fst (buildPanels PANEL_CONFIGS)) t1 t2 false t3.

(** ** createTextTexture: the background colour and the text layout *)

(** The three channels of the [rgba(...)] fill style:
    [(bgColor >> 16) & 0xff], [(bgColor >> 8) & 0xff], [bgColor & 0xff].
    The operators work on 32-bit integers; a colour is within them. *)
Definition fillStyle_channels (bgColor : Z) : Z * Z * Z :=
  (Z.land (Z.shiftr bgColor 16) 0xff,
   Z.land (Z.shiftr bgColor 8) 0xff,
   Z.land bgColor 0xff).

(** [text.split(' ')]: the pieces between single spaces; never empty. *)
Fixpoint split_space (text : string) : list string :=
  match text with
  | EmptyString => [EmptyString]
  | String c rest =>
      if Ascii.eqb c Ascii.Space then EmptyString :: split_space rest
      else
        match split_space rest with
        | word :: words => String c word :: words
        | [] => [String c EmptyString]
        end
  end.

(** [words.join(' ')] *)
Fixpoint join_space (words : list string) : string :=
  match words with
  | [] => EmptyString
  | [word] => word
  | word :: rest => (word ++ " " ++ join_space rest)%string
  end.

(** The call [ctx.fillText(text, x, y)]. *)
Inductive CanvasCall : Type :=
| fillText (text : string) (x y : Q).

Section WrapText.

(** [ctx.measureText(s).width] for the font in force, and
    [String.prototype.trim]: both belong to the platform. *)
Variable measureText : string -> Q.
Variable trim : string -> string.

(** The first loop of [wrapText], at word index [n], with the current
    [line] and the [lines] pushed so far. *)
Fixpoint wrap_loop (words : list string) (n : nat) (maxWidth : Q)
    (line : string) (lines : list string) : string * list string :=
  match words with
  | [] => (line, lines)
  | word :: rest =>
      let testLine := (line ++ word ++ " ")%string in
      let testWidth := measureText testLine in
      if gtb testWidth maxWidth && (0 <? n)%nat
      then wrap_loop rest (S n) maxWidth (word ++ " ")%string (lines ++ [trim line])
      else wrap_loop rest (S n) maxWidth testLine lines
  end.

(** The array [lines] when the second loop starts. *)
Definition wrapText_lines (text : string) (maxWidth : Q) : list string :=
  let '(line, lines) := wrap_loop (split_space text) 0 maxWidth EmptyString [] in
  lines ++ [trim line].

(** [wrapText(ctx, text, x, y, maxWidth, lineHeight)]: the [fillText]
    calls it issues. *)
Definition wrapText (text : string) (x y maxWidth lineHeight : Q)
  : list CanvasCall :=
  let lines := wrapText_lines text maxWidth in
  let testY := y - lineHeight in
  let startY :=
    testY - (inject_Z (Z.of_nat (List.length lines)) - 1) * (lineHeight / 2) in
  List.map
    (fun i => fillText (nth i lines EmptyString) x
                       (startY + inject_Z (Z.of_nat i) * lineHeight))
    (range 0 (List.length lines)).

End WrapText.

(** ** The camera *)

(** [camX], [camY], [targetCamX], [targetCamY]; the camera position is set
    to [(camX, camY)] at the end of every update. *)
Record Camera : Type := mkCamera {
  camX : Q;
  camY : Q;
  targetCamX : Q;
  targetCamY : Q
}.

(** [updateCameraLerp(dt)] *)
Definition updateCameraLerp (dt : Q) (c : Camera) : Camera :=
  mkCamera
    (camX c + (targetCamX c - camX c) * clamp (dt * 0.01) 0.06 0.45)
    (camY c + (targetCamY c - camY c) * clamp (dt * 0.01) 0.06 0.45)
    (targetCamX c) (targetCamY c).

(** Successive updates, one per frame, the target unchanged. *)
Fixpoint camera_run (dts : list Q) (c : Camera) : Camera :=
  match dts with
  | [] => c
  | dt :: rest => camera_run rest (updateCameraLerp dt c)
  end.

(** What [getBoundingClientRect()] returns. *)
Record Rect : Type := mkRect {
  rect_left : Q;
  rect_top : Q;
  rect_width : Q;
  rect_height : Q
}.

(** The part of [onPointerMove] that [onPointerMove] above leaves out: the
    normalized pointer [(pointer.x, pointer.y)] and the camera with its new
    target. *)
Definition onPointerMove_view (clientX clientY : Q) (rect : Rect) (c : Camera)
  : (Q * Q) * Camera :=
  let x := (clientX - rect_left rect) / rect_width rect in
  let y := (clientY - rect_top rect) / rect_height rect in
  ((x * 2 - 1, - (y * 2 - 1)),
   mkCamera (camX c) (camY c) ((x - 0.5) * 120) ((y - 0.5) * 60)).

(** ** The pulsing opacity of the FAR zone (lines 300-308) *)

(** [clamp] on the reals, for the one place where its argument comes from
    [Math.sin]. *)
Definition clampR (v a b : R) : R := Rmax a (Rmin b v).

(** The opacity that [animate] gives the material of a panel of zone [z]. *)
Definition zone_opacity (now : R) (z : Zone) : R :=
  let glow := ((1 + sin (now * (2 / 1000))) * (5 / 10))%R in
  if (id z =? "FAR")%string
  then clampR (6 / 10 + glow * (4 / 10)) (5 / 10) (12 / 10)
  else 1%R.

(** ** buildPanels: the placement of a panel (lines 105-109) *)

(** [(i / cfg.count) * Math.PI * 2 + (ci * 0.25)] *)
Definition panel_angle (i count ci : nat) : R :=
  (INR i / INR count * PI * 2 + INR ci * (25 / 100))%R.

(** The position [(x, y, z)] of panel [i] of the configuration at index
    [ci]; [r1], [r2], [r3] are the three [Math.random()] values in call
    order. *)
Definition panel_position (radius yOffset : R) (i count ci : nat) (r1 r2 r3 : R)
  : R * R * R :=
  let angle := panel_angle i count ci in
  ((cos angle * (radius + (r1 - 5 / 10) * 30))%R,
   (yOffset + sin (angle * (13 / 10)) * 40 + (r2 - 5 / 10) * 20)%R,
   (sin angle * (radius * (6 / 10)) + (r3 - 5 / 10) * 80)%R).

End Main.

(** * Definitions used to state the theorems *)

(** A list has no repeated entry, decided with the equality test [eqb]. *)
Fixpoint nodupb {A : Type} (eqb : A -> A -> bool) (l : list A) : bool :=
  match l with
  | [] => true
  | x :: l' => negb (existsb (eqb x) l') && nodupb eqb l'
  end.

Definition edge_eqb (e f : nat * nat) : bool :=
  (fst e =? fst f) && (snd e =? snd f).

Definition vert_eqb (u v : list Z) : bool :=
  if list_eq_dec Z.eq_dec u v then true else false.

(** A small frame for examples: three slots, the last one undefined, and
    two edges of which the second ends in the undefined slot. *)
Definition sample_points (k : nat) : list Sketch.jspoint :=
  [Some (Sketch.mkPoint (INR k) 0 0 1);
   Some (Sketch.mkPoint (INR k) 1 0 1);
   None].

Definition sample_state : Sketch.State :=
  Sketch.mkState (Sketch.mkTopology [] [(0, 1); (1, 2)]) [] false.

(** The motion variables of a pointer at rest at the origin. *)
Definition still_motion : Sketch.Motion := Sketch.mkMotion 0 0 0 0.

(** The newest [HISTORY_MAX] entries of a sequence of frames. *)
Definition retained (all : list Sketch.TrailFrame) : list Sketch.TrailFrame :=
  skipn (List.length all - Sketch.HISTORY_MAX) all.

(** The frames that a run of [draw] captures, one per input. *)
Definition captured (st : Sketch.State) (inputs : list (list Sketch.jspoint))
  : list Sketch.TrailFrame :=
  List.map (Sketch.defined_segments (Sketch.edges (Sketch.topology st))) inputs.

(** A panel in the middle of a flip, for examples. *)
Definition sample_texture : Main.Texture :=
  Main.mkTexture "now" 0xeaeff6 "#111111" 0.95.

Definition flipping_panel : Main.Panel :=
  Main.mkPanel Main.ZONES.PRESENT
    [Main.str "now"; Main.str "present"; Main.str "breathe"] 0%nat
    (Main.mkFlip true 1000 700 "y") sample_texture false.

Definition resting_panel : Main.Panel :=
  Main.mkPanel Main.ZONES.PRESENT
    [Main.str "now"; Main.str "present"; Main.str "breathe"] 0%nat
    (Main.mkFlip false 0 700 "y") sample_texture false.

(** The world of the repository right after loading at 0 ms, once the
    first panel has been clicked at 1000 ms, and that panel, now flipping. *)
Definition clicked_world : Main.World :=
  Main.onPointerDown (Some 0%nat) 0 1000 1001 (Main.initial_world 0 0 0).

Definition clicked_panel : Main.Panel :=
  nth 0 (Main.panels clicked_world) resting_panel.

(** Every entry of a [texts] array is a string. *)
Definition all_strings (ts : list Main.jstext) : Prop :=
  Forall (fun t => t <> Main.undefined) ts.

(** What holds of a panel when [buildPanels] has just pushed it. *)
Definition fresh_panel (p : Main.Panel) : Prop :=
  (2 <= List.length (Main.texts p))%nat /\
  Main.current p = 0%nat /\
  (exists s, Main.text_at (Main.texts p) 0 = Main.str s /\
             Main.tex_text (Main.frontTexture p) = s) /\
  Main.active (Main.flip p) = false /\
  Main._swapped p = false.

(** The panel once the midpoint swap has happened, and once the flip has
    ended, with [tex] the texture rasterized at the swap. *)
Definition swapped_panel (p : Main.Panel) (tex : Main.Texture) : Main.Panel :=
  Main.mkPanel (Main.zone p) (Main.texts p)
    ((Main.current p + 1) mod List.length (Main.texts p))%nat
    (Main.flip p) tex true.

Definition finished_panel (p : Main.Panel) (tex : Main.Texture) : Main.Panel :=
  Main.mkPanel (Main.zone p) (Main.texts p)
    ((Main.current p + 1) mod List.length (Main.texts p))%nat
    (Main.mkFlip false (Main.start (Main.flip p)) (Main.duration (Main.flip p))
                 (Main.axis (Main.flip p)))
    tex false.

(** The texture of the text that follows the current one. *)
Definition next_texture (p : Main.Panel) : option Main.Texture :=
  Main.createTextTexture
    (Main.text_at (Main.texts p)
       ((Main.current p + 1) mod List.length (Main.texts p))%nat)
    (Main.base (Main.zone p)) "#111111" (Main.alpha (Main.zone p)).

Definition wf_panel (p : Main.Panel) : Prop :=
  Main.texts p <> [] /\ all_strings (Main.texts p) /\
  (0 < Main.duration (Main.flip p))%Q.

(** The panel array is not empty, its texts are strings and its durations
    positive, as after [buildPanels] on the table of the repository and
    after every event from there. *)
Definition wf_world (w : Main.World) : Prop :=
  Main.panels w <> [] /\ Forall wf_panel (Main.panels w).

(** [Math.random()] returns a number in [0, 1). *)
Definition unit_interval (r : Q) : Prop := (0 <= r /\ r < 1)%Q.

Definition wf_event (ev : Main.event) : Prop :=
  match ev with
  | Main.Frame _ env => unit_interval (Main.r_pick env)
  | Main.RandomClick r1 _ _ _ => unit_interval r1
  | _ => True
  end.

(** A frame enters the idle block. *)
Definition attempted (now : Q) (w : Main.World) : bool :=
  negb (Main.paused w) && Main.autoFlipDue now w.

(** Each time is more than [AUTO_FLIP_INTERVAL] after the one before it,
    starting from [t0]. *)
Fixpoint spaced (t0 : Q) (ts : list Q) : Prop :=
  match ts with
  | [] => True
  | t :: ts' => (Main.AUTO_FLIP_INTERVAL < t - t0)%Q /\ spaced t ts'
  end.

(** Random numbers with which no idle flip fires. *)
Definition quiet_env : Main.Env := Main.mkEnv 0 0.9 0 0 0.

(** The world after a first idle attempt at 5008 ms, nobody having touched
    the page since it loaded at 0 ms. *)
Definition boundary_world : Main.World :=
  fst (fst (Main.run [Main.Frame 5008 quiet_env] (Main.initial_world 0 0 0))).

(** The angles before the first frame, and the first vertex at rest. *)
Definition angles_at_rest : Sketch.Angles := Sketch.mkAngles 0 0 0 0 0 0.

Definition first_vertex_at_rest : Sketch.Vec4 :=
  Sketch.rotate_all angles_at_rest (Sketch.slice [-1; -1; -1; -1]%Z).

(** A configuration whose panels [buildPanels] can create: it asks for
    none, or its first text is a string. *)
Definition buildable (cfg : Main.Config) : Prop :=
  Main.cfg_count cfg = 0%nat \/
  Main.text_at (Main.cfg_texts cfg) 0 <> Main.undefined.

(** The panels that one configuration contributes. *)
Definition panels_of (cfg : Main.Config) : list Main.Panel :=
  match Main.newPanel cfg with
  | Some p => repeat p (Main.cfg_count cfg)
  | None => []
  end.

(** What every panel satisfies at all times: the text index is in range of
    at least two texts, a resting panel has its one-shot flag cleared, and
    the duration is one that [clamp] or the initial value can give. *)
Definition panel_inv (p : Main.Panel) : Prop :=
  (Main.current p < List.length (Main.texts p))%nat /\
  (2 <= List.length (Main.texts p))%nat /\
  (Main.active (Main.flip p) = false -> Main._swapped p = false) /\
  (360 <= Main.duration (Main.flip p))%Q /\
  (Main.duration (Main.flip p) <= 1100)%Q.

(** Number of space characters in a string, and whether it has none. *)
Fixpoint count_spaces (s : string) : nat :=
  match s with
  | EmptyString => 0
  | String c rest => (if Ascii.eqb c Ascii.Space then 1 else 0) + count_spaces rest
  end.

(** The first loop of [wrapText] with the lines kept as built, before
    [trim]. *)
Fixpoint raw_loop (measureText : string -> Q) (words : list string) (n : nat)
    (maxWidth : Q) (line : string) (raws : list string) : string * list string :=
  match words with
  | [] => (line, raws)
  | word :: rest =>
      let testLine := (line ++ word ++ " ")%string in
      if Main.gtb (measureText testLine) maxWidth && (0 <? n)
      then raw_loop measureText rest (S n) maxWidth (word ++ " ")%string
                    (raws ++ [line])
      else raw_loop measureText rest (S n) maxWidth testLine raws
  end.

(** The untrimmed lines of [wrapText]. *)
Definition raw_lines (measureText : string -> Q) (text : string) (maxWidth : Q)
  : list string :=
  let '(line, raws) :=
    raw_loop measureText (Main.split_space text) 0 maxWidth EmptyString [] in
  raws ++ [line].

(** A line is acceptable: it is within the width, or it holds one word
    only, that is, one of the [words], free of spaces, followed by the space
    the loop appends. *)
Definition line_fits (measureText : string -> Q) (maxWidth : Q)
    (words : list string) (line : string) : Prop :=
  (measureText line <= maxWidth)%Q \/
  exists word,
    In word words /\ count_spaces word = 0 /\ line = (word ++ " ")%string.

(** The text and the height of a [fillText] call. *)
Definition call_text (c : Main.CanvasCall) : string :=
  match c with Main.fillText t _ _ => t end.

Definition call_y (c : Main.CanvasCall) : Q :=
  match c with Main.fillText _ _ y => y end.

(** All strings of a list, one after the other. *)
Definition flatten (l : list string) : string :=
  fold_right String.append EmptyString l.

(** * Theorems about sketch.js *)

(** ** Boolean checkers used to settle finite facts by evaluation *)

Lemma nodupb_sound {A : Type} (eqb : A -> A -> bool) :
  (forall x, eqb x x = true) ->
  forall l, nodupb eqb l = true -> NoDup l.
Proof.
  intro eqb_refl.
  induction l as [| x l IH]; simpl; intro H.
  - apply NoDup_nil.
  - apply andb_true_iff in H. destruct H as [Hx Hl].
    apply NoDup_cons; [ | now apply IH ].
    intro Hin. apply negb_true_iff in Hx.
    assert (existsb (eqb x) l = true) as E.
    { apply existsb_exists. exists x. split; [ exact Hin | apply eqb_refl ]. }
    congruence.
Qed.

Lemma forallb_Forall {A : Type} (f : A -> bool) (P : A -> Prop) (l : list A) :
  (forall x, f x = true -> P x) -> forallb f l = true -> Forall P l.
Proof.
  intros HfP H. apply Forall_forall. intros x Hx.
  apply HfP. rewrite forallb_forall in H. now apply H.
Qed.

Lemma edge_eqb_refl e : edge_eqb e e = true.
Proof. unfold edge_eqb. now rewrite !Nat.eqb_refl. Qed.

Lemma vert_eqb_refl u : vert_eqb u u = true.
Proof. unfold vert_eqb. destruct (list_eq_dec Z.eq_dec u u); congruence. Qed.

(** C1. Whatever the previous topology, [initTesseract] produces the same
    result: 16 distinct vertices, each an array of 4 coordinates in
    {-1, +1}; 32 distinct edges, each a pair of in-range indices [(i, j)]
    with [i < j] whose vertices differ in exactly one coordinate; and every
    vertex index occurs in exactly 4 edges. *)
Theorem initTesseract_topology :
  forall prev : Sketch.Topology,
    let t := Sketch.initTesseract prev in
    t = Sketch.initTesseract (Sketch.mkTopology [] []) /\
    List.length (Sketch.verts4D t) = 16 /\
    Forall (fun v => List.length v = 4 /\
                     Forall (fun c => c = (-1)%Z \/ c = 1%Z) v)
           (Sketch.verts4D t) /\
    NoDup (Sketch.verts4D t) /\
    List.length (Sketch.edges t) = 32 /\
    NoDup (Sketch.edges t) /\
    Forall (fun e => fst e < snd e /\ snd e < 16 /\
                     Sketch.hamming (nth (fst e) (Sketch.verts4D t) [])
                                    (nth (snd e) (Sketch.verts4D t) []) = 1)
           (Sketch.edges t) /\
    Forall (fun i => Sketch.degree (Sketch.edges t) i = 4) (range 0 16).
Proof.
  intros prev t.
  assert (Ht : t = Sketch.initTesseract (Sketch.mkTopology [] [])) by reflexivity.
  split; [ exact Ht | ]. rewrite Ht. clear t Ht prev.
  split; [ vm_compute; reflexivity | ].
  split.
  { apply (forallb_Forall
             (fun v => (List.length v =? 4) &&
                       forallb (fun c => (c =? -1)%Z || (c =? 1)%Z) v)).
    - intros v Hv. apply andb_true_iff in Hv. destruct Hv as [Hl Hc].
      split; [ now apply Nat.eqb_eq | ].
      apply (forallb_Forall _ _ _ (fun c Hc' => proj1 (orb_true_iff _ _) Hc')) in Hc.
      eapply Forall_impl; [ | exact Hc ].
      intros c [H | H]; apply Z.eqb_eq in H; auto.
    - vm_compute; reflexivity. }
  split.
  { apply (nodupb_sound vert_eqb vert_eqb_refl).
    vm_compute; reflexivity. }
  split; [ vm_compute; reflexivity | ].
  split.
  { apply (nodupb_sound edge_eqb edge_eqb_refl).
    vm_compute; reflexivity. }
  split.
  { set (vs := Sketch.verts4D _).
    apply (forallb_Forall
             (fun e => (fst e <? snd e) && (snd e <? 16) &&
                       (Sketch.hamming (nth (fst e) vs []) (nth (snd e) vs []) =? 1))).
    - intros e He. apply andb_true_iff in He. destruct He as [He H3].
      apply andb_true_iff in He. destruct He as [H1 H2].
      apply Nat.ltb_lt in H1, H2. apply Nat.eqb_eq in H3. auto.
    - vm_compute; reflexivity. }
  apply (forallb_Forall
           (fun i => Sketch.degree
                       (Sketch.edges (Sketch.initTesseract (Sketch.mkTopology [] []))) i
                     =? 4)).
  - intros i Hi. now apply Nat.eqb_eq.
  - vm_compute; reflexivity.
Qed.

(** ** rotate4D *)

Lemma planar_rotation_squares (a b t : R) :
  ((a * cos t - b * sin t) * (a * cos t - b * sin t) +
   (a * sin t + b * cos t) * (a * sin t + b * cos t) = a * a + b * b)%R.
Proof.
  pose proof (sin2_cos2 t) as H. unfold Rsqr in H.
  replace ((a * cos t - b * sin t) * (a * cos t - b * sin t) +
           (a * sin t + b * cos t) * (a * sin t + b * cos t))%R
    with ((a * a + b * b) * (sin t * sin t + cos t * cos t))%R by ring.
  rewrite H. ring.
Qed.

(** A plane name outside the six falls through the [switch]: [return v]. *)
Lemma rotate4D_other_plane (v : Sketch.Vec4) (plane : string) (t : R) :
  ~ In plane Sketch.plane_names -> Sketch.rotate4D v plane t = v.
Proof.
  intro Hn. destruct v as [[[a b] c] d]. unfold Sketch.rotate4D.
  repeat match goal with
         | |- context [String.eqb plane ?s] =>
             destruct (String.eqb_spec plane s) as [-> | _];
             [ exfalso; apply Hn; simpl; tauto | ]
         end.
  reflexivity.
Qed.

(** C8. For every 4-array, each of the six plane names and every angle,
    [rotate4D] turns the two coordinates of the plane by the planar rotation
    of angle [t], leaves the other two coordinates as they are, and so
    returns an array of the same Euclidean norm. *)
Theorem rotate4D_norm_preserved :
  forall (v : Sketch.Vec4) (plane : string) (t : R),
    In plane Sketch.plane_names ->
    Sketch.norm4 (Sketch.rotate4D v plane t) = Sketch.norm4 v /\
    exists i j,
      Sketch.plane_axes plane = Some (i, j) /\ i < j < 4 /\
      Sketch.component i (Sketch.rotate4D v plane t) =
        (Sketch.component i v * cos t - Sketch.component j v * sin t)%R /\
      Sketch.component j (Sketch.rotate4D v plane t) =
        (Sketch.component i v * sin t + Sketch.component j v * cos t)%R /\
      forall k, k < 4 -> k <> i -> k <> j ->
        Sketch.component k (Sketch.rotate4D v plane t) = Sketch.component k v.
Proof.
  intros [[[a b] c] d] plane t Hin.
  simpl in Hin.
  destruct Hin as [<- | [<- | [<- | [<- | [<- | [<- | []]]]]]];
    (split;
     [ unfold Sketch.norm4, Sketch.rotate4D; simpl; f_equal;
       pose proof (planar_rotation_squares a b t);
       pose proof (planar_rotation_squares a c t);
       pose proof (planar_rotation_squares a d t);
       pose proof (planar_rotation_squares b c t);
       pose proof (planar_rotation_squares b d t);
       pose proof (planar_rotation_squares c d t);
       lra
     | eexists; eexists; split; [ reflexivity | ];
       split; [ lia | ];
       split; [ reflexivity | ];
       split; [ reflexivity | ];
       intros k Hk Hi Hj;
       destruct k as [| [| [| [| k]]]]; try lia; reflexivity ]).
Qed.

Lemma rotate4D_norm_preserved_witness :
  In "xy"%string Sketch.plane_names /\
  Sketch.norm4 (Sketch.rotate4D (1, 0, 0, 0)%R "xy" PI) =
    Sketch.norm4 (1, 0, 0, 0)%R.
Proof.
  assert (H : In "xy"%string Sketch.plane_names) by (simpl; tauto).
  split; [ exact H | ].
  exact (proj1 (rotate4D_norm_preserved (1, 0, 0, 0)%R "xy" PI H)).
Defined.

(** The scenario of the specification: a quarter turn in the xy plane takes
    the first basis vector to the second. *)
Example rotate4D_quarter_turn :
  Sketch.rotate4D (1, 0, 0, 0)%R "xy" (PI / 2) = (0, 1, 0, 0)%R.
Proof.
  unfold Sketch.rotate4D. simpl. rewrite cos_PI2, sin_PI2.
  repeat f_equal; ring.
Qed.

(** ** baseSpeed *)

Lemma dist_nonneg (x1 y1 x2 y2 : R) : (0 <= Sketch.P5.dist x1 y1 x2 y2)%R.
Proof. unfold Sketch.P5.dist. apply sqrt_pos. Qed.

Lemma dist_horizontal (d : R) :
  (0 <= d)%R -> Sketch.P5.dist d 0 0 0 = d.
Proof.
  intro Hd. unfold Sketch.P5.dist.
  replace ((0 - d) * (0 - d) + (0 - 0) * (0 - 0))%R with (d * d)%R by ring.
  now apply sqrt_square.
Qed.

(** The five-argument [map] is the plain linear re-mapping. *)
Lemma map_unclamped (d : R) :
  Sketch.P5.map d 0 60 0 (2 / 100) false = (d / 3000)%R.
Proof. cbv [Sketch.P5.map negb]. field. Qed.

(** Inside the source range the clamped and the plain re-mapping agree. *)
Lemma map_clamped_inside (d : R) :
  (0 <= d <= 60)%R ->
  Sketch.P5.map d 0 60 0 (2 / 100) true = (d / 3000)%R.
Proof.
  intros [H0 H60]. cbv [Sketch.P5.map negb].
  destruct (Rlt_dec 0 (2 / 100)) as [_ | Hn]; [ | exfalso; lra ].
  unfold Sketch.P5.constrain, Rmax, Rmin.
  repeat destruct (Rle_dec _ _); lra.
Qed.

(** Beyond the source range the clamped re-mapping stays at 0.02. *)
Lemma map_clamped_beyond (d : R) :
  (60 <= d)%R ->
  Sketch.P5.map d 0 60 0 (2 / 100) true = (2 / 100)%R.
Proof.
  intro H60. cbv [Sketch.P5.map negb].
  destruct (Rlt_dec 0 (2 / 100)) as [_ | Hn]; [ | exfalso; lra ].
  unfold Sketch.P5.constrain, Rmax, Rmin.
  repeat destruct (Rle_dec _ _); lra.
Qed.

(** C7, as the code has it.  With [d] the pointer displacement since the
    last tick, [baseSpeed] is [0.0015 + d / 3000]: the linear re-mapping of
    [0, 60] onto [0, 0.02], not clamped.  It agrees with the clamped mapping
    and stays within [0.0015, 0.0215] exactly when [d <= 60]; for a larger
    displacement it exceeds [0.0215]. *)
Theorem baseSpeed_linear :
  forall (mouseX mouseY : option R) (pmouseX pmouseY : R),
    let d := Sketch.P5.dist (Sketch.pointer mouseX pmouseX)
                            (Sketch.pointer mouseY pmouseY) pmouseX pmouseY in
    let speed := Sketch.baseSpeed mouseX mouseY pmouseX pmouseY in
    speed = (15 / 10000 + d / 3000)%R /\
    (15 / 10000 <= speed)%R /\
    ((d <= 60)%R <-> (speed <= 215 / 10000)%R) /\
    ((d <= 60)%R <->
     speed = (15 / 10000 + Sketch.P5.map d 0 60 0 (2 / 100) true)%R).
Proof.
  intros mouseX mouseY pmouseX pmouseY d speed.
  assert (Hd : (0 <= d)%R) by apply dist_nonneg.
  assert (Hs : speed = (15 / 10000 + d / 3000)%R).
  { subst speed. unfold Sketch.baseSpeed. fold d. now rewrite map_unclamped. }
  split; [ exact Hs | ].
  split; [ lra | ].
  split; [ split; intro; lra | ].
  split; intro H.
  - rewrite map_clamped_inside by lra. exact Hs.
  - destruct (Rle_dec d 60) as [Hle | Hgt]; [ exact Hle | exfalso ].
    rewrite map_clamped_beyond in H by lra. lra.
Qed.

Lemma baseSpeed_linear_witness :
  Sketch.baseSpeed (Some 30%R) (Some 0%R) 0 0 = (115 / 10000)%R.
Proof.
  destruct (baseSpeed_linear (Some 30%R) (Some 0%R) 0 0) as [Hs _].
  rewrite Hs. simpl. rewrite dist_horizontal by lra. field.
Defined.

(** C7 as stated fails: a pointer jump of 120 pixels gives a rotation rate
    of 0.0415, above 0.0215 and different from what the clamped mapping
    would give. *)
Lemma baseSpeed_not_clamped :
  Sketch.baseSpeed (Some 120%R) (Some 0%R) 0 0 = (415 / 10000)%R /\
  ~ (Sketch.baseSpeed (Some 120%R) (Some 0%R) 0 0 <= 215 / 10000)%R /\
  Sketch.baseSpeed (Some 120%R) (Some 0%R) 0 0 <>
    (15 / 10000 +
     Sketch.P5.map (Sketch.P5.dist 120 0 0 0) 0 60 0 (2 / 100) true)%R.
Proof.
  assert (H : Sketch.baseSpeed (Some 120%R) (Some 0%R) 0 0 = (415 / 10000)%R).
  { unfold Sketch.baseSpeed. simpl. rewrite dist_horizontal by lra.
    rewrite map_unclamped. field. }
  split; [ exact H | ]. rewrite H.
  split; [ lra | ].
  rewrite dist_horizontal by lra. rewrite map_clamped_beyond by lra. lra.
Qed.

(** ** Edges with an undefined endpoint *)

Lemma serializeFrame_loop_defined :
  forall es points2D segs,
    Sketch.serializeFrame_loop es points2D segs =
    Sketch.Ok (segs ++ Sketch.defined_segments es points2D).
Proof.
  induction es as [| e es IH]; intros points2D segs; simpl.
  - now rewrite app_nil_r.
  - destruct (Sketch.at_index points2D (fst e)) as [a |];
      destruct (Sketch.at_index points2D (snd e)) as [b |]; simpl;
      rewrite IH; try reflexivity.
    now rewrite <- app_assoc.
Qed.

Lemma draw_edges_defined :
  forall es points2D calls,
    Sketch.draw_edges es points2D calls =
    Sketch.Ok (calls ++ Sketch.defined_lines es points2D).
Proof.
  induction es as [| e es IH]; intros points2D calls; simpl.
  - now rewrite app_nil_r.
  - destruct (Sketch.at_index points2D (fst e)) as [a |];
      destruct (Sketch.at_index points2D (snd e)) as [b |]; simpl;
      rewrite IH; try reflexivity.
    now rewrite <- app_assoc.
Qed.

(** What one unpaused [draw] leaves behind. *)
Lemma draw_unpaused (points2D : list Sketch.jspoint) (st : Sketch.State) :
  Sketch.paused st = false ->
  Sketch.draw points2D st =
  let es := Sketch.edges (Sketch.topology st) in
  let pushed := Sketch.history st ++ [Sketch.defined_segments es points2D] in
  Sketch.Ok
    (Sketch.mkState (Sketch.topology st)
       (if Sketch.HISTORY_MAX <? List.length pushed then tl pushed else pushed)
       (Sketch.paused st),
     Sketch.defined_lines es points2D).
Proof.
  intro Hp. unfold Sketch.draw, Sketch.serializeFrame. rewrite Hp.
  rewrite serializeFrame_loop_defined, draw_edges_defined. reflexivity.
Qed.

(** ** The trail history *)

Lemma retained_length (all : list Sketch.TrailFrame) :
  List.length (retained all) = Nat.min (List.length all) Sketch.HISTORY_MAX.
Proof. unfold retained. rewrite length_skipn. lia. Qed.

Lemma retained_short (all : list Sketch.TrailFrame) :
  List.length all <= Sketch.HISTORY_MAX -> retained all = all.
Proof.
  intro H. unfold retained.
  replace (List.length all - Sketch.HISTORY_MAX) with 0 by lia. reflexivity.
Qed.

Lemma tl_skipn {A : Type} (l : list A) : tl l = skipn 1 l.
Proof. destruct l; reflexivity. Qed.

(** Pushing onto the retained part and shifting when it overflows retains
    the newest entries of the longer sequence. *)
Lemma retained_push (all : list Sketch.TrailFrame) (f : Sketch.TrailFrame) :
  (let pushed := retained all ++ [f] in
   if Sketch.HISTORY_MAX <? List.length pushed then tl pushed else pushed) =
  retained (all ++ [f]).
Proof.
  cbv zeta. rewrite length_app, retained_length. simpl List.length.
  destruct (Nat.ltb_spec Sketch.HISTORY_MAX
              (Nat.min (List.length all) Sketch.HISTORY_MAX + 1)) as [Hlt | Hge].
  - assert (Hall : 42 <= List.length all) by (unfold Sketch.HISTORY_MAX in Hlt; lia).
    rewrite tl_skipn. unfold retained, Sketch.HISTORY_MAX.
    rewrite length_app. simpl List.length.
    rewrite (skipn_app (List.length all + 1 - 42)).
    replace (List.length all + 1 - 42 - List.length all) with 0 by lia.
    rewrite (skipn_app 1), length_skipn.
    replace (1 - (List.length all - (List.length all - 42))) with 0 by lia.
    rewrite skipn_skipn. f_equal. f_equal. lia.
  - assert (Hall : List.length all < 42) by (unfold Sketch.HISTORY_MAX in Hge; lia).
    rewrite (retained_short all) by (unfold Sketch.HISTORY_MAX; lia).
    rewrite retained_short; [ reflexivity | ].
    rewrite length_app. unfold Sketch.HISTORY_MAX. simpl. lia.
Qed.

Lemma draws_unpaused :
  forall (inputs : list (list Sketch.jspoint)) (st : Sketch.State)
         (all : list Sketch.TrailFrame),
    Sketch.paused st = false ->
    Sketch.history st = retained all ->
    Sketch.draws inputs st =
    Sketch.Ok (Sketch.mkState (Sketch.topology st)
                 (retained (all ++ captured st inputs)) false).
Proof.
  induction inputs as [| points2D inputs IH]; intros st all Hp Hh.
  - simpl. rewrite app_nil_r, <- Hh, <- Hp. now destruct st.
  - simpl. rewrite (draw_unpaused points2D st Hp). cbv zeta. simpl.
    rewrite Hh, retained_push.
    rewrite (IH _ (all ++ [Sketch.defined_segments
                             (Sketch.edges (Sketch.topology st)) points2D])).
    + simpl. unfold captured. simpl. now rewrite <- app_assoc.
    + exact Hp.
    + reflexivity.
Qed.

(** C5. The history is a bounded first-in first-out buffer.  Starting from
    at most [HISTORY_MAX = 42] frames, one unpaused [draw] appends the frame
    of the current projection and drops the oldest frame, and only that one,
    exactly when the buffer was full, so the length stays at most 42.  After
    a run of draws the history holds the newest 42 of all frames in order;
    after 50 draws from an empty history it holds 42 frames, the oldest
    being the one of the 9th draw and the newest the one of the 50th. *)
Theorem history_bounded_fifo :
  forall (st : Sketch.State) (points2D : list Sketch.jspoint)
         (inputs : list (list Sketch.jspoint)),
    Sketch.paused st = false ->
    List.length (Sketch.history st) <= Sketch.HISTORY_MAX ->
    let es := Sketch.edges (Sketch.topology st) in
    (exists st' calls,
        Sketch.draw points2D st = Sketch.Ok (st', calls) /\
        Sketch.history st' =
          (if List.length (Sketch.history st) <? Sketch.HISTORY_MAX
           then Sketch.history st else tl (Sketch.history st))
          ++ [Sketch.defined_segments es points2D] /\
        List.length (Sketch.history st') <= Sketch.HISTORY_MAX /\
        Sketch.paused st' = false /\
        Sketch.topology st' = Sketch.topology st) /\
    (exists st',
        Sketch.draws inputs st = Sketch.Ok st' /\
        Sketch.history st' = retained (Sketch.history st ++ captured st inputs) /\
        List.length (Sketch.history st') =
          Nat.min (List.length (Sketch.history st) + List.length inputs)
                  Sketch.HISTORY_MAX /\
        (Sketch.history st = [] -> List.length inputs = 50 ->
         List.length (Sketch.history st') = 42 /\
         nth_error (Sketch.history st') 0 = nth_error (captured st inputs) 8 /\
         nth_error (Sketch.history st') 41 = nth_error (captured st inputs) 49)).
Proof.
  intros st points2D inputs Hp Hlen es. split.
  - rewrite (draw_unpaused points2D st Hp). cbv zeta. fold es.
    eexists. eexists. split; [ reflexivity | ]. simpl.
    rewrite length_app. simpl List.length.
    unfold Sketch.HISTORY_MAX in *.
    destruct (Nat.ltb_spec 42 (List.length (Sketch.history st) + 1)) as [Hfull | Hroom].
    + assert (Hl : List.length (Sketch.history st) = 42) by lia.
      rewrite Hl. simpl.
      destruct (Sketch.history st) as [| f h] eqn:Eh; simpl in *; [ lia | ].
      repeat split; auto.
      rewrite length_app. simpl. lia.
    + destruct (Nat.ltb_spec (List.length (Sketch.history st)) 42) as [Hlt | Hge];
        [ | lia ].
      repeat split; auto.
      rewrite length_app. simpl. lia.
  - assert (Hh : Sketch.history st = retained (Sketch.history st))
      by (symmetry; now apply retained_short).
    rewrite (draws_unpaused inputs st (Sketch.history st) Hp Hh).
    eexists. split; [ reflexivity | ]. cbn [Sketch.history].
    split; [ reflexivity | ].
    split.
    { rewrite retained_length, length_app. unfold captured.
      now rewrite length_map. }
    intros Hempty H50. rewrite Hempty.
    change ([] ++ captured st inputs) with (captured st inputs).
    assert (Hc : List.length (captured st inputs) = 50)
      by (unfold captured; now rewrite length_map).
    split.
    { rewrite retained_length, Hc. reflexivity. }
    unfold retained. rewrite Hc. unfold Sketch.HISTORY_MAX.
    change (50 - 42) with 8.
    rewrite !nth_error_skipn. split; reflexivity.
Qed.

Lemma history_bounded_fifo_witness :
  exists st' : Sketch.State,
    Sketch.draws (List.map sample_points (seq 1 50)) sample_state = Sketch.Ok st' /\
    List.length (Sketch.history st') = 42 /\
    nth_error (Sketch.history st') 0 =
      Some [(Sketch.mkPoint2 (INR 9) 0, Sketch.mkPoint2 (INR 9) 1)] /\
    nth_error (Sketch.history st') 41 =
      Some [(Sketch.mkPoint2 (INR 50) 0, Sketch.mkPoint2 (INR 50) 1)].
Proof.
  destruct (history_bounded_fifo sample_state [] (List.map sample_points (seq 1 50))
              eq_refl (Nat.le_0_l _)) as [_ [st' [Hrun [_ [_ H50]]]]].
  destruct (H50 eq_refl eq_refl) as [Hl [Hold Hnew]].
  exists st'. split; [ exact Hrun | ].
  split; [ exact Hl | ].
  split; [ rewrite Hold | rewrite Hnew ]; reflexivity.
Defined.

(** * Theorems about src/main.js *)

#[local] Open Scope Q_scope.

(** ** clamp *)

Ltac clamp_cases :=
  unfold Main.clamp in *;
  unfold Qmin, GenericMinMax.gmin in *;
  repeat match goal with
         | |- context [Qcompare ?a ?b] => destruct (Qcompare_spec a b)
         end;
  unfold Qmax, GenericMinMax.gmax in *;
  repeat match goal with
         | |- context [Qcompare ?a ?b] => destruct (Qcompare_spec a b)
         end.

Lemma clamp_bounds (v a b : Q) : a <= b -> a <= Main.clamp v a b <= b.
Proof. intro Hab. clamp_cases; lra. Qed.

Lemma clamp_mono (v v' a b : Q) :
  a <= b -> v <= v' -> Main.clamp v a b <= Main.clamp v' a b.
Proof. intros Hab Hv. clamp_cases; lra. Qed.

Lemma clamp_compat (v v' a b : Q) :
  a <= b -> v == v' -> Main.clamp v a b == Main.clamp v' a b.
Proof. intros Hab Hv. clamp_cases; lra. Qed.

Lemma clamp_inside (v a b : Q) : a <= v <= b -> Main.clamp v a b == v.
Proof. intros [Ha Hb]. clamp_cases; lra. Qed.

Lemma ltb_lt (a b : Q) : Main.ltb a b = true <-> a < b.
Proof.
  unfold Main.ltb. rewrite negb_true_iff. split; intro H.
  - apply Qnot_le_lt. intro Hle. apply Qle_bool_iff in Hle. congruence.
  - destruct (Qle_bool b a) eqn:E; [ | reflexivity ].
    apply Qle_bool_iff in E. lra.
Qed.

Lemma gtb_gt (a b : Q) : Main.gtb a b = true <-> b < a.
Proof. unfold Main.gtb. apply (ltb_lt b a). Qed.

Lemma geb_ge (a b : Q) : Main.geb a b = true <-> b <= a.
Proof. unfold Main.geb. apply Qle_bool_iff. Qed.

Lemma geb_lt (a b : Q) : Main.geb a b = false <-> a < b.
Proof.
  unfold Main.geb. split; intro H.
  - apply Qnot_le_lt. intro Hle. apply Qle_bool_iff in Hle. congruence.
  - destruct (Qle_bool b a) eqn:E; [ | reflexivity ].
    apply Qle_bool_iff in E. lra.
Qed.

(** The properties of [easeInOutQuad] the specification lists. *)
Example easeInOutQuad_points :
  Main.easeInOutQuad 0 == 0 /\ Main.easeInOutQuad 0.5 == 0.5 /\
  Main.easeInOutQuad 1 == 1.
Proof. repeat split; vm_compute; reflexivity. Qed.

(** ** triggerFlip *)

(** C3. On a panel whose flip is active, [triggerFlip] changes nothing,
    whatever the clock, the speed factor and the axis are (given or
    omitted): the panel afterwards is the panel before, and so are its
    duration, start time, axis, active flag and current text index. *)
Theorem triggerFlip_active_noop :
  forall (clock : Q) (p : Main.Panel) (speedFactor : option Q)
         (axis_ : option string),
    Main.active (Main.flip p) = true ->
    let p' := Main.triggerFlip clock p speedFactor axis_ in
    p' = p /\
    Main.duration (Main.flip p') = Main.duration (Main.flip p) /\
    Main.start (Main.flip p') = Main.start (Main.flip p) /\
    Main.axis (Main.flip p') = Main.axis (Main.flip p) /\
    Main.active (Main.flip p') = true /\
    Main.current p' = Main.current p.
Proof.
  intros clock p speedFactor axis_ Hactive p'.
  assert (Hp : p' = p).
  { subst p'. unfold Main.triggerFlip. now rewrite Hactive. }
  rewrite Hp. repeat split. exact Hactive.
Qed.

Lemma triggerFlip_active_noop_witness :
  Main.active (Main.flip flipping_panel) = true /\
  Main.triggerFlip 1234 flipping_panel (Some 2.2) (Some "x"%string) =
    flipping_panel.
Proof.
  assert (H : Main.active (Main.flip flipping_panel) = true) by reflexivity.
  split; [ exact H | ].
  exact (proj1 (triggerFlip_active_noop 1234 flipping_panel (Some 2.2)
                  (Some "x"%string) H)).
Defined.

Lemma speed_ratio_antitone (s s' : Q) :
  0 < s -> s <= s' -> 400 * (1 / s') <= 400 * (1 / s).
Proof.
  intros Hs Hss'.
  assert (Hs' : 0 < s') by lra.
  assert (E : forall x, 400 * (1 / x) == 400 / x) by (intro x; unfold Qdiv; ring).
  rewrite !E.
  apply Qle_shift_div_r; [ exact Hs' | ].
  assert (Hpos : 0 <= 400 / s).
  { apply Qle_shift_div_l; [ exact Hs | lra ]. }
  assert (Hms : 400 / s * s == 400) by (field; lra).
  assert (Hle : 400 / s * s <= 400 / s * s').
  { rewrite (Qmult_comm _ s), (Qmult_comm _ s').
    apply Qmult_le_compat_r; assumption. }
  lra.
Qed.

(** C4. On a panel whose flip is not active and for a positive speed
    factor, [triggerFlip] starts the flip with duration
    [clamp(400 / speedFactor, 360, 1100)]: it lies in [360, 1100] and a
    larger speed factor never gives a longer duration. *)
Theorem triggerFlip_duration :
  forall (clock : Q) (p : Main.Panel) (speedFactor : Q) (axis_ : option string),
    Main.active (Main.flip p) = false ->
    0 < speedFactor ->
    let p' := Main.triggerFlip clock p (Some speedFactor) axis_ in
    Main.duration (Main.flip p') == Main.clamp (400 / speedFactor) 360 1100 /\
    360 <= Main.duration (Main.flip p') <= 1100 /\
    (forall faster : Q,
        speedFactor <= faster ->
        Main.duration (Main.flip (Main.triggerFlip clock p (Some faster) axis_))
        <= Main.duration (Main.flip p')) /\
    Main.active (Main.flip p') = true /\
    Main.start (Main.flip p') = clock.
Proof.
  intros clock p speedFactor axis_ Hidle Hpos p'. subst p'.
  unfold Main.triggerFlip. rewrite Hidle. simpl.
  split.
  { apply clamp_compat; [ lra | ]. unfold Qdiv. ring. }
  split; [ apply clamp_bounds; lra | ].
  split; [ | split; reflexivity ].
  intros faster Hfaster. apply clamp_mono; [ lra | ].
  now apply speed_ratio_antitone.
Qed.

Lemma triggerFlip_duration_witness :
  Main.active (Main.flip resting_panel) = false /\ 0 < 2.2 /\
  360 <= Main.duration
           (Main.flip (Main.triggerFlip 1000 resting_panel (Some 2.2) (Some "x"%string)))
      <= 1100.
Proof.
  assert (H : Main.active (Main.flip resting_panel) = false) by reflexivity.
  assert (Hpos : 0 < 2.2) by reflexivity.
  split; [ exact H | ]. split; [ exact Hpos | ].
  exact (proj1 (proj2 (triggerFlip_duration 1000 resting_panel 2.2
                         (Some "x"%string) H Hpos))).
Defined.

(** ** buildPanels *)

Lemma newPanel_fresh (cfg : Main.Config) (p : Main.Panel) :
  Main.newPanel cfg = Some p ->
  fresh_panel p /\
  Main.texts p =
    (if (List.length (Main.cfg_texts cfg) <? 2)%nat
     then Main.cfg_texts cfg ++ [Main.text_at (Main.cfg_texts cfg) 0]
     else Main.cfg_texts cfg) /\
  (all_strings (Main.cfg_texts cfg) -> all_strings (Main.texts p)).
Proof.
  unfold Main.newPanel, fresh_panel, all_strings.
  destruct (Main.cfg_texts cfg) as [| t0 [| t1 ts]] eqn:Et; simpl.
  - discriminate.
  - destruct t0 as [| s]; simpl; [ discriminate | ].
    intro H. injection H as <-. simpl.
    repeat split; auto.
    + exists s. auto.
    + intro Hs. constructor; [ discriminate | exact Hs ].
  - destruct t0 as [| s]; simpl; [ discriminate | ].
    intro H. injection H as <-. simpl.
    repeat split; auto; try lia. exists s. auto.
Qed.

Lemma buildLoop_invariant (P : Main.Panel -> Prop) (cfg : Main.Config) :
  (forall p, Main.newPanel cfg = Some p -> P p) ->
  forall n panels,
    Forall P panels -> Forall P (fst (Main.buildLoop cfg n panels)).
Proof.
  intros Hnew. induction n as [| n IH]; intros panels Hps; simpl.
  - exact Hps.
  - destruct (Main.newPanel cfg) as [p |] eqn:Ep; simpl; [ | exact Hps ].
    apply IH. apply Forall_app. split; [ exact Hps | ].
    constructor; [ now apply Hnew | constructor ].
Qed.

Lemma buildEach_invariant (P : Main.Panel -> Prop) :
  forall configs,
    Forall (fun cfg => forall p, Main.newPanel cfg = Some p -> P p) configs ->
    forall panels,
      Forall P panels -> Forall P (fst (Main.buildEach configs panels)).
Proof.
  induction configs as [| cfg rest IH]; intros Hcfg panels Hps; simpl.
  - exact Hps.
  - inversion Hcfg as [| ? ? Hc Hrest]; subst.
    pose proof (buildLoop_invariant P cfg Hc (Main.cfg_count cfg) panels Hps) as Hl.
    destruct (Main.buildLoop cfg (Main.cfg_count cfg) panels) as [panels' c].
    simpl in Hl. destruct c; [ now apply IH | exact Hl ].
Qed.

(** C10. For every layout table, each panel that [buildPanels] creates
    (also before a later entry makes it throw) has at least two candidate
    texts, starts at index 0 with its first text rasterized, and the index
    its first flip moves to is in range and differs from the current one.
    A configured list of exactly one text is stored twice.  An empty
    configured list yields no panel: the single [undefined] entry pushed
    makes [createTextTexture] throw before the panel exists. *)
Theorem buildPanels_two_texts :
  forall configs : list Main.Config,
    Forall (fun p =>
              fresh_panel p /\
              let next := ((Main.current p + 1) mod List.length (Main.texts p))%nat in
              (next < List.length (Main.texts p))%nat /\
              next <> Main.current p /\
              List.length (Main.texts p) <> 1%nat)
           (fst (Main.buildPanels configs)) /\
    (forall cfg t,
        Main.cfg_texts cfg = [Main.str t] ->
        exists p, Main.newPanel cfg = Some p /\
                  Main.texts p = [Main.str t; Main.str t]) /\
    (forall cfg,
        Main.cfg_texts cfg = [] -> Main.newPanel cfg = None) /\
    (forall cfg,
        (2 <= List.length (Main.cfg_texts cfg))%nat ->
        forall p, Main.newPanel cfg = Some p ->
                  Main.texts p = Main.cfg_texts cfg).
Proof.
  intro configs. split.
  { unfold Main.buildPanels. apply buildEach_invariant; [ | constructor ].
    apply Forall_forall. intros cfg _ p Hp.
    destruct (newPanel_fresh cfg p Hp) as [Hfresh _].
    split; [ exact Hfresh | ].
    destruct Hfresh as [Hlen [Hcur _]]. rewrite Hcur. cbv zeta.
    rewrite Nat.mod_small by lia. repeat split; lia. }
  split.
  { intros cfg t Ht. unfold Main.newPanel. rewrite Ht. simpl.
    eexists. split; reflexivity. }
  split.
  { intros cfg Ht. unfold Main.newPanel. now rewrite Ht. }
  intros cfg Hlen p Hp.
  destruct (newPanel_fresh cfg p Hp) as [_ [Ht _]]. rewrite Ht.
  destruct (Nat.ltb_spec (List.length (Main.cfg_texts cfg)) 2); [ lia | reflexivity ].
Qed.

Lemma buildPanels_two_texts_witness :
  exists p,
    Main.newPanel (Main.mkConfig Main.ZONES.FAR 2 100 0 [Main.str "solo"]) = Some p /\
    Main.texts p = [Main.str "solo"; Main.str "solo"].
Proof.
  exact (proj1 (proj2 (buildPanels_two_texts []))
           (Main.mkConfig Main.ZONES.FAR 2 100 0 [Main.str "solo"]) "solo"%string
           eq_refl).
Defined.

(** The table of the repository builds its 24 panels without a throw, three
    strings each. *)
Lemma buildPanels_PANEL_CONFIGS :
  snd (Main.buildPanels Main.PANEL_CONFIGS) = Normal /\
  List.length (fst (Main.buildPanels Main.PANEL_CONFIGS)) = 24%nat /\
  Forall (fun p => List.length (Main.texts p) = 3%nat /\
                   all_strings (Main.texts p) /\
                   Main.duration (Main.flip p) = 700)
         (fst (Main.buildPanels Main.PANEL_CONFIGS)).
Proof.
  split; [ reflexivity | ]. split; [ reflexivity | ].
  unfold all_strings. vm_compute.
  repeat (apply Forall_cons;
          [ split; [ reflexivity
                   | split; [ repeat (constructor; try discriminate) | reflexivity ] ]
          | ]).
  apply Forall_nil.
Qed.

(** ** The flip lifecycle of one panel *)

Lemma next_texture_defined (p : Main.Panel) :
  Main.texts p <> [] -> all_strings (Main.texts p) ->
  exists tex, next_texture p = Some tex /\
              Main.text_at (Main.texts p)
                ((Main.current p + 1) mod List.length (Main.texts p))%nat
              = Main.str (Main.tex_text tex).
Proof.
  intros Hne Hall. unfold next_texture.
  set (i := ((Main.current p + 1) mod List.length (Main.texts p))%nat).
  assert (Hi : (i < List.length (Main.texts p))%nat).
  { apply Nat.mod_upper_bound. destruct (Main.texts p); [ congruence | discriminate ]. }
  assert (Hin : In (Main.text_at (Main.texts p) i) (Main.texts p))
    by (apply nth_In; exact Hi).
  unfold all_strings in Hall. rewrite Forall_forall in Hall.
  specialize (Hall _ Hin).
  destruct (Main.text_at (Main.texts p) i) as [| s]; [ congruence | ].
  simpl. eexists. split; reflexivity.
Qed.

(** One frame on a panel that has not swapped yet. *)
Lemma updateFlip_unswapped (now : Q) (p : Main.Panel) (tex : Main.Texture) :
  Main.active (Main.flip p) = true -> Main._swapped p = false ->
  next_texture p = Some tex ->
  Main.updateFlip now p =
  if Main.geb (Main.progress now p) 0.5
  then if Main.geb (Main.progress now p) 1
       then (finished_panel p tex, [tex], Normal)
       else (swapped_panel p tex, [tex], Normal)
  else (p, [], Normal).
Proof.
  intros Ha Hs Htex. unfold Main.updateFlip. rewrite Ha, Hs. simpl.
  unfold next_texture in Htex.
  destruct (Main.geb (Main.progress now p) 0.5) eqn:Hhalf.
  - rewrite Htex.
    destruct (Main.geb (Main.progress now p) 1); reflexivity.
  - destruct (Main.geb (Main.progress now p) 1) eqn:Hone; [ | reflexivity ].
    apply geb_ge in Hone. apply geb_lt in Hhalf. lra.
Qed.

(** One frame on a panel that has swapped already. *)
Lemma updateFlip_swapped (now : Q) (p : Main.Panel) (tex : Main.Texture) :
  Main.active (Main.flip p) = true ->
  Main.updateFlip now (swapped_panel p tex) =
  if Main.geb (Main.progress now p) 1
  then (finished_panel p tex, [], Normal)
  else (swapped_panel p tex, [], Normal).
Proof.
  intro Ha. unfold Main.updateFlip, swapped_panel. simpl. rewrite Ha. simpl.
  change (Main.progress now
            (Main.mkPanel (Main.zone p) (Main.texts p)
               ((Main.current p + 1) mod List.length (Main.texts p))%nat
               (Main.flip p) tex true))
    with (Main.progress now p).
  destruct (Main.geb (Main.progress now p) 1); reflexivity.
Qed.

(** Once the clock has passed [start + duration], the progress is 1: a flip
    with a positive duration can always be run to its end. *)
Lemma progress_reaches_one (now : Q) (p : Main.Panel) :
  0 < Main.duration (Main.flip p) ->
  Main.start (Main.flip p) + Main.duration (Main.flip p) <= now ->
  1 <= Main.progress now p.
Proof.
  intros Hd Hnow. unfold Main.progress.
  assert (H1 : 1 <= (now - Main.start (Main.flip p)) / Main.duration (Main.flip p)).
  { apply Qle_shift_div_l; [ exact Hd | lra ]. }
  clamp_cases; lra.
Qed.

Lemma in_firstn {A : Type} (a : A) (k : nat) (l : list A) :
  In a (firstn k l) -> In a l.
Proof.
  intro H. rewrite <- (firstn_skipn k l). apply in_or_app. now left.
Qed.

(** ** The idle auto-flip *)

Lemma updateFlip_normal (now : Q) (p : Main.Panel) :
  wf_panel p ->
  exists p' made,
    Main.updateFlip now p = (p', made, Normal) /\
    Main.texts p' = Main.texts p /\
    Main.duration (Main.flip p') = Main.duration (Main.flip p).
Proof.
  intros [Hne [Hall _]].
  destruct (next_texture_defined p Hne Hall) as [tex [Htex _]].
  unfold next_texture in Htex. unfold Main.updateFlip.
  destruct (Main.active (Main.flip p)); simpl; [ | eauto ].
  destruct (negb (Main._swapped p) && Main.geb (Main.progress now p) 0.5).
  - rewrite Htex. destruct (Main.geb (Main.progress now p) 1); eauto.
  - destruct (Main.geb (Main.progress now p) 1); eauto.
Qed.

Lemma updateFlips_normal (now : Q) :
  forall ps,
    Forall wf_panel ps ->
    exists ps' made,
      Main.updateFlips now ps = (ps', made, Normal) /\
      Forall wf_panel ps' /\ List.length ps' = List.length ps.
Proof.
  induction ps as [| p ps IH]; intro Hwf; simpl.
  - exists [], []. auto.
  - inversion Hwf as [| ? ? Hp Hps]; subst.
    destruct (updateFlip_normal now p Hp) as [p' [made [-> [Ht Hd]]]].
    destruct (IH Hps) as [ps' [made' [-> [Hwf' Hlen]]]].
    eexists. eexists. split; [ reflexivity | ]. split.
    + constructor; [ | exact Hwf' ]. unfold wf_panel in *. now rewrite Ht, Hd.
    + simpl. now rewrite Hlen.
Qed.

Lemma triggerFlip_wf (clock : Q) (p : Main.Panel) sf ax :
  wf_panel p -> wf_panel (Main.triggerFlip clock p sf ax).
Proof.
  unfold wf_panel, Main.triggerFlip.
  destruct (Main.active (Main.flip p)); [ auto | ].
  intros [Hne [Hall _]]. simpl. repeat split; auto.
  pose proof (clamp_bounds
                (400 * (1 / match sf with Some s => s | None => 1 end)) 360 1100)
    as Hb.
  lra.
Qed.

Lemma update_at_length (f : Main.Panel -> Main.Panel) :
  forall ps i, List.length (Main.update_at i f ps) = List.length ps.
Proof.
  induction ps as [| p ps IH]; intros [| i]; simpl; auto.
Qed.

Lemma update_at_Forall (P : Main.Panel -> Prop) (f : Main.Panel -> Main.Panel) :
  (forall p, P p -> P (f p)) ->
  forall ps i, Forall P ps -> Forall P (Main.update_at i f ps).
Proof.
  intros Hf. induction ps as [| p ps IH]; intros i Hps; [ simpl; constructor | ].
  inversion Hps as [| ? ? Hp Hrest]; subst.
  destruct i as [| i]; simpl; constructor; auto.
Qed.

Lemma update_at_wf (f : Main.Panel -> Main.Panel) :
  (forall p, wf_panel p -> wf_panel (f p)) ->
  forall ps i,
    ps <> [] -> Forall wf_panel ps ->
    Main.update_at i f ps <> [] /\ Forall wf_panel (Main.update_at i f ps).
Proof.
  intros Hf ps i Hne Hwf. split.
  - intro E. apply (f_equal (@List.length _)) in E.
    rewrite update_at_length in E. destruct ps; [ congruence | discriminate ].
  - now apply update_at_Forall.
Qed.

Lemma random_index_in_range (r : Q) (ps : list Main.Panel) :
  ps <> [] -> unit_interval r ->
  exists p, js_get ps (Main.random_index r ps) = Some p.
Proof.
  intros Hne [H0 H1]. unfold js_get, Main.random_index.
  set (n := List.length ps).
  assert (Hn : (0 < n)%nat) by (subst n; destruct ps; simpl; [ congruence | lia ]).
  assert (HnQ : 0 < inject_Z (Z.of_nat n)).
  { change 0 with (inject_Z 0). rewrite <- Zlt_Qlt. lia. }
  set (x := r * inject_Z (Z.of_nat n)).
  assert (Hx0 : 0 <= x) by (subst x; apply Qmult_le_0_compat; lra).
  assert (Hx1 : x < inject_Z (Z.of_nat n)).
  { subst x. rewrite <- (Qmult_1_l (inject_Z (Z.of_nat n))) at 2.
    apply Qmult_lt_compat_r; assumption. }
  assert (Hf0 : (0 <= Qfloor x)%Z).
  { change 0%Z with (Qfloor 0). now apply Qfloor_resp_le. }
  assert (Hf1 : (Qfloor x < Z.of_nat n)%Z).
  { rewrite Zlt_Qlt. eapply Qle_lt_trans; [ apply Qfloor_le | exact Hx1 ]. }
  destruct (Z.ltb_spec (Qfloor x) 0) as [Hneg | _]; [ lia | ].
  destruct (nth_error ps (Z.to_nat (Qfloor x))) as [p |] eqn:E; [ eauto | ].
  apply nth_error_None in E. fold n in E. lia.
Qed.

Lemma triggerAt_wf (r clock sf : Q) (ax : string) (ps : list Main.Panel) :
  ps <> [] -> Forall wf_panel ps -> unit_interval r ->
  exists ps',
    Main.triggerAt (Main.random_index r ps) clock sf ax ps = Some ps' /\
    ps' <> [] /\ Forall wf_panel ps'.
Proof.
  intros Hne Hwf Hr. unfold Main.triggerAt.
  destruct (random_index_in_range r ps Hne Hr) as [p ->].
  eexists. split; [ reflexivity | ].
  apply update_at_wf; auto. intros q Hq. now apply triggerFlip_wf.
Qed.

Lemma attempted_iff (now : Q) (w : Main.World) :
  attempted now w = true <->
  Main.paused w = false /\
  Main.IDLE_THRESHOLD < now - Main.lastInteraction w /\
  Main.AUTO_FLIP_INTERVAL < now - Main.lastAutoFlip w.
Proof.
  unfold attempted, Main.autoFlipDue.
  rewrite !andb_true_iff, negb_true_iff, !gtb_gt. tauto.
Qed.

(** What one call of [animate] does to the timers. *)
Lemma animate_timers (now : Q) (env : Main.Env) (w : Main.World) :
  wf_world w -> unit_interval (Main.r_pick env) ->
  exists w' made,
    Main.animate now env w = (w', made, Normal) /\
    wf_world w' /\
    Main.lastAutoFlip w' = (if attempted now w then now else Main.lastAutoFlip w) /\
    Main.lastInteraction w' = Main.lastInteraction w /\
    Main.paused w' = Main.paused w /\
    Main.last w' = now /\
    (attempted now w = false ->
     Main.panels w' =
       if Main.paused w then Main.panels w
       else fst (fst (Main.updateFlips now (Main.panels w)))).
Proof.
  intros [Hne Hwf] Hr. unfold Main.animate, attempted.
  destruct (Main.paused w) eqn:Hp; simpl.
  - eexists. eexists. split; [ reflexivity | ]. simpl.
    repeat split; auto.
  - destruct (updateFlips_normal now (Main.panels w) Hwf)
      as [ps [made [Hup [Hwf' Hlen]]]].
    rewrite Hup. simpl.
    assert (Hne' : ps <> []).
    { intro E. subst ps. simpl in Hlen.
      destruct (Main.panels w); [ congruence | discriminate ]. }
    unfold Main.animate_idle.
    change (Main.autoFlipDue now
              (Main.mkWorld ps (Main.lastInteraction w) (Main.lastAutoFlip w) false now))
      with (Main.autoFlipDue now w).
    destruct (Main.autoFlipDue now w) eqn:Hdue; simpl.
    + destruct (Main.ltb (Main.r_chance env) 0.55).
      * destruct (triggerAt_wf (Main.r_pick env) (Main.perf env)
                    (Main.clamp (0.5 + Main.r_speed env * 2.5) 0.6 3.2)
                    (Main.random_axis (Main.r_axis env)) ps Hne' Hwf' Hr)
          as [ps' [-> [Hne'' Hwf'']]].
        eexists. eexists. split; [ reflexivity | ]. simpl.
        repeat split; auto; discriminate.
      * eexists. eexists. split; [ reflexivity | ]. simpl.
        repeat split; auto; discriminate.
    + eexists. eexists. split; [ reflexivity | ]. simpl.
      repeat split; auto.
Qed.

(** Every event keeps the world well formed, and only a frame that enters
    the idle block writes the auto-flip timer. *)
Lemma step_timers (ev : Main.event) (w : Main.World) :
  wf_world w -> wf_event ev ->
  exists w' made,
    Main.step ev w = (w', made, Normal) /\
    wf_world w' /\
    Main.lastAutoFlip w' =
      match ev with
      | Main.Frame now _ => if attempted now w then now else Main.lastAutoFlip w
      | _ => Main.lastAutoFlip w
      end.
Proof.
  intros Hw Hev. destruct ev as [now env | clock | hit r c1 c2 | r1 r2 c1 c2 | ]; simpl.
  - destruct (animate_timers now env w Hw Hev) as [w' [made [-> [Hw' [Ht _]]]]].
    eauto.
  - eexists. eexists. split; [ reflexivity | ]. split; [ exact Hw | reflexivity ].
  - eexists. eexists. split; [ reflexivity | ].
    unfold Main.onPointerDown.
    destruct hit as [i |]; [ | split; [ exact Hw | reflexivity ] ].
    destruct (nth_error (Main.panels w) i); [ | split; [ exact Hw | reflexivity ] ].
    split; [ | reflexivity ]. destruct Hw as [Hne Hwf].
    apply update_at_wf; auto. intros q Hq. now apply triggerFlip_wf.
  - unfold Main.onRandomClick. destruct Hw as [Hne Hwf].
    destruct (triggerAt_wf r1 c1 2.4 (Main.random_axis r2) (Main.panels w) Hne Hwf Hev)
      as [ps' [-> [Hne' Hwf']]].
    eexists. eexists. split; [ reflexivity | ]. split; [ split; assumption | reflexivity ].
  - eexists. eexists. split; [ reflexivity | ]. split; [ exact Hw | reflexivity ].
Qed.

Lemma last_cons {A : Type} (a d : A) (l : list A) : last (a :: l) d = last l a.
Proof.
  revert a d. induction l as [| b l IH]; intros a d; [ reflexivity | ].
  change (last (a :: b :: l) d) with (last (b :: l) d).
  now rewrite (IH b d), (IH b a).
Qed.

(** Over any sequence of events the idle block is entered at times that are
    more than 1400 ms apart, and the timer holds the latest of them. *)
Lemma run_spaced :
  forall (evs : list Main.event) (w : Main.World),
    wf_world w -> Forall wf_event evs ->
    exists w' made,
      Main.run evs w = (w', made, Normal) /\
      wf_world w' /\
      spaced (Main.lastAutoFlip w) (Main.attempts evs w) /\
      Main.lastAutoFlip w' = last (Main.attempts evs w) (Main.lastAutoFlip w).
Proof.
  induction evs as [| ev evs IH]; intros w Hw Hevs.
  - simpl. eexists. eexists. split; [ reflexivity | ]. simpl. auto.
  - inversion Hevs as [| ? ? Hev Hrest]; subst.
    destruct (step_timers ev w Hw Hev) as [w1 [made1 [Hstep [Hw1 Ht1]]]].
    destruct (IH w1 Hw1 Hrest) as [w2 [made2 [Hrun [Hw2 [Hsp Hlast]]]]].
    simpl. rewrite Hstep, Hrun.
    eexists. eexists. split; [ reflexivity | ]. split; [ exact Hw2 | ].
    rewrite Ht1 in Hsp, Hlast.
    destruct ev as [now env | clock | hit r c1 c2 | r1 r2 c1 c2 | ];
      try (simpl; split; assumption).
    fold (attempted now w). fold (attempted now w) in Hsp, Hlast.
    destruct (attempted now w) eqn:Hatt.
    + rewrite <- app_comm_cons. simpl app. rewrite last_cons.
      split; [ | exact Hlast ].
      simpl. split; [ | exact Hsp ].
      apply attempted_iff in Hatt. tauto.
    + simpl app. split; assumption.
Qed.

(** C6, as the code has it.  A frame enters the idle block exactly when the
    loop is not paused, more than 5000 ms have passed since the last
    interaction and more than 1400 ms since the auto-flip timer was set
    (both comparisons are strict; so at least 5000 ms and at least 1400 ms
    have passed).  In that case the timer is set to the frame time whatever
    the random numbers are, flip or no flip; otherwise the timer and, apart
    from [updateFlips], the panels are left alone.  Hence, over any sequence
    of frames, pointer events and button clicks, the frames that enter the
    idle block are more than 1400 ms apart. *)
Theorem idle_autoflip_cadence :
  forall (w : Main.World) (now : Q) (env : Main.Env) (evs : list Main.event),
    wf_world w ->
    unit_interval (Main.r_pick env) ->
    Forall wf_event evs ->
    (attempted now w = true <->
     Main.paused w = false /\
     Main.IDLE_THRESHOLD < now - Main.lastInteraction w /\
     Main.AUTO_FLIP_INTERVAL < now - Main.lastAutoFlip w) /\
    (attempted now w = true ->
     5000 <= now - Main.lastInteraction w /\ 1400 <= now - Main.lastAutoFlip w) /\
    (exists w' made,
        Main.animate now env w = (w', made, Normal) /\
        Main.lastAutoFlip w' =
          (if attempted now w then now else Main.lastAutoFlip w) /\
        Main.lastInteraction w' = Main.lastInteraction w /\
        (attempted now w = false ->
         Main.panels w' =
           if Main.paused w then Main.panels w
           else fst (fst (Main.updateFlips now (Main.panels w)))) /\
        forall env' : Main.Env,
          unit_interval (Main.r_pick env') ->
          Main.lastAutoFlip (fst (fst (Main.animate now env' w))) =
          Main.lastAutoFlip w') /\
    (exists w' made,
        Main.run evs w = (w', made, Normal) /\
        spaced (Main.lastAutoFlip w) (Main.attempts evs w) /\
        Main.lastAutoFlip w' = last (Main.attempts evs w) (Main.lastAutoFlip w)).
Proof.
  intros w now env evs Hw Hr Hevs.
  split; [ apply attempted_iff | ].
  split.
  { intro Hatt. apply attempted_iff in Hatt.
    unfold Main.IDLE_THRESHOLD, Main.AUTO_FLIP_INTERVAL in Hatt.
    destruct Hatt as [_ [H1 H2]]. split; lra. }
  split.
  { destruct (animate_timers now env w Hw Hr)
      as [w' [made [Hrun [_ [Ht [Hi [_ [_ Hps]]]]]]]].
    exists w', made. repeat (split; [ assumption | ]).
    intros env' Hr'.
    destruct (animate_timers now env' w Hw Hr') as [w'' [made' [-> [_ [Ht' _]]]]].
    simpl. congruence. }
  destruct (run_spaced evs w Hw Hevs) as [w' [made [Hrun [_ [Hsp Hlast]]]]].
  exists w', made. auto.
Qed.

(** The world of the repository is well formed whatever the clock reads. *)
Lemma initial_world_wf (t1 t2 t3 : Q) : wf_world (Main.initial_world t1 t2 t3).
Proof.
  destruct buildPanels_PANEL_CONFIGS as [_ [Hlen Hall]].
  unfold wf_world, Main.initial_world. cbn [Main.panels]. split.
  - intro E. rewrite E in Hlen. discriminate.
  - eapply Forall_impl; [ | exact Hall ].
    intros p [Hl [Hs Hd]]. split; [ | split; [ exact Hs | ] ].
    + intro E. rewrite E in Hl. discriminate.
    + rewrite Hd. reflexivity.
Qed.

Lemma idle_autoflip_cadence_witness :
  Main.attempts
    [Main.Frame 5008 quiet_env; Main.Frame 6408 quiet_env; Main.Frame 6425 quiet_env]
    (Main.initial_world 0 0 0) = [5008; 6425] /\
  spaced 0 [5008; 6425].
Proof.
  assert (Hevs : Forall wf_event
                   [Main.Frame 5008 quiet_env; Main.Frame 6408 quiet_env;
                    Main.Frame 6425 quiet_env]).
  { repeat constructor; simpl; discriminate. }
  assert (Hr : unit_interval (Main.r_pick quiet_env))
    by (split; [ discriminate | reflexivity ]).
  destruct (idle_autoflip_cadence (Main.initial_world 0 0 0) 5008 quiet_env _
              (initial_world_wf 0 0 0) Hr Hevs)
    as [_ [_ [_ [w' [made [_ [Hsp _]]]]]]].
  assert (Hatt : Main.attempts
                   [Main.Frame 5008 quiet_env; Main.Frame 6408 quiet_env;
                    Main.Frame 6425 quiet_env]
                   (Main.initial_world 0 0 0) = [5008; 6425])
    by (vm_compute; reflexivity).
  rewrite Hatt in Hsp. split; [ exact Hatt | exact Hsp ].
Defined.

(** C6 as stated fails at the boundary: 6408 ms after load the page has been
    idle for at least 5000 ms and exactly 1400 ms have passed since the last
    attempt, yet the frame ends normally without an attempt: the timer keeps
    5008 and is not set to 6408. *)
Lemma idle_autoflip_boundary_not_reset :
  Main.paused boundary_world = false /\
  5000 <= 6408 - Main.lastInteraction boundary_world /\
  1400 <= 6408 - Main.lastAutoFlip boundary_world /\
  snd (Main.animate 6408 quiet_env boundary_world) = Normal /\
  attempted 6408 boundary_world = false /\
  Main.lastAutoFlip (fst (fst (Main.animate 6408 quiet_env boundary_world))) = 5008 /\
  ~ Main.lastAutoFlip (fst (fst (Main.animate 6408 quiet_env boundary_world)))
    == 6408.
Proof.
  split; [ vm_compute; reflexivity | ].
  split; [ apply Qle_bool_iff; vm_compute; reflexivity | ].
  split; [ apply Qle_bool_iff; vm_compute; reflexivity | ].
  split; [ vm_compute; reflexivity | ].
  split; [ vm_compute; reflexivity | ].
  split; [ vm_compute; reflexivity | ].
  intro H. vm_compute in H. discriminate.
Qed.

(** ** The flip lifecycle in the panel array *)

(** On panels whose texts are strings no callback throws, so [updateFlips]
    runs the body of [forEach] on every panel, in order. *)
Lemma updateFlips_each (now : Q) :
  forall ps : list Main.Panel,
    Forall wf_panel ps ->
    Main.updateFlips now ps =
    (List.map (fun q => fst (fst (Main.updateFlip now q))) ps,
     flat_map (fun q => snd (fst (Main.updateFlip now q))) ps,
     Normal).
Proof.
  induction ps as [| q ps IH]; intro Hwf; simpl; [ reflexivity | ].
  inversion Hwf as [| ? ? Hq Hps]; subst.
  destruct (updateFlip_normal now q Hq) as [q' [made [-> _]]].
  rewrite (IH Hps). reflexivity.
Qed.

Lemma flat_map_single {A B : Type} (f : A -> list B) :
  forall (l : list A) (i : nat) (a : A),
    nth_error l i = Some a ->
    (forall j b, j <> i -> nth_error l j = Some b -> f b = []) ->
    flat_map f l = f a.
Proof.
  induction l as [| x l IH]; intros i a Hi Hrest.
  - destruct i; discriminate.
  - destruct i as [| i]; simpl in *.
    + injection Hi as ->.
      assert (E : flat_map f l = []).
      { clear IH. induction l as [| y l IHl]; [ reflexivity | ]. simpl.
        rewrite (Hrest 1%nat y) by (try discriminate; reflexivity).
        simpl. apply IHl. intros j b Hj Hb.
        destruct j as [| j]; [ congruence | ].
        apply (Hrest (S (S j)) b); [ discriminate | exact Hb ]. }
      rewrite E. apply app_nil_r.
    + rewrite (Hrest 0%nat x) by (try discriminate; reflexivity). simpl.
      apply (IH i a Hi). intros j b Hj Hb.
      apply (Hrest (S j) b); [ congruence | exact Hb ].
Qed.

(** What [updateFlips] does to the panel at one index of such an array. *)
Lemma updateFlips_at (now : Q) (ps : list Main.Panel) (i : nat) (q : Main.Panel) :
  Forall wf_panel ps ->
  nth_error ps i = Some q ->
  exists ps' made,
    Main.updateFlips now ps = (ps', made, Normal) /\
    Forall wf_panel ps' /\
    List.length ps' = List.length ps /\
    nth_error ps' i = Some (fst (fst (Main.updateFlip now q))) /\
    (forall tex, In tex (snd (fst (Main.updateFlip now q))) -> In tex made) /\
    ((forall j r, j <> i -> nth_error ps j = Some r ->
                  Main.active (Main.flip r) = false) ->
     made = snd (fst (Main.updateFlip now q))).
Proof.
  intros Hwf Hi.
  destruct (updateFlips_normal now ps Hwf) as [ps' [made [Hup [Hwf' Hlen]]]].
  exists ps', made. split; [ exact Hup | ].
  split; [ exact Hwf' | ]. split; [ exact Hlen | ].
  rewrite (updateFlips_each now ps Hwf) in Hup.
  injection Hup as <- <-.
  split; [ | split ].
  - exact (map_nth_error (fun r => fst (fst (Main.updateFlip now r))) i ps Hi).
  - intros tex Hin. apply in_flat_map. exists q.
    split; [ eapply nth_error_In; exact Hi | exact Hin ].
  - intro Hrest.
    apply (flat_map_single (fun r => snd (fst (Main.updateFlip now r))) ps i q Hi).
    intros j r Hj Hr. unfold Main.updateFlip.
    now rewrite (Hrest j r Hj Hr).
Qed.

Lemma triggerFlip_active (clock : Q) (p : Main.Panel) (sf : option Q)
    (ax : option string) :
  Main.active (Main.flip p) = true -> Main.triggerFlip clock p sf ax = p.
Proof. intro Ha. unfold Main.triggerFlip. now rewrite Ha. Qed.

Lemma nth_error_update_at (f : Main.Panel -> Main.Panel) :
  forall (ps : list Main.Panel) (i j : nat),
    nth_error (Main.update_at i f ps) j =
    if (i =? j)%nat then option_map f (nth_error ps j) else nth_error ps j.
Proof.
  induction ps as [| p ps IH]; intros i j.
  - simpl. destruct (i =? j)%nat; destruct j; reflexivity.
  - destruct i as [| i]; destruct j as [| j]; simpl; try reflexivity.
    apply IH.
Qed.

(** A [triggerFlip] somewhere in the array leaves the panel at index [i] as
    it is, or is a [triggerFlip] on that panel. *)
Lemma update_at_trigger (clock : Q) (sf : option Q) (ax : option string)
    (ps : list Main.Panel) (j i : nat) (q : Main.Panel) :
  nth_error ps i = Some q ->
  nth_error (Main.update_at j (fun p => Main.triggerFlip clock p sf ax) ps) i =
    Some q \/
  nth_error (Main.update_at j (fun p => Main.triggerFlip clock p sf ax) ps) i =
    Some (Main.triggerFlip clock q sf ax).
Proof.
  intro Hi. rewrite nth_error_update_at.
  destruct (j =? i)%nat; rewrite Hi; simpl; auto.
Qed.

(** One call of [animate] seen from the panel at index [i]: [updateFlips]
    runs on it unless the loop is paused, and the idle block may then call
    [triggerFlip] on it. *)
Lemma animate_at (now : Q) (env : Main.Env) (w : Main.World) (i : nat)
    (q : Main.Panel) :
  wf_world w -> unit_interval (Main.r_pick env) ->
  nth_error (Main.panels w) i = Some q ->
  let q' := if Main.paused w then q else fst (fst (Main.updateFlip now q)) in
  let w' := fst (fst (Main.animate now env w)) in
  snd (Main.animate now env w) = Normal /\
  wf_world w' /\
  (nth_error (Main.panels w') i = Some q' \/
   exists clock sf ax,
     nth_error (Main.panels w') i =
       Some (Main.triggerFlip clock q' (Some sf) (Some ax))).
Proof.
  intros Hw Hr Hi q' w'.
  destruct (animate_timers now env w Hw Hr) as [w1 [made1 [Han [Hw1 _]]]].
  subst w'. rewrite Han. simpl.
  split; [ reflexivity | ]. split; [ exact Hw1 | ].
  destruct Hw as [Hne Hwf].
  revert Han. unfold Main.animate.
  destruct (Main.paused w) eqn:Hp; simpl.
  - intro E. injection E as <- _. simpl. left. exact Hi.
  - destruct (updateFlips_at now (Main.panels w) i q Hwf Hi)
      as [ps [made [Hup [Hwf' [Hlen [Hnth _]]]]]].
    rewrite Hup. unfold Main.animate_idle.
    destruct (Main.autoFlipDue now _); simpl.
    + destruct (Main.ltb (Main.r_chance env) 0.55).
      * unfold Main.triggerAt.
        destruct (js_get ps (Main.random_index (Main.r_pick env) ps)); simpl.
        -- intro E. injection E as <- _. simpl.
           destruct (update_at_trigger (Main.perf env)
                       (Some (Main.clamp (0.5 + Main.r_speed env * 2.5) 0.6 3.2))
                       (Some (Main.random_axis (Main.r_axis env))) ps
                       (Z.to_nat (Main.random_index (Main.r_pick env) ps)) i _ Hnth)
             as [H | H]; [ left; exact H | right; eauto ].
        -- discriminate.
      * intro E. injection E as <- _. simpl. left. exact Hnth.
    + intro E. injection E as <- _. simpl. left. exact Hnth.
Qed.

(** One event seen from a panel in the middle of a flip (active, with the
    progress below 1 at every frame): the panel stays as it is, or swaps,
    and once swapped stays swapped. *)
Lemma step_keeps_flip (i : nat) (p : Main.Panel) (tex : Main.Texture) :
  Main.active (Main.flip p) = true -> Main._swapped p = false ->
  next_texture p = Some tex ->
  forall (ev : Main.event) (w : Main.World),
    wf_world w -> wf_event ev ->
    (forall now env, ev = Main.Frame now env -> Main.progress now p < 1) ->
    let w' := fst (fst (Main.step ev w)) in
    snd (Main.step ev w) = Normal /\
    wf_world w' /\
    (nth_error (Main.panels w) i = Some p ->
     nth_error (Main.panels w') i = Some p \/
     nth_error (Main.panels w') i = Some (swapped_panel p tex)) /\
    (nth_error (Main.panels w) i = Some (swapped_panel p tex) ->
     nth_error (Main.panels w') i = Some (swapped_panel p tex)).
Proof.
  intros Ha Hs Htex ev w Hw Hev Hlt w'.
  destruct (step_timers ev w Hw Hev) as [w1 [made1 [Hstep [Hw1 _]]]].
  subst w'. rewrite Hstep. simpl.
  split; [ reflexivity | ]. split; [ exact Hw1 | ].
  assert (Ha' : Main.active (Main.flip (swapped_panel p tex)) = true) by exact Ha.
  assert (Hkeep : forall q j clock sf ax,
             Main.active (Main.flip q) = true ->
             nth_error (Main.panels w) i = Some q ->
             nth_error
               (Main.update_at j (fun r => Main.triggerFlip clock r sf ax)
                               (Main.panels w)) i = Some q).
  { intros q j clock sf ax Hq Hi.
    destruct (update_at_trigger clock sf ax (Main.panels w) j i q Hi) as [H | H];
      [ exact H | ].
    now rewrite (triggerFlip_active clock q sf ax Hq) in H. }
  destruct ev as [now env | clock | hit r c1 c2 | r1 r2 c1 c2 | ]; simpl in Hstep.
  - assert (Hnow : Main.geb (Main.progress now p) 1 = false)
      by (apply geb_lt; now apply (Hlt now env)).
    assert (Hfrom : forall q,
               nth_error (Main.panels w) i = Some q ->
               Main.active
                 (Main.flip (if Main.paused w then q
                             else fst (fst (Main.updateFlip now q)))) = true ->
               nth_error (Main.panels w1) i =
                 Some (if Main.paused w then q
                       else fst (fst (Main.updateFlip now q)))).
    { intros q Hi Hact.
      destruct (animate_at now env w i q Hw Hev Hi) as [_ [_ H]].
      rewrite Hstep in H. simpl in H.
      destruct H as [H | [clock [sf [ax H]]]]; [ exact H | ].
      now rewrite (triggerFlip_active _ _ _ _ Hact) in H. }
    split.
    + intro Hi. specialize (Hfrom p Hi).
      rewrite (updateFlip_unswapped now p tex Ha Hs Htex), Hnow in Hfrom.
      destruct (Main.paused w); [ left; now apply Hfrom | ].
      destruct (Main.geb (Main.progress now p) 0.5); simpl in Hfrom;
        [ right | left ]; now apply Hfrom.
    + intro Hi. specialize (Hfrom (swapped_panel p tex) Hi).
      rewrite (updateFlip_swapped now p tex Ha), Hnow in Hfrom.
      destruct (Main.paused w); now apply Hfrom.
  - injection Hstep as <- _. simpl. auto.
  - injection Hstep as <- _. unfold Main.onPointerDown.
    destruct hit as [j |]; [ | auto ].
    destruct (nth_error (Main.panels w) j); [ | auto ].
    simpl. split; intro Hi; [ left | ]; now apply Hkeep.
  - revert Hstep. unfold Main.onRandomClick, Main.triggerAt.
    destruct (js_get (Main.panels w) (Main.random_index r1 (Main.panels w)));
      [ | discriminate ].
    intro E. injection E as <- _. simpl.
    split; intro Hi; [ left | ]; now apply Hkeep.
  - injection Hstep as <- _. simpl. auto.
Qed.

Lemma run_app (evs evs' : list Main.event) (w : Main.World) :
  Main.run (evs ++ evs') w =
  match Main.run evs w with
  | (w', made, Throw) => (w', made, Throw)
  | (w', made, Normal) =>
      let '(w'', made', c) := Main.run evs' w' in
      (w'', made ++ made', c)
  end.
Proof.
  revert w. induction evs as [| ev evs IH]; intro w; simpl.
  - destruct (Main.run evs' w) as [[w' made] c]. reflexivity.
  - destruct (Main.step ev w) as [[w1 made1] c1].
    destruct c1; [ | reflexivity ].
    rewrite IH.
    destruct (Main.run evs w1) as [[w2 made2] c2].
    destruct c2; [ | reflexivity ].
    destruct (Main.run evs' w2) as [[w3 made3] c3].
    now rewrite app_assoc.
Qed.

(** The same over a sequence of events. *)
Lemma run_keeps_flip (i : nat) (p : Main.Panel) (tex : Main.Texture) :
  Main.active (Main.flip p) = true -> Main._swapped p = false ->
  next_texture p = Some tex ->
  forall (evs : list Main.event) (w : Main.World),
    wf_world w -> Forall wf_event evs ->
    (forall now env, In (Main.Frame now env) evs -> Main.progress now p < 1) ->
    let w' := fst (fst (Main.run evs w)) in
    snd (Main.run evs w) = Normal /\
    wf_world w' /\
    (nth_error (Main.panels w) i = Some p ->
     nth_error (Main.panels w') i = Some p \/
     nth_error (Main.panels w') i = Some (swapped_panel p tex)) /\
    (nth_error (Main.panels w) i = Some (swapped_panel p tex) ->
     nth_error (Main.panels w') i = Some (swapped_panel p tex)).
Proof.
  intros Ha Hs Htex.
  induction evs as [| ev evs IH]; intros w Hw Hevs Hlt; simpl.
  - auto.
  - inversion Hevs as [| ? ? Hev Hrest]; subst.
    assert (Hlt1 : forall now env, ev = Main.Frame now env -> Main.progress now p < 1)
      by (intros now env ->; apply (Hlt now env); now left).
    assert (Hlt2 : forall now env, In (Main.Frame now env) evs ->
                                   Main.progress now p < 1)
      by (intros now env Hin; apply (Hlt now env); now right).
    destruct (step_keeps_flip i p tex Ha Hs Htex ev w Hw Hev Hlt1)
      as [Hc1 [Hw1 [Hp1 Hs1]]].
    destruct (Main.step ev w) as [[w1 made1] c1]. simpl in Hc1, Hw1, Hp1, Hs1.
    subst c1.
    destruct (IH w1 Hw1 Hrest Hlt2) as [Hc2 [Hw2 [Hp2 Hs2]]].
    destruct (Main.run evs w1) as [[w2 made2] c2]. simpl in *.
    split; [ exact Hc2 | ]. split; [ exact Hw2 | ].
    split.
    + intro Hi. destruct (Hp1 Hi) as [H | H]; [ now apply Hp2 | right; now apply Hs2 ].
    + intro Hi. apply Hs2. now apply Hs1.
Qed.

Lemma Forall_firstn {A : Type} (P : A -> Prop) (k : nat) (l : list A) :
  Forall P l -> Forall P (firstn k l).
Proof.
  intro H. apply Forall_forall. intros a Ha.
  apply (proj1 (Forall_forall P l) H). eapply in_firstn; exact Ha.
Qed.

Lemma Forall_skipn {A : Type} (P : A -> Prop) (k : nat) (l : list A) :
  Forall P l -> Forall P (skipn k l).
Proof.
  intro H. apply Forall_forall. intros a Ha.
  apply (proj1 (Forall_forall P l) H).
  rewrite <- (firstn_skipn k l). apply in_or_app. now right.
Qed.

(** C2. Take the panel array of the animation loop, with string texts and
    positive durations, and in it a panel at the start of a flip (active,
    not yet swapped).  Let any frames, pointer events and button clicks
    follow during which the progress of that flip stays below 1 at every
    frame, and then a call of [updateFlips] at which the progress is 1 (any
    call at or after [start + duration] is one).
    No event throws.  At every point before that call the panel is either
    untouched or has swapped, and once swapped it stays swapped: the text
    index moves once.  That call ends normally and leaves the panel with
    the current index one step further modulo the number of texts, the
    texture of that text as front texture, the flip no longer active and
    the one-shot flag reset; start, duration, axis and texts are as before.
    The texture is rasterized in that call if the swap had not happened
    before.  After the whole frame of that call the text index and the
    flag are still so, whatever the idle block does. *)
Theorem flip_lifecycle_swaps_once :
  forall (w : Main.World) (i : nat) (p : Main.Panel) (evs : list Main.event)
         (now_end : Q),
    wf_world w ->
    Forall wf_event evs ->
    nth_error (Main.panels w) i = Some p ->
    Main.active (Main.flip p) = true ->
    Main._swapped p = false ->
    (forall now env, In (Main.Frame now env) evs -> Main.progress now p < 1) ->
    1 <= Main.progress now_end p ->
    let next := ((Main.current p + 1) mod List.length (Main.texts p))%nat in
    let at_point k :=
      nth_error (Main.panels (fst (fst (Main.run (firstn k evs) w)))) i in
    (forall now,
        Main.start (Main.flip p) + Main.duration (Main.flip p) <= now ->
        1 <= Main.progress now p) /\
    exists tex : Main.Texture,
      Main.text_at (Main.texts p) next = Main.str (Main.tex_text tex) /\
      (forall k : nat,
          snd (Main.run (firstn k evs) w) = Normal /\
          (at_point k = Some p \/
           at_point k =
             Some (Main.mkPanel (Main.zone p) (Main.texts p) next (Main.flip p)
                                tex true))) /\
      (forall k k' : nat,
          (k <= k')%nat ->
          at_point k =
            Some (Main.mkPanel (Main.zone p) (Main.texts p) next (Main.flip p)
                               tex true) ->
          at_point k' =
            Some (Main.mkPanel (Main.zone p) (Main.texts p) next (Main.flip p)
                               tex true)) /\
      exists (before : Main.World) (made0 : list Main.Texture)
             (ps' : list Main.Panel) (made : list Main.Texture)
             (p' : Main.Panel),
        Main.run evs w = (before, made0, Normal) /\
        Main.updateFlips now_end (Main.panels before) = (ps', made, Normal) /\
        List.length ps' = List.length (Main.panels before) /\
        nth_error ps' i = Some p' /\
        Main.current p' = next /\
        Main.frontTexture p' = tex /\
        Main.active (Main.flip p') = false /\
        Main._swapped p' = false /\
        Main.start (Main.flip p') = Main.start (Main.flip p) /\
        Main.duration (Main.flip p') = Main.duration (Main.flip p) /\
        Main.axis (Main.flip p') = Main.axis (Main.flip p) /\
        Main.texts p' = Main.texts p /\
        Main.zone p' = Main.zone p /\
        (nth_error (Main.panels before) i = Some p -> In tex made) /\
        (forall env : Main.Env,
            Main.paused before = false ->
            unit_interval (Main.r_pick env) ->
            exists (after : Main.World) (made' : list Main.Texture)
                   (p'' : Main.Panel),
              Main.step (Main.Frame now_end env) before = (after, made', Normal) /\
              nth_error (Main.panels after) i = Some p'' /\
              Main.current p'' = next /\
              Main.frontTexture p'' = tex /\
              Main._swapped p'' = false /\
              Main.texts p'' = Main.texts p).
Proof.
  intros w i p evs now_end Hw Hevs Hi Ha Hs Hlt Hend next at_point.
  assert (Hp : wf_panel p).
  { destruct Hw as [_ Hwf]. apply (proj1 (Forall_forall _ _) Hwf).
    eapply nth_error_In; exact Hi. }
  destruct Hp as [Hne [Hall Hdur]].
  split; [ intros now Hnow; now apply progress_reaches_one | ].
  destruct (next_texture_defined p Hne Hall) as [tex [Htex Htext]].
  exists tex. split; [ exact Htext | ].
  change (Main.mkPanel (Main.zone p) (Main.texts p) next (Main.flip p) tex true)
    with (swapped_panel p tex).
  assert (Hsub : forall k now env,
             In (Main.Frame now env) (firstn k evs) -> Main.progress now p < 1)
    by (intros k now env Hin; apply (Hlt now env); eapply in_firstn; exact Hin).
  split.
  { intro k. subst at_point. cbv beta.
    destruct (run_keeps_flip i p tex Ha Hs Htex (firstn k evs) w Hw
                (Forall_firstn _ k evs Hevs) (Hsub k)) as [Hc [_ [Hp _]]].
    split; [ exact Hc | now apply Hp ]. }
  split.
  { intros k k' Hk. subst at_point. cbv beta.
    assert (E : firstn k' evs = firstn k evs ++ skipn k (firstn k' evs)).
    { rewrite <- (firstn_skipn k (firstn k' evs)) at 1.
      rewrite firstn_firstn. now rewrite Nat.min_l by exact Hk. }
    rewrite E, run_app.
    destruct (run_keeps_flip i p tex Ha Hs Htex (firstn k evs) w Hw
                (Forall_firstn _ k evs Hevs) (Hsub k)) as [Hc [Hw1 _]].
    destruct (Main.run (firstn k evs) w) as [[w1 made1] c1].
    simpl in Hc, Hw1. subst c1. simpl. intro H1.
    assert (Hevs2 : Forall wf_event (skipn k (firstn k' evs)))
      by (apply Forall_skipn; now apply Forall_firstn).
    assert (Hlt2 : forall now env,
               In (Main.Frame now env) (skipn k (firstn k' evs)) ->
               Main.progress now p < 1).
    { intros now env Hin. apply (Hsub k' now env).
      rewrite <- (firstn_skipn k (firstn k' evs)). apply in_or_app. now right. }
    destruct (run_keeps_flip i p tex Ha Hs Htex _ w1 Hw1 Hevs2 Hlt2)
      as [_ [_ [_ Hkeep]]].
    destruct (Main.run (skipn k (firstn k' evs)) w1) as [[w2 made2] c2].
    simpl in *. now apply Hkeep. }
  destruct (run_keeps_flip i p tex Ha Hs Htex evs w Hw Hevs Hlt)
    as [Hc [Hwb [Hpb _]]].
  destruct (Main.run evs w) as [[before made0] c0]. simpl in Hc, Hwb, Hpb.
  subst c0. specialize (Hpb Hi).
  apply geb_ge in Hend.
  assert (Hhalf : Main.geb (Main.progress now_end p) 0.5 = true).
  { apply geb_ge. apply geb_ge in Hend. lra. }
  assert (Hfin : exists q,
             nth_error (Main.panels before) i = Some q /\
             fst (fst (Main.updateFlip now_end q)) = finished_panel p tex /\
             (q = p -> snd (fst (Main.updateFlip now_end q)) = [tex])).
  { destruct Hpb as [H | H].
    - exists p. split; [ exact H | ].
      rewrite (updateFlip_unswapped now_end p tex Ha Hs Htex), Hhalf, Hend.
      auto.
    - exists (swapped_panel p tex). split; [ exact H | ].
      rewrite (updateFlip_swapped now_end p tex Ha), Hend. split; [ reflexivity | ].
      intro E. apply (f_equal Main._swapped) in E. simpl in E. congruence. }
  destruct Hfin as [q [Hq [Hqfin Hqmade]]].
  destruct Hwb as [Hneb Hwfb].
  destruct (updateFlips_at now_end (Main.panels before) i q Hwfb Hq)
    as [ps' [made [Hup [_ [Hlen [Hnth [Hin _]]]]]]].
  rewrite Hqfin in Hnth.
  exists before, made0, ps', made, (finished_panel p tex).
  split; [ reflexivity | ]. split; [ exact Hup | ].
  split; [ exact Hlen | ]. split; [ exact Hnth | ].
  do 9 (split; [ reflexivity | ]).
  split.
  { intro Hbp. apply Hin.
    assert (E : q = p) by congruence.
    rewrite (Hqmade E). now left. }
  intros env Hpaused Hr.
  destruct (animate_at now_end env before i q (conj Hneb Hwfb) Hr Hq)
    as [Hca [_ Hat]].
  rewrite Hpaused, Hqfin in Hat. simpl.
  destruct (Main.animate now_end env before) as [[after made'] ca].
  simpl in Hca, Hat. subst ca.
  destruct Hat as [H | [clock [sf [ax H]]]].
  - exists after, made', (finished_panel p tex).
    split; [ reflexivity | ]. split; [ exact H | ]. repeat split.
  - exists after, made',
      (Main.triggerFlip clock (finished_panel p tex) (Some sf) (Some ax)).
    split; [ reflexivity | ]. split; [ exact H | ]. repeat split.
Qed.

Lemma flip_lifecycle_swaps_once_witness :
  exists (ps' : list Main.Panel) (made : list Main.Texture) (p' : Main.Panel),
    Main.updateFlips 1400
      (Main.panels
         (fst (fst (Main.run
                      [Main.Frame 1100 quiet_env;
                       Main.PointerDown (Some 0%nat) 0 1150 1151;
                       Main.Frame 1200 quiet_env;
                       Main.PauseClick;
                       Main.Frame 1250 quiet_env;
                       Main.PauseClick;
                       Main.Frame 1300 quiet_env]
                      clicked_world)))) = (ps', made, Normal) /\
    nth_error ps' 0 = Some p' /\
    Main.current p' = 1%nat /\
    Main.active (Main.flip p') = false /\
    Main._swapped p' = false.
Proof.
  assert (Hw : wf_world clicked_world).
  { destruct (step_timers (Main.PointerDown (Some 0%nat) 0 1000 1001)
                (Main.initial_world 0 0 0) (initial_world_wf 0 0 0) I)
      as [w' [made [Hstep [Hw' _]]]].
    simpl in Hstep. injection Hstep as <- _. exact Hw'. }
  assert (Hevs : Forall wf_event
                   [Main.Frame 1100 quiet_env;
                    Main.PointerDown (Some 0%nat) 0 1150 1151;
                    Main.Frame 1200 quiet_env;
                    Main.PauseClick;
                    Main.Frame 1250 quiet_env;
                    Main.PauseClick;
                    Main.Frame 1300 quiet_env]).
  { repeat (apply Forall_cons; [ simpl; unfold unit_interval; try lra; exact I | ]).
    apply Forall_nil. }
  assert (Hi : nth_error (Main.panels clicked_world) 0 = Some clicked_panel)
    by reflexivity.
  assert (Hlt : forall now env,
             In (Main.Frame now env)
                [Main.Frame 1100 quiet_env;
                 Main.PointerDown (Some 0%nat) 0 1150 1151;
                 Main.Frame 1200 quiet_env;
                 Main.PauseClick;
                 Main.Frame 1250 quiet_env;
                 Main.PauseClick;
                 Main.Frame 1300 quiet_env] ->
             Main.progress now clicked_panel < 1).
  { intros now env [H | [H | [H | [H | [H | [H | [H | []]]]]]]];
      try discriminate; injection H as <- _; reflexivity. }
  assert (Hend : 1 <= Main.progress 1400 clicked_panel) by discriminate.
  destruct (flip_lifecycle_swaps_once clicked_world 0 clicked_panel _ 1400
              Hw Hevs Hi eq_refl eq_refl Hlt Hend)
    as [_ [tex [_ [_ [_ [before [made0 [ps' [made [p' H]]]]]]]]]].
  destruct H as [Hrun [Hup [_ [Hnth [Hcur [_ [Hact [Hsw _]]]]]]]].
  exists ps', made, p'. rewrite Hrun. simpl fst.
  split; [ exact Hup | ]. split; [ exact Hnth | ].
  split; [ exact Hcur | ]. split; [ exact Hact | exact Hsw ].
Defined.

(** * Further properties of sketch.js *)

#[local] Close Scope Q_scope.

(** ** The topology *)

(** X1. The edges of [initTesseract] are exactly the index pairs [(i, j)]
    with [i < j < 16] whose binary expansions differ in exactly one of the
    four bits: no such pair is missing and no other pair is present. *)
Theorem edges_are_single_bit_flips :
  forall (prev : Sketch.Topology) (i j : nat),
    In (i, j) (Sketch.edges (Sketch.initTesseract prev)) <->
    i < j /\ j < 16 /\ exists d, d < 4 /\ Nat.lxor i j = 2 ^ d.
Proof.
  intros prev i j.
  change (Sketch.initTesseract prev)
    with (Sketch.initTesseract (Sketch.mkTopology [] [])).
  set (es := Sketch.edges (Sketch.initTesseract (Sketch.mkTopology [] []))).
  split.
  - intro Hin.
    assert (Hall : Forall (fun e => fst e < snd e /\ snd e < 16 /\
                                    exists d, d < 4 /\ Nat.lxor (fst e) (snd e) = 2 ^ d)
                          es).
    { apply (forallb_Forall
               (fun e => (fst e <? snd e) && (snd e <? 16) &&
                         existsb (fun d => Nat.lxor (fst e) (snd e) =? 2 ^ d)
                                 (range 0 4))).
      - intros e He. apply andb_true_iff in He. destruct He as [He H3].
        apply andb_true_iff in He. destruct He as [H1 H2].
        apply Nat.ltb_lt in H1, H2. apply existsb_exists in H3.
        destruct H3 as [d [Hd Hx]]. apply Nat.eqb_eq in Hx.
        repeat split; auto. exists d. split; [ | exact Hx ].
        unfold range in Hd. apply in_seq in Hd. lia.
      - vm_compute; reflexivity. }
    rewrite Forall_forall in Hall. exact (Hall (i, j) Hin).
  - intros [Hij [Hj [d [Hd Hx]]]].
    assert (Hall : forallb
                     (fun a => forallb
                                 (fun b => negb ((a <? b) &&
                                                 existsb (fun d => Nat.lxor a b =? 2 ^ d)
                                                         (range 0 4))
                                           || existsb (edge_eqb (a, b)) es)
                                 (range 0 16))
                     (range 0 16) = true) by (vm_compute; reflexivity).
    rewrite forallb_forall in Hall.
    assert (Hi : In i (range 0 16)) by (unfold range; apply in_seq; lia).
    assert (Hj' : In j (range 0 16)) by (unfold range; apply in_seq; lia).
    specialize (Hall i Hi). rewrite forallb_forall in Hall.
    specialize (Hall j Hj'). apply orb_true_iff in Hall.
    destruct Hall as [Hno | Hyes].
    + apply negb_true_iff in Hno. apply andb_false_iff in Hno.
      destruct Hno as [Hlt | Hex].
      * apply Nat.ltb_ge in Hlt. lia.
      * assert (Hex' : existsb (fun d => Nat.lxor i j =? 2 ^ d) (range 0 4) = true).
        { apply existsb_exists. exists d. split.
          - unfold range. apply in_seq. lia.
          - now apply Nat.eqb_eq. }
        congruence.
    + apply existsb_exists in Hyes. destruct Hyes as [e [He Heq]].
      unfold edge_eqb in Heq. simpl in Heq. apply andb_true_iff in Heq.
      destruct Heq as [H1 H2]. apply Nat.eqb_eq in H1, H2.
      destruct e as [a b]. simpl in H1, H2. subst. exact He.
Qed.

(** ** Rotation and projection of the tesseract *)

(** [rotate4D] keeps the norm for every plane argument, named or not. *)
Lemma rotate4D_norm_any (v : Sketch.Vec4) (plane : string) (t : R) :
  Sketch.norm4 (Sketch.rotate4D v plane t) = Sketch.norm4 v.
Proof.
  destruct v as [[[a b] c] d]. unfold Sketch.rotate4D.
  pose proof (planar_rotation_squares a b t).
  pose proof (planar_rotation_squares a c t).
  pose proof (planar_rotation_squares a d t).
  pose proof (planar_rotation_squares b c t).
  pose proof (planar_rotation_squares b d t).
  pose proof (planar_rotation_squares c d t).
  repeat match goal with
         | |- context [String.eqb plane ?s] => destruct (String.eqb plane s)
         end;
    unfold Sketch.norm4; f_equal; lra.
Qed.

Lemma rotate_all_norm (angle : Sketch.Angles) (v : Sketch.Vec4) :
  Sketch.norm4 (Sketch.rotate_all angle v) = Sketch.norm4 v.
Proof. unfold Sketch.rotate_all. now rewrite !rotate4D_norm_any. Qed.

(** Every vertex of the tesseract is a 4-array over {-1, +1}. *)
Lemma vertex_coordinates (prev : Sketch.Topology) (v : list Z) :
  In v (Sketch.verts4D (Sketch.initTesseract prev)) ->
  exists a b c d,
    v = [a; b; c; d] /\
    (a = (-1)%Z \/ a = 1%Z) /\ (b = (-1)%Z \/ b = 1%Z) /\
    (c = (-1)%Z \/ c = 1%Z) /\ (d = (-1)%Z \/ d = 1%Z).
Proof.
  intro Hin.
  change (Sketch.initTesseract prev)
    with (Sketch.initTesseract (Sketch.mkTopology [] [])) in Hin.
  vm_compute in Hin.
  repeat (destruct Hin as [<- | Hin];
          [ do 4 eexists; split; [ reflexivity | tauto ] | ]).
  contradiction.
Qed.

Lemma vertex_norm (prev : Sketch.Topology) (v : list Z) :
  In v (Sketch.verts4D (Sketch.initTesseract prev)) ->
  Sketch.norm4 (Sketch.slice v) = 2%R.
Proof.
  intro Hin.
  destruct (vertex_coordinates prev v Hin) as [a [b [c [d [-> [Ha [Hb [Hc Hd]]]]]]]].
  unfold Sketch.slice, Sketch.norm4. simpl.
  assert (Hsq : forall z : Z, z = (-1)%Z \/ z = 1%Z -> (IZR z * IZR z = 1)%R).
  { intros z [-> | ->]; simpl; lra. }
  rewrite (Hsq a Ha), (Hsq b Hb), (Hsq c Hc), (Hsq d Hd).
  replace (1 + 1 + 1 + 1)%R with (2 * 2)%R by ring.
  apply sqrt_square. lra.
Qed.

Lemma norm4_components (v : Sketch.Vec4) (r : R) :
  (0 <= r)%R -> Sketch.norm4 v = r ->
  forall k, (- r <= Sketch.component k v <= r)%R.
Proof.
  intros Hr Hn k. destruct v as [[[a b] c] d]. unfold Sketch.norm4 in Hn.
  assert (Hs : (a * a + b * b + c * c + d * d = r * r)%R).
  { rewrite <- Hn. rewrite sqrt_sqrt; [ reflexivity | nra ]. }
  destruct k as [| [| [| k]]]; simpl; split; nra.
Qed.

Lemma rotated_vertex_norm (prev : Sketch.Topology) (angle : Sketch.Angles)
    (p : Sketch.Vec4) :
  In p (Sketch.rotated angle (Sketch.verts4D (Sketch.initTesseract prev))) ->
  Sketch.norm4 p = 2%R.
Proof.
  unfold Sketch.rotated. intro Hin.
  apply in_map_iff in Hin. destruct Hin as [v [<- Hv]].
  rewrite rotate_all_norm. now apply (vertex_norm prev).
Qed.

(** X2. Whatever the six angles are, the rotation pipeline of [draw] maps
    the 16 vertices of the tesseract to 16 points of Euclidean norm 2, so
    every coordinate of a rotated vertex, [w] in particular, lies in
    [-2, 2]. *)
Theorem rotated_vertices_on_sphere :
  forall (prev : Sketch.Topology) (angle : Sketch.Angles),
    let pts := Sketch.rotated angle (Sketch.verts4D (Sketch.initTesseract prev)) in
    List.length pts = 16 /\
    forall p, In p pts ->
      Sketch.norm4 p = 2%R /\
      forall k, (-2 <= Sketch.component k p <= 2)%R.
Proof.
  intros prev angle pts. subst pts. split.
  - unfold Sketch.rotated. rewrite length_map. reflexivity.
  - intros p Hin.
    pose proof (rotated_vertex_norm prev angle p Hin) as Hn.
    split; [ exact Hn | ].
    apply norm4_components; [ lra | exact Hn ].
Qed.

(** The depth perspective of [project4Dto2D] stays in its target range for
    [w] in [-2, 2]. *)
Lemma wPerspective_range (p3 : R) :
  (-2 <= p3 <= 2)%R ->
  (3 / 10 <= Sketch.P5.map p3 (-2) 2 (14 / 10) (3 / 10) false <= 14 / 10)%R.
Proof.
  intros [Hlo Hhi]. cbv [Sketch.P5.map negb].
  replace ((p3 - -2) / (2 - -2) * (3 / 10 - 14 / 10) + 14 / 10)%R
    with (14 / 10 - (11 / 40) * (p3 + 2))%R by field.
  lra.
Qed.

(** The camera distance of [project4Dto2D] for a pointer inside the canvas. *)
Lemma camZ_range (mouseY height : R) :
  (0 < height)%R -> (0 <= mouseY <= height)%R ->
  (900 <= Sketch.P5.map mouseY 0 height 900 2200 false <= 2200)%R.
Proof.
  intros Hh [Hlo Hhi]. cbv [Sketch.P5.map negb].
  assert (H0 : (0 <= (mouseY - 0) / (height - 0))%R).
  { apply Rmult_le_pos; [ lra | ]. left. apply Rinv_0_lt_compat. lra. }
  assert (H1 : ((mouseY - 0) / (height - 0) <= 1)%R).
  { apply Rmult_le_reg_r with (r := (height - 0)%R); [ lra | ].
    unfold Rdiv. rewrite Rmult_assoc, Rinv_l by lra. lra. }
  lra.
Qed.

(** X3. On a canvas whose smaller side is at most 4000 pixels and with the
    pointer inside it, [project4Dto2D] never divides by zero on a rotated
    vertex: the retained [w] is in [-2, 2], the depth [z3] is within 896 of
    zero, the camera distance is in [900, 2200], and so the divisor
    [camZ - z3] is at least 4. *)
Theorem projection_divisor_positive :
  forall (prev : Sketch.Topology) (angle : Sketch.Angles)
         (width height mouseY : R) (p : Sketch.Vec4),
    (0 < width)%R -> (0 < height)%R ->
    (Rmin width height <= 4000)%R ->
    (0 <= mouseY <= height)%R ->
    In p (Sketch.rotated angle (Sketch.verts4D (Sketch.initTesseract prev))) ->
    let pt := Sketch.project4Dto2D width height mouseY p in
    let camZ := Sketch.P5.map mouseY 0 height 900 2200 false in
    Sketch.w pt = Sketch.component 3 p /\
    (-2 <= Sketch.w pt <= 2)%R /\
    (-896 <= Sketch.depth pt <= 896)%R /\
    (900 <= camZ <= 2200)%R /\
    (4 <= camZ - Sketch.depth pt)%R.
Proof.
  intros prev angle width height mouseY p Hw Hh Hmin Hm Hin pt camZ.
  pose proof (rotated_vertex_norm prev angle p Hin) as Hn.
  assert (Hc : forall k, (-2 <= Sketch.component k p <= 2)%R)
    by (apply norm4_components; [ lra | exact Hn ]).
  pose proof (Hc 2%nat) as H2. pose proof (Hc 3%nat) as H3.
  destruct p as [[[p0 p1] p2] p3]. simpl in H2, H3.
  pose proof (wPerspective_range p3 H3) as HwP.
  pose proof (camZ_range mouseY height Hh Hm) as Hcam.
  subst pt camZ. unfold Sketch.project4Dto2D. simpl.
  set (wP := Sketch.P5.map p3 (-2) 2 (14 / 10) (3 / 10) false) in *.
  set (cz := Sketch.P5.map mouseY 0 height 900 2200 false) in *.
  assert (Hs : (0 <= Rmin width height * (16 / 100) <= 640)%R).
  { assert (0 < Rmin width height)%R by (apply Rmin_glb_lt; assumption). lra. }
  set (s := (Rmin width height * (16 / 100))%R) in *.
  assert (Ha : (0 <= s * wP <= 896)%R) by (split; nra).
  assert (Hz : (-896 <= p2 * s * wP * (5 / 10) <= 896)%R).
  { rewrite (Rmult_assoc p2 s wP). set (a := (s * wP)%R) in *. split; nra. }
  repeat split; lra.
Qed.

Lemma projection_divisor_positive_witness :
  (0 < 800)%R /\ (0 < 600)%R /\ (Rmin 800 600 <= 4000)%R /\
  (0 <= 300 <= 600)%R /\
  (4 <= Sketch.P5.map 300 0 600 900 2200 false
        - Sketch.depth (Sketch.project4Dto2D 800 600 300 first_vertex_at_rest))%R.
Proof.
  assert (H1 : (0 < 800)%R) by lra.
  assert (H2 : (0 < 600)%R) by lra.
  assert (H3 : (Rmin 800 600 <= 4000)%R)
    by (unfold Rmin; destruct (Rle_dec 800 600); lra).
  assert (H4 : (0 <= 300 <= 600)%R) by lra.
  assert (H5 : In first_vertex_at_rest
                  (Sketch.rotated angles_at_rest
                     (Sketch.verts4D (Sketch.initTesseract (Sketch.mkTopology [] []))))).
  { unfold first_vertex_at_rest, Sketch.rotated.
    apply (in_map (fun v => Sketch.rotate_all angles_at_rest (Sketch.slice v))).
    vm_compute. left. reflexivity. }
  repeat (split; [ assumption | ]).
  exact (proj2 (proj2 (proj2 (proj2
           (projection_divisor_positive (Sketch.mkTopology [] []) angles_at_rest
              800 600 300 first_vertex_at_rest H1 H2 H3 H4 H5))))).
Defined.

Lemma edges_are_single_bit_flips_witness :
  In (5, 7) (Sketch.edges (Sketch.initTesseract (Sketch.mkTopology [] []))).
Proof.
  apply (proj2 (edges_are_single_bit_flips (Sketch.mkTopology [] []) 5 7)).
  split; [ lia | ]. split; [ lia | ].
  exists 1. split; [ lia | reflexivity ].
Defined.

Lemma rotated_vertices_on_sphere_witness :
  Sketch.norm4 first_vertex_at_rest = 2%R.
Proof.
  apply (proj2 (rotated_vertices_on_sphere (Sketch.mkTopology [] []) angles_at_rest)).
  unfold first_vertex_at_rest, Sketch.rotated.
  apply (in_map (fun v => Sketch.rotate_all angles_at_rest (Sketch.slice v))).
  vm_compute. left. reflexivity.
Defined.

(** ** The frame of the real pipeline *)

Lemma at_index_projected (width height mouseY : R) (angle : Sketch.Angles)
    (verts : list (list Z)) (i : nat) :
  i < List.length verts ->
  exists pt,
    Sketch.at_index (Sketch.points2D_of width height mouseY angle verts) i = Some pt.
Proof.
  intro Hi. unfold Sketch.at_index, Sketch.points2D_of, Sketch.rotated.
  rewrite map_map.
  destruct (nth_error verts i) as [v |] eqn:Ev.
  - rewrite (map_nth_error _ _ _ Ev). eauto.
  - apply nth_error_None in Ev. lia.
Qed.

Lemma defined_all (es : list (nat * nat)) (points2D : list Sketch.jspoint) :
  Forall (fun e => (exists a, Sketch.at_index points2D (fst e) = Some a) /\
                   (exists b, Sketch.at_index points2D (snd e) = Some b)) es ->
  List.length (Sketch.defined_segments es points2D) = List.length es /\
  List.length (Sketch.defined_lines es points2D) = List.length es.
Proof.
  induction 1 as [| e es [[a Ha] [b Hb]] _ [IH1 IH2]]; [ split; reflexivity | ].
  unfold Sketch.defined_segments, Sketch.defined_lines in *. simpl.
  rewrite Ha, Hb. simpl. split; congruence.
Qed.

(** X4. With the points that [draw] really computes (16 rotated and
    projected vertices, all defined), no edge is ever skipped: the frame
    that [serializeFrame] stores has exactly 32 segments and the edge loop
    draws exactly 32 lines, for every canvas size, pointer position and set
    of angles. *)
Theorem real_frame_has_32_segments :
  forall (prev : Sketch.Topology) (angle : Sketch.Angles)
         (width height mouseY : R),
    let t := Sketch.initTesseract prev in
    let points2D :=
      Sketch.points2D_of width height mouseY angle (Sketch.verts4D t) in
    List.length points2D = 16 /\
    Forall (fun a => a <> None) points2D /\
    exists frame calls,
      Sketch.serializeFrame (Sketch.edges t) points2D = Sketch.Ok frame /\
      List.length frame = 32 /\
      Sketch.draw_edges (Sketch.edges t) points2D [] = Sketch.Ok calls /\
      List.length calls = 32.
Proof.
  intros prev angle width height mouseY t points2D.
  split; [ subst points2D; unfold Sketch.points2D_of, Sketch.rotated;
           rewrite !length_map; reflexivity | ].
  split.
  { subst points2D. unfold Sketch.points2D_of. apply Forall_forall.
    intros a Ha. apply in_map_iff in Ha. destruct Ha as [p [<- _]]. discriminate. }
  assert (Hes : Forall (fun e => (exists a, Sketch.at_index points2D (fst e) = Some a) /\
                                 (exists b, Sketch.at_index points2D (snd e) = Some b))
                       (Sketch.edges t)).
  { assert (Hb : Forall (fun e => fst e < 16 /\ snd e < 16) (Sketch.edges t)).
    { apply (forallb_Forall (fun e => (fst e <? 16) && (snd e <? 16))).
      - intros e He. apply andb_true_iff in He. destruct He as [H1 H2].
        apply Nat.ltb_lt in H1, H2. auto.
      - vm_compute; reflexivity. }
    eapply Forall_impl; [ | exact Hb ].
    intros e [H1 H2]. subst points2D.
    split; apply at_index_projected; exact H1 || exact H2. }
  destruct (defined_all _ _ Hes) as [Hs Hl].
  exists (Sketch.defined_segments (Sketch.edges t) points2D),
         (Sketch.defined_lines (Sketch.edges t) points2D).
  split; [ apply (serializeFrame_loop_defined _ _ []) | ].
  split; [ rewrite Hs; reflexivity | ].
  split; [ apply (draw_edges_defined _ _ []) | rewrite Hl; reflexivity ].
Qed.

(** ** Velocity-driven styling *)

(** The six-argument [map] from the source range [0, top] onto an
    increasing target range: constant below and above, linear between. *)
Lemma map_clamped_cases (n top a b : R) :
  (0 < top)%R -> (a < b)%R ->
  let m := Sketch.P5.map n 0 top a b true in
  (a <= m <= b)%R /\
  (n <= 0 -> m = a)%R /\
  (top <= n -> m = b)%R /\
  (0 <= n <= top -> m = a + n / top * (b - a))%R.
Proof.
  intros Htop Hab m. subst m. cbv [Sketch.P5.map negb].
  destruct (Rlt_dec a b) as [_ | Hn]; [ | exfalso; lra ].
  replace ((n - 0) / (top - 0) * (b - a) + a)%R
    with (a + n / top * (b - a))%R by (field; lra).
  assert (Hq : forall x, (0 <= x -> 0 <= x / top)%R).
  { intros x Hx. apply Rmult_le_pos; [ exact Hx | ].
    left. now apply Rinv_0_lt_compat. }
  assert (Hq1 : (top <= n -> 1 <= n / top)%R).
  { intro H. apply Rmult_le_reg_r with (r := top); [ exact Htop | ].
    unfold Rdiv. rewrite Rmult_assoc, Rinv_l by lra. lra. }
  assert (Hq2 : (n <= top -> n / top <= 1)%R).
  { intro H. apply Rmult_le_reg_r with (r := top); [ exact Htop | ].
    unfold Rdiv. rewrite Rmult_assoc, Rinv_l by lra. lra. }
  assert (Hq3 : (n <= 0 -> n / top <= 0)%R).
  { intro H. replace (n / top)%R with (- ((- n) / top))%R by (field; lra).
    pose proof (Hq (- n)%R). lra. }
  unfold Sketch.P5.constrain, Rmax, Rmin.
  repeat split; intros;
    repeat destruct (Rle_dec _ _);
    try pose proof (Hq n); try nra.
Qed.

Lemma map_clamped_monotone (n n' top a b : R) :
  (0 < top)%R -> (a < b)%R -> (n <= n')%R ->
  (Sketch.P5.map n 0 top a b true <= Sketch.P5.map n' 0 top a b true)%R.
Proof.
  intros Htop Hab Hnn'. cbv [Sketch.P5.map negb].
  destruct (Rlt_dec a b) as [_ | Hn]; [ | exfalso; lra ].
  assert (Hlin : ((n - 0) / (top - 0) * (b - a) + a
                  <= (n' - 0) / (top - 0) * (b - a) + a)%R).
  { assert (Hi : (0 < / (top - 0))%R) by (apply Rinv_0_lt_compat; lra).
    assert (Hq : ((n - 0) / (top - 0) <= (n' - 0) / (top - 0))%R)
      by (unfold Rdiv; nra).
    nra. }
  unfold Sketch.P5.constrain, Rmax, Rmin.
  repeat destruct (Rle_dec _ _); lra.
Qed.

(** X5. The two velocity-driven styles of a frame are clamped and grow
    with the velocity: the stroke weight of the current edges stays in
    [0.5, 2.6] and the diameter of the HUD ring in [30, 180]; both are at
    their minimum for a velocity of 0 or less, at their maximum from a
    velocity of 8 on, and never decrease when the velocity increases. *)
Theorem velocity_styles_clamped :
  forall velocity faster : R,
    (5 / 10 <= Sketch.edge_strokeWeight velocity <= 26 / 10)%R /\
    (30 <= Sketch.drawHUD velocity <= 180)%R /\
    (velocity <= 0 ->
     Sketch.edge_strokeWeight velocity = 5 / 10 /\ Sketch.drawHUD velocity = 30)%R /\
    (8 <= velocity ->
     Sketch.edge_strokeWeight velocity = 26 / 10 /\ Sketch.drawHUD velocity = 180)%R /\
    (0 <= velocity <= 8 ->
     Sketch.drawHUD velocity = 30 + velocity * (150 / 8))%R /\
    (velocity <= faster ->
     Sketch.edge_strokeWeight velocity <= Sketch.edge_strokeWeight faster /\
     Sketch.drawHUD velocity <= Sketch.drawHUD faster)%R.
Proof.
  intros velocity faster. unfold Sketch.edge_strokeWeight, Sketch.drawHUD.
  assert (H8 : (0 < 8)%R) by lra.
  assert (Hsw : (5 / 10 < 26 / 10)%R) by lra.
  assert (Hd : (30 < 180)%R) by lra.
  destruct (map_clamped_cases velocity 8 (5 / 10) (26 / 10) H8 Hsw)
    as [Hs1 [Hs2 [Hs3 Hs4]]].
  destruct (map_clamped_cases velocity 8 30 180 H8 Hd) as [Hh1 [Hh2 [Hh3 Hh4]]].
  split; [ exact Hs1 | ]. split; [ exact Hh1 | ].
  split; [ intro H; split; [ now apply Hs2 | now apply Hh2 ] | ].
  split; [ intro H; split; [ now apply Hs3 | now apply Hh3 ] | ].
  split; [ intro H; rewrite (Hh4 H); field | ].
  intro H. split; apply map_clamped_monotone; assumption.
Qed.

Lemma velocity_styles_clamped_witness :
  Sketch.drawHUD 4 = 105%R.
Proof.
  destruct (velocity_styles_clamped 4 4) as [_ [_ [_ [_ [H _]]]]].
  rewrite H by lra. field.
Defined.

(** ** Pointer velocity and bursts *)

(** X6. The velocity of a frame is never negative and never more than the
    distance the pointer moved since the previous frame (the divisor is at
    least 1); a pointer that did not move has velocity 0.  The frame stores
    the pointer position and that velocity for the next one. *)
Theorem velocity_bounded_by_displacement :
  forall (mx my deltaTime : R) (m : Sketch.Motion),
    let d := Sketch.P5.dist mx my (Sketch.lastMouseX m) (Sketch.lastMouseY m) in
    let v := Sketch.velocity_of mx my deltaTime m in
    (0 <= v <= d)%R /\
    (mx = Sketch.lastMouseX m -> my = Sketch.lastMouseY m -> v = 0%R) /\
    Sketch.lastVel (fst (Sketch.motion_step mx my deltaTime m)) = v /\
    Sketch.lastMouseX (fst (Sketch.motion_step mx my deltaTime m)) = mx /\
    Sketch.lastMouseY (fst (Sketch.motion_step mx my deltaTime m)) = my.
Proof.
  intros mx my deltaTime m d v. subst v. unfold Sketch.velocity_of. fold d.
  assert (Hd : (0 <= d)%R) by apply dist_nonneg.
  set (k := Rmax 1 (Sketch.deltaTime_or_16 deltaTime)).
  assert (Hk : (1 <= k)%R) by apply Rmax_l.
  assert (Hi : (0 < / k <= 1)%R).
  { split; [ apply Rinv_0_lt_compat; lra | ].
    rewrite <- Rinv_1. apply Rinv_le_contravar; lra. }
  split; [ unfold Rdiv; split; nra | ].
  split.
  - intros -> ->. subst d. unfold Sketch.P5.dist.
    replace ((Sketch.lastMouseX m - Sketch.lastMouseX m) *
             (Sketch.lastMouseX m - Sketch.lastMouseX m) +
             (Sketch.lastMouseY m - Sketch.lastMouseY m) *
             (Sketch.lastMouseY m - Sketch.lastMouseY m))%R with 0%R by ring.
    rewrite sqrt_0. unfold Rdiv. ring.
  - repeat split.
Qed.

Lemma velocity_bounded_by_displacement_witness :
  Sketch.velocity_of 3 4 16 (Sketch.mkMotion 3 4 7 0) = 0%R.
Proof.
  exact (proj1 (proj2 (velocity_bounded_by_displacement 3 4 16
                         (Sketch.mkMotion 3 4 7 0))) eq_refl eq_refl).
Defined.

(** While the cooldown is positive no frame fires a burst. *)
Lemma bursts_quiet_while_cooling :
  forall (inputs : list (R * R * R)) (m : Sketch.Motion),
    Forall (fun fired => fired = false)
           (firstn (Z.to_nat (Sketch.burstCooldown m)) (Sketch.bursts inputs m)).
Proof.
  induction inputs as [| [[mx my] dt] inputs IH]; intro m.
  - simpl. rewrite firstn_nil. constructor.
  - destruct (Z.to_nat (Sketch.burstCooldown m)) as [| n] eqn:En;
      [ constructor | ].
    assert (Hpos : (0 < Sketch.burstCooldown m)%Z) by lia.
    simpl. unfold Sketch.burst_due.
    destruct (Z.leb_spec (Sketch.burstCooldown m) 0) as [Hle | _]; [ lia | ].
    rewrite andb_false_r.
    destruct (Z.ltb_spec 0 (Sketch.burstCooldown m)) as [_ | Hge]; [ | lia ].
    simpl. constructor; [ reflexivity | ].
    specialize (IH (Sketch.mkMotion mx my (Sketch.velocity_of mx my dt m)
                      (Sketch.burstCooldown m - 1))).
    simpl in IH. replace (Z.to_nat (Sketch.burstCooldown m - 1)) with n in IH by lia.
    exact IH.
Qed.

(** X7. A frame that fires a burst leaves the cooldown at 11, and none of
    the next 11 frames can fire, however the pointer moves: two bursts are
    at least 12 frames apart.  A frame fires only when the cooldown has run
    out, and a cooldown within 0..11 stays within 0..11. *)
Theorem bursts_twelve_frames_apart :
  forall (mx my deltaTime : R) (m : Sketch.Motion) (inputs : list (R * R * R)),
    let m' := fst (Sketch.motion_step mx my deltaTime m) in
    let fired := snd (Sketch.motion_step mx my deltaTime m) in
    (fired = true ->
     (Sketch.burstCooldown m <= 0)%Z /\
     Sketch.burstCooldown m' = 11%Z /\
     Forall (fun f => f = false) (firstn 11 (Sketch.bursts inputs m'))) /\
    (fired = false ->
     Sketch.burstCooldown m' =
       (if (0 <? Sketch.burstCooldown m)%Z
        then Sketch.burstCooldown m - 1 else Sketch.burstCooldown m)%Z) /\
    ((0 <= Sketch.burstCooldown m <= 11)%Z ->
     (0 <= Sketch.burstCooldown m' <= 11)%Z).
Proof.
  intros mx my deltaTime m inputs m' fired. subst m' fired.
  unfold Sketch.motion_step. cbv zeta.
  set (due := Sketch.burst_due _ _). simpl.
  assert (Hdue : due = true -> (Sketch.burstCooldown m <= 0)%Z).
  { subst due. unfold Sketch.burst_due. intro H.
    apply andb_true_iff in H. destruct H as [_ H]. now apply Z.leb_le. }
  split.
  - intro H. specialize (Hdue H). rewrite H. simpl.
    split; [ exact Hdue | ]. split; [ reflexivity | ].
    exact (bursts_quiet_while_cooling inputs
             (Sketch.mkMotion mx my (Sketch.velocity_of mx my deltaTime m) 11)).
  - split.
    + intro H. rewrite H. reflexivity.
    + intro Hb. destruct due; simpl; [ lia | ].
      destruct (Z.ltb_spec 0 (Sketch.burstCooldown m)); lia.
Qed.

Lemma bursts_twelve_frames_apart_witness :
  snd (Sketch.motion_step 100 0 16 (Sketch.mkMotion 0 0 0 0)) = true /\
  Sketch.burstCooldown
    (fst (Sketch.motion_step 100 0 16 (Sketch.mkMotion 0 0 0 0))) = 11%Z.
Proof.
  assert (Hfired : snd (Sketch.motion_step 100 0 16 (Sketch.mkMotion 0 0 0 0)) = true).
  { unfold Sketch.motion_step, Sketch.burst_due, Sketch.velocity_of,
      Sketch.deltaTime_or_16. simpl.
    rewrite dist_horizontal by lra.
    destruct (Req_dec_T 16 0) as [E | _]; [ lra | ].
    rewrite Rmax_right by lra.
    destruct (Rgt_dec (Rabs (100 / 16 - 0)) (8 / 10)) as [_ | Hn]; [ reflexivity | ].
    exfalso. apply Hn. rewrite Rabs_right; lra. }
  split; [ exact Hfired | ].
  exact (proj1 (proj2 (proj1 (bursts_twelve_frames_apart 100 0 16
                                (Sketch.mkMotion 0 0 0 0) []) Hfired))).
Defined.

Lemma Int_part_bounds (x : R) (lo hi : Z) :
  (IZR lo <= x <= IZR hi)%R -> (lo <= Int_part x <= hi)%Z.
Proof.
  intros [Hlo Hhi]. destruct (base_Int_part x) as [H1 H2]. split.
  - assert (H : (IZR (lo - 1) < IZR (Int_part x))%R)
      by (rewrite minus_IZR; lra).
    apply lt_IZR in H. lia.
  - apply le_IZR. lra.
Qed.

Lemma Int_part_monotone (x y : R) : (x <= y)%R -> (Int_part x <= Int_part y)%Z.
Proof.
  intro Hxy. destruct (base_Int_part x) as [H1 _].
  destruct (base_Int_part y) as [_ H2].
  assert (H : (IZR (Int_part x) < IZR (Int_part y + 1))%R)
    by (rewrite plus_IZR; lra).
  apply lt_IZR in H. lia.
Qed.

(** X8. [createBurst] always emits between 10 and 40 shards, whatever the
    intensity (negative or huge included), and a higher intensity never
    gives fewer shards. *)
Theorem burst_count_bounds :
  forall intensity higher : R,
    (10 <= Sketch.burst_count intensity <= 40)%Z /\
    ((intensity <= higher)%R ->
     (Sketch.burst_count intensity <= Sketch.burst_count higher)%Z).
Proof.
  intros intensity higher. unfold Sketch.burst_count.
  assert (H12 : (0 < 12)%R) by lra.
  assert (Hab : (10 < 40)%R) by lra.
  split.
  - apply Int_part_bounds.
    destruct (map_clamped_cases intensity 12 10 40 H12 Hab) as [H _]. exact H.
  - intro H. apply Int_part_monotone. now apply map_clamped_monotone.
Qed.

Lemma burst_count_bounds_witness :
  (Sketch.burst_count 0 <= Sketch.burst_count 12)%Z.
Proof.
  apply (proj2 (burst_count_bounds 0 12)). lra.
Defined.

(** ** The shimmer *)

Lemma shimmer_shape_defined :
  forall (points2D : list Sketch.jspoint) (vs : list Sketch.Point2),
    Forall (fun a => a <> None) points2D ->
    exists shape,
      Sketch.shimmer_shape points2D vs = Sketch.Ok (vs ++ shape) /\
      List.length shape = List.length points2D.
Proof.
  induction points2D as [| a rest IH]; intros vs Hall; simpl.
  - exists []. now rewrite app_nil_r.
  - inversion Hall as [| ? ? Ha Hrest]; subst.
    destruct a as [pt |]; [ | congruence ]. simpl.
    destruct (IH (vs ++ [Sketch.mkPoint2 (Sketch.x pt) (Sketch.y pt)]) Hrest)
      as [shape [-> Hlen]].
    exists (Sketch.mkPoint2 (Sketch.x pt) (Sketch.y pt) :: shape).
    rewrite <- app_assoc. simpl. auto.
Qed.

Lemma shimmer_shape_undefined :
  forall (points2D : list Sketch.jspoint) (vs : list Sketch.Point2),
    In None points2D ->
    Sketch.shimmer_shape points2D vs = Sketch.TypeError.
Proof.
  induction points2D as [| a rest IH]; intros vs Hin; [ contradiction | ].
  simpl. destruct a as [pt |]; [ | reflexivity ]. simpl.
  apply IH. destruct Hin as [H | H]; [ discriminate | exact H ].
Qed.

Lemma shimmer_loop_defined :
  forall (n : nat) (points2D : list Sketch.jspoint)
         (shapes : list (list Sketch.Point2)),
    Forall (fun a => a <> None) points2D ->
    exists more,
      Sketch.shimmer_loop n points2D shapes = Sketch.Ok (shapes ++ more) /\
      List.length more = n /\
      Forall (fun shape => List.length shape = List.length points2D) more.
Proof.
  induction n as [| n IH]; intros points2D shapes Hall; simpl.
  - exists []. rewrite app_nil_r. auto.
  - destruct (shimmer_shape_defined points2D [] Hall) as [shape [-> Hlen]].
    simpl.
    destruct (IH points2D (shapes ++ [shape]) Hall) as [more [-> [Hn Hf]]].
    exists (shape :: more). rewrite <- app_assoc. simpl. auto.
Qed.



(** ** The ghost layers *)

Lemma history_layer_closed_form (hist : list Sketch.TrailFrame) (i : nat) :
  2 <= List.length hist -> i < List.length hist ->
  let u := (INR i / (INR (List.length hist) - 1))%R in
  (0 <= u <= 1)%R /\
  Sketch.layer_alpha (Sketch.history_layer hist i) = ((6 + 154 * u) * (75 / 100))%R /\
  Sketch.layer_weight (Sketch.history_layer hist i) = (2 / 10 + (14 / 10) * u)%R.
Proof.
  intros Hlen Hi u.
  set (n := List.length hist) in *.
  assert (Hn : (2 <= INR n)%R) by (change 2%R with (INR 2); now apply le_INR).
  assert (HiR : (0 <= INR i <= INR n - 1)%R).
  { split; [ apply pos_INR | ].
    replace (INR n - 1)%R with (INR (n - 1)) by (rewrite minus_INR by lia; reflexivity).
    apply le_INR. lia. }
  assert (Hage : INR (n - 1 - i) = (INR n - 1 - INR i)%R).
  { rewrite minus_INR by lia. rewrite minus_INR by lia. reflexivity. }
  assert (Hu : (0 <= u <= 1)%R).
  { subst u. split.
    - apply Rmult_le_pos; [ lra | ]. left. apply Rinv_0_lt_compat. lra.
    - apply Rmult_le_reg_r with (r := (INR n - 1)%R); [ lra | ].
      unfold Rdiv. rewrite Rmult_assoc, Rinv_l by lra. lra. }
  split; [ exact Hu | ].
  unfold Sketch.history_layer. fold n. cbv [Sketch.P5.map negb]. simpl.
  rewrite Hage. subst u. split; field; lra.
Qed.

(** X10. For a history of at least two frames [drawHistoryLines] draws one
    layer per stored frame, in order, with the lines of that frame.  The
    alpha passed to [stroke] rises strictly with the position from 4.5 for
    the oldest frame to 120 for the newest, and the stroke weight from 0.2
    to 1.6: an older frame is always fainter and thinner than a newer
    one. *)
Theorem history_layers_fade_with_age :
  forall (hist : list Sketch.TrailFrame) (i j : nat),
    2 <= List.length hist ->
    i < j -> j < List.length hist ->
    let layers := Sketch.drawHistoryLines hist in
    let older := Sketch.history_layer hist i in
    let newer := Sketch.history_layer hist j in
    List.length layers = List.length hist /\
    nth_error layers i = Some older /\
    nth_error layers j = Some newer /\
    Sketch.layer_lines older = Sketch.frame_lines (nth i hist []) /\
    (Sketch.layer_alpha older < Sketch.layer_alpha newer)%R /\
    (Sketch.layer_weight older < Sketch.layer_weight newer)%R /\
    (45 / 10 <= Sketch.layer_alpha older)%R /\
    (Sketch.layer_alpha newer <= 120)%R /\
    (2 / 10 <= Sketch.layer_weight older)%R /\
    (Sketch.layer_weight newer <= 16 / 10)%R /\
    Sketch.layer_alpha (Sketch.history_layer hist 0) = (45 / 10)%R /\
    Sketch.layer_weight (Sketch.history_layer hist 0) = (2 / 10)%R /\
    Sketch.layer_alpha (Sketch.history_layer hist (List.length hist - 1)) = 120%R /\
    Sketch.layer_weight (Sketch.history_layer hist (List.length hist - 1))
      = (16 / 10)%R.
Proof.
  intros hist i j Hlen Hij Hj layers older newer.
  assert (Hnth : forall k, k < List.length hist ->
                   nth_error layers k = Some (Sketch.history_layer hist k)).
  { intros k Hk. subst layers. unfold Sketch.drawHistoryLines, range.
    rewrite Nat.sub_0_r.
    apply map_nth_error.
    rewrite nth_error_nth' with (d := 0) by (rewrite length_seq; exact Hk).
    now rewrite seq_nth. }
  assert (Hi : i < List.length hist) by lia.
  destruct (history_layer_closed_form hist i Hlen Hi) as [Hui [Hai Hwi]].
  destruct (history_layer_closed_form hist j Hlen Hj) as [Huj [Haj Hwj]].
  assert (H0 : 0 < List.length hist) by lia.
  destruct (history_layer_closed_form hist 0 Hlen H0) as [_ [Ha0 Hw0]].
  assert (Hl : List.length hist - 1 < List.length hist) by lia.
  destruct (history_layer_closed_form hist _ Hlen Hl) as [_ [Hal Hwl]].
  assert (Hn : (2 <= INR (List.length hist))%R)
    by (change 2%R with (INR 2); now apply le_INR).
  assert (Hlast : (INR (List.length hist - 1) / (INR (List.length hist) - 1) = 1)%R).
  { rewrite minus_INR by lia. simpl. field. lra. }
  assert (Hu : (INR i / (INR (List.length hist) - 1)
                < INR j / (INR (List.length hist) - 1))%R).
  { apply Rmult_lt_compat_r; [ apply Rinv_0_lt_compat; lra | ].
    now apply lt_INR. }
  cbv zeta in *. fold older in Hai, Hwi. fold newer in Haj, Hwj.
  split; [ subst layers; unfold Sketch.drawHistoryLines, range;
           now rewrite length_map, length_seq, Nat.sub_0_r | ].
  split; [ now apply Hnth | ]. split; [ now apply Hnth | ].
  split; [ reflexivity | ].
  rewrite Hai, Haj, Hwi, Hwj, Ha0, Hw0, Hal, Hwl, Hlast.
  replace (INR 0 / (INR (List.length hist) - 1))%R with 0%R
    by (simpl; unfold Rdiv; ring).
  repeat split; lra.
Qed.

Lemma history_layers_fade_with_age_witness :
  (Sketch.layer_alpha (Sketch.history_layer [[]; []; []] 0)
   < Sketch.layer_alpha (Sketch.history_layer [[]; []; []] 2))%R.
Proof.
  assert (H2 : 2 <= List.length ([[]; []; []] : list Sketch.TrailFrame))
    by (simpl; lia).
  assert (H02 : 0 < 2) by lia.
  assert (H23 : 2 < List.length ([[]; []; []] : list Sketch.TrailFrame))
    by (simpl; lia).
  exact (proj1 (proj2 (proj2 (proj2 (proj2
           (history_layers_fade_with_age [[]; []; []] 0 2 H2 H02 H23)))))).
Defined.

(** ** An undefined endpoint in a whole frame *)

(** With every pick an index of [edges], [createBurst] meets no undefined
    edge, and its guard keeps it from reading an undefined point. *)
Lemma createBurst_loop_picks :
  forall (n i : nat) (picks : nat -> Z) (es : list (nat * nat))
         (points2D : list Sketch.jspoint) (shards : list Sketch.Point2),
    (forall k, (0 <= picks k < Z.of_nat (List.length es))%Z) ->
    exists more,
      Sketch.createBurst_loop n i picks es points2D shards =
      Sketch.Ok (shards ++ more).
Proof.
  induction n as [| n IH]; intros i picks es points2D shards Hpick; simpl.
  - exists []. now rewrite app_nil_r.
  - destruct (js_get es (picks i)) as [e |] eqn:He.
    + destruct (Sketch.at_index points2D (fst e)) as [a |];
        destruct (Sketch.at_index points2D (snd e)) as [b |]; simpl;
        try apply (IH (S i) picks es points2D shards Hpick).
      destruct (IH (S i) picks es points2D
                  (shards ++ [Sketch.mkPoint2 ((Sketch.x a + Sketch.x b) / 2)
                                              ((Sketch.y a + Sketch.y b) / 2)])
                  Hpick) as [more ->].
      eexists. rewrite <- app_assoc. reflexivity.
    + exfalso. unfold js_get in He. specialize (Hpick i).
      destruct (picks i <? 0)%Z eqn:Hneg; [ apply Z.ltb_lt in Hneg; lia | ].
      apply nth_error_None in He. lia.
Qed.

(** The shimmer ends normally when every point is defined, when the pointer
    is not slow, or when no layer is due. *)
Lemma shimmer_completes :
  forall (velocity now lingerStart : R) (points2D : list Sketch.jspoint),
    Forall (fun a => a <> None) points2D \/
    ~ (velocity < 4 / 10)%R \/
    (Sketch.shimmer_layers ((now - lingerStart) / 1000) < 1)%Z ->
    exists s, Sketch.shimmer velocity now lingerStart points2D = Sketch.Ok s.
Proof.
  intros velocity now lingerStart points2D H. unfold Sketch.shimmer.
  destruct (Rlt_dec velocity (4 / 10)) as [Hslow | Hfast]; [ | eauto ].
  destruct H as [Hall | [Hfast | Hnone]]; [ | contradiction | ].
  - destruct (shimmer_loop_defined
                (Z.to_nat (Sketch.shimmer_layers ((now - lingerStart) / 1000)))
                points2D [] Hall) as [shapes [-> _]].
    simpl. eauto.
  - replace (Z.to_nat (Sketch.shimmer_layers ((now - lingerStart) / 1000)))
      with 0%nat by lia.
    simpl. eauto.
Qed.

(** An unpaused frame, step by step. *)
Lemma draw_frame_unpaused (points2D : list Sketch.jspoint)
    (mx my deltaTime now : R) (picks : nat -> Z) (st : Sketch.State)
    (m : Sketch.Motion) (lingerStart : R) :
  Sketch.paused st = false ->
  Sketch.draw_frame points2D mx my deltaTime now picks st m lingerStart =
  let velocity := Sketch.velocity_of mx my deltaTime m in
  let fired :=
    Sketch.burst_due (Rabs (velocity - Sketch.lastVel m)) (Sketch.burstCooldown m) in
  Sketch.bind
    (if fired
     then Sketch.createBurst (Sketch.edges (Sketch.topology st)) points2D velocity picks
     else Sketch.Ok [])
    (fun shards =>
       Sketch.bind (Sketch.draw points2D st)
         (fun r =>
            Sketch.bind (Sketch.shimmer velocity now lingerStart points2D)
              (fun s =>
                 Sketch.Ok
                   (Sketch.mkDrawn (fst r)
                      (fst (Sketch.motion_step mx my deltaTime m))
                      (snd s) shards (snd r) (fst s))))).
Proof.
  intro Hp. unfold Sketch.draw_frame, Sketch.motion_step. rewrite Hp.
  reflexivity.
Qed.

(** The last frame of the history after an unpaused [draw]. *)
Lemma draw_last_frame (points2D : list Sketch.jspoint) (st : Sketch.State) :
  Sketch.paused st = false ->
  let es := Sketch.edges (Sketch.topology st) in
  exists st' : Sketch.State,
    Sketch.draw points2D st = Sketch.Ok (st', Sketch.defined_lines es points2D) /\
    last (Sketch.history st') [] = Sketch.defined_segments es points2D.
Proof.
  intros Hp es.
  rewrite (draw_unpaused points2D st Hp). cbv zeta. fold es.
  eexists. split; [ reflexivity | ]. simpl.
  destruct (Sketch.HISTORY_MAX <?
            List.length (Sketch.history st ++ [Sketch.defined_segments es points2D]))
    eqn:Hfull.
  - apply Nat.ltb_lt in Hfull. rewrite length_app in Hfull.
    unfold Sketch.HISTORY_MAX in Hfull. simpl in Hfull.
    destruct (Sketch.history st) as [| f h]; simpl in *.
    + lia.
    + apply last_last.
  - apply last_last.
Qed.




(** * Further properties of src/main.js *)

#[local] Open Scope Q_scope.

(** ** easeInOutQuad *)

Lemma ltb_ge (a b : Q) : Main.ltb a b = false <-> b <= a.
Proof.
  unfold Main.ltb. rewrite negb_false_iff. apply Qle_bool_iff.
Qed.

(** X11. [easeInOutQuad] is non-decreasing on [0, 1], maps [0, 1] into
    [0, 1], and is symmetric about the midpoint:
    [easeInOutQuad(1 - t) = 1 - easeInOutQuad(t)] for every [t]. *)
Theorem easeInOutQuad_monotone :
  forall a b : Q,
    (0 <= a -> a <= b -> b <= 1 ->
     Main.easeInOutQuad a <= Main.easeInOutQuad b /\
     0 <= Main.easeInOutQuad a /\ Main.easeInOutQuad b <= 1) /\
    Main.easeInOutQuad (1 - a) == 1 - Main.easeInOutQuad a.
Proof.
  intros a b. unfold Main.easeInOutQuad. split.
  - intros H0 Hab H1.
    destruct (Main.ltb a 0.5) eqn:Ea; destruct (Main.ltb b 0.5) eqn:Eb;
      try apply ltb_lt in Ea; try apply ltb_ge in Ea;
      try apply ltb_lt in Eb; try apply ltb_ge in Eb;
      repeat split; nra.
  - destruct (Main.ltb a 0.5) eqn:Ea; destruct (Main.ltb (1 - a) 0.5) eqn:Eb;
      try apply ltb_lt in Ea; try apply ltb_ge in Ea;
      try apply ltb_lt in Eb; try apply ltb_ge in Eb;
      try ring; try lra.
    assert (Ha : a == 0.5) by lra. rewrite Ha. reflexivity.
Qed.

Lemma easeInOutQuad_monotone_witness :
  Main.easeInOutQuad 0.25 <= Main.easeInOutQuad 0.75.
Proof.
  assert (H0 : 0 <= 0.25) by discriminate.
  assert (Hab : 0.25 <= 0.75) by discriminate.
  assert (H1 : 0.75 <= 1) by discriminate.
  exact (proj1 (proj1 (easeInOutQuad_monotone 0.25 0.75) H0 Hab H1)).
Defined.

(** ** triggerFlip and updateFlips *)

(** X12. A second [triggerFlip] never re-times a flip: after any call of
    [triggerFlip] the panel is flipping, and a further call, whatever its
    clock, speed factor and axis, returns it unchanged. *)
Theorem triggerFlip_twice :
  forall (clock1 clock2 : Q) (p : Main.Panel) (speed1 speed2 : option Q)
         (axis1 axis2 : option string),
    Main.active (Main.flip (Main.triggerFlip clock1 p speed1 axis1)) = true /\
    Main.triggerFlip clock2 (Main.triggerFlip clock1 p speed1 axis1) speed2 axis2 =
    Main.triggerFlip clock1 p speed1 axis1.
Proof.
  intros clock1 clock2 p speed1 speed2 axis1 axis2.
  assert (Ha : Main.active (Main.flip (Main.triggerFlip clock1 p speed1 axis1)) = true).
  { unfold Main.triggerFlip.
    destruct (Main.active (Main.flip p)) eqn:E; [ exact E | reflexivity ]. }
  split; [ exact Ha | ].
  unfold Main.triggerFlip at 1. now rewrite Ha.
Qed.

(** X13. [updateFlips] never touches a panel that is not flipping: such a
    panel is the same object at the same index afterwards, also when a
    panel before or after it makes the call throw, and the number of panels
    never changes; when no panel is flipping nothing is rasterized. *)
Theorem updateFlips_skips_inactive :
  forall (now : Q) (ps : list Main.Panel),
    List.length (fst (fst (Main.updateFlips now ps))) = List.length ps /\
    (forall i p,
        nth_error ps i = Some p ->
        Main.active (Main.flip p) = false ->
        nth_error (fst (fst (Main.updateFlips now ps))) i = Some p) /\
    (Forall (fun p => Main.active (Main.flip p) = false) ps ->
     Main.updateFlips now ps = (ps, [], Normal)).
Proof.
  intros now ps.
  assert (Hidle : forall p, Main.active (Main.flip p) = false ->
                            Main.updateFlip now p = (p, [], Normal)).
  { intros p Hp. unfold Main.updateFlip. now rewrite Hp. }
  split; [ | split ].
  - induction ps as [| q ps IH]; [ reflexivity | ]. simpl.
    destruct (Main.updateFlip now q) as [[q' made] c].
    destruct c; [ | reflexivity ].
    destruct (Main.updateFlips now ps) as [[ps' made'] c']. simpl in *.
    now rewrite IH.
  - induction ps as [| q ps IH]; intros i p Hi Hp.
    + destruct i; discriminate.
    + simpl. destruct i as [| i]; simpl in Hi.
      * injection Hi as ->. rewrite (Hidle p Hp).
        destruct (Main.updateFlips now ps) as [[ps' made'] c']. reflexivity.
      * destruct (Main.updateFlip now q) as [[q' made] c].
        destruct c; [ | exact Hi ].
        specialize (IH i p Hi Hp).
        destruct (Main.updateFlips now ps) as [[ps' made'] c']. exact IH.
  - induction 1 as [| q ps Hq _ IH]; [ reflexivity | ].
    simpl. rewrite (Hidle q Hq), IH. reflexivity.
Qed.

Lemma updateFlips_skips_inactive_witness :
  Main.updateFlips 5000 [resting_panel; resting_panel] =
    ([resting_panel; resting_panel], [], Normal).
Proof.
  apply (proj2 (proj2 (updateFlips_skips_inactive 5000 [resting_panel; resting_panel]))).
  repeat constructor.
Defined.

(** The progress of a flip in clock terms. *)
Lemma progress_thresholds (now : Q) (p : Main.Panel) (c : Q) :
  0 < Main.duration (Main.flip p) -> 0 <= c -> c <= 1 ->
  (Main.geb (Main.progress now p) c = true <->
   Main.start (Main.flip p) + c * Main.duration (Main.flip p) <= now \/ c == 0).
Proof.
  intros Hd Hc0 Hc1. rewrite geb_ge. unfold Main.progress.
  set (e := now - Main.start (Main.flip p)).
  set (d := Main.duration (Main.flip p)) in *.
  assert (Hq : forall k, k <= e / d <-> k * d <= e).
  { intro k. split; intro H.
    - assert (E : e == e / d * d) by (field; lra).
      rewrite E. apply Qmult_le_compat_r; lra.
    - apply Qle_shift_div_l; assumption. }
  pose proof (Hq c) as Hqc. pose proof (Hq 0) as Hq0. pose proof (Hq 1) as Hq1.
  assert (He : Main.start (Main.flip p) + c * d <= now <-> c * d <= e)
    by (subst e; split; intro; lra).
  rewrite He.
  destruct (Qlt_le_dec (e / d) c) as [Hlt | Hge].
  - assert (Hn : ~ c * d <= e) by (intro H; apply Hqc in H; lra).
    split.
    + right. revert H. clamp_cases; lra.
    + intros [H | H]; [ contradiction | ]. clamp_cases; lra.
  - split; intro H; [ left; now apply Hqc | clamp_cases; lra ].
Qed.

(** X14. The timeline of a flip in clock terms.  In a panel array with
    string texts and positive durations, take a flipping panel that has not
    swapped yet.  One call of [updateFlips] ends normally and keeps the
    number of panels; it leaves that panel as it is before
    [start + duration / 2], swaps its text (rasterizing the texture of the
    next text) from there until [start + duration], and from
    [start + duration] on swaps and ends the flip in the same call.  When
    the other panels are at rest, the textures rasterized by the call are
    none in the first case and exactly that one in the other two. *)
Theorem flip_timeline :
  forall (now : Q) (ps : list Main.Panel) (i : nat) (p : Main.Panel),
    Forall wf_panel ps ->
    nth_error ps i = Some p ->
    Main.active (Main.flip p) = true ->
    Main._swapped p = false ->
    let others_at_rest :=
      forall j q, j <> i -> nth_error ps j = Some q ->
                  Main.active (Main.flip q) = false in
    exists (tex : Main.Texture) (ps' : list Main.Panel)
           (made : list Main.Texture),
      next_texture p = Some tex /\
      Main.updateFlips now ps = (ps', made, Normal) /\
      List.length ps' = List.length ps /\
      (now < Main.start (Main.flip p) + 0.5 * Main.duration (Main.flip p) ->
       nth_error ps' i = Some p /\
       (others_at_rest -> made = [])) /\
      (Main.start (Main.flip p) + 0.5 * Main.duration (Main.flip p) <= now ->
       now < Main.start (Main.flip p) + Main.duration (Main.flip p) ->
       nth_error ps' i = Some (swapped_panel p tex) /\
       In tex made /\
       (others_at_rest -> made = [tex])) /\
      (Main.start (Main.flip p) + Main.duration (Main.flip p) <= now ->
       nth_error ps' i = Some (finished_panel p tex) /\
       In tex made /\
       (others_at_rest -> made = [tex])).
Proof.
  intros now ps i p Hwf Hi Ha Hs others_at_rest.
  assert (Hp : wf_panel p)
    by (apply (proj1 (Forall_forall _ _) Hwf); eapply nth_error_In; exact Hi).
  destruct Hp as [Hne [Hall Hd]].
  destruct (next_texture_defined p Hne Hall) as [tex [Htex _]].
  destruct (updateFlips_at now ps i p Hwf Hi)
    as [ps' [made [Hup [_ [Hlen [Hnth [Hin Hmade]]]]]]].
  exists tex, ps', made.
  split; [ exact Htex | ]. split; [ exact Hup | ]. split; [ exact Hlen | ].
  rewrite (updateFlip_unswapped now p tex Ha Hs Htex) in Hnth, Hin, Hmade.
  assert (Hhalf := progress_thresholds now p 0.5 Hd ltac:(lra) ltac:(lra)).
  assert (Hone := progress_thresholds now p 1 Hd ltac:(lra) ltac:(lra)).
  split; [ | split ].
  - intro Hnow.
    assert (E : Main.geb (Main.progress now p) 0.5 = false).
    { destruct (Main.geb (Main.progress now p) 0.5); [ | reflexivity ].
      destruct (proj1 Hhalf eq_refl) as [H | H]; lra. }
    rewrite E in Hnth, Hmade. split; [ exact Hnth | exact Hmade ].
  - intros Hlo Hhi.
    assert (E1 : Main.geb (Main.progress now p) 1 = false).
    { destruct (Main.geb (Main.progress now p) 1); [ | reflexivity ].
      destruct (proj1 Hone eq_refl) as [H | H]; lra. }
    rewrite (proj2 Hhalf (or_introl Hlo)), E1 in Hnth, Hin, Hmade.
    split; [ exact Hnth | ]. split; [ apply Hin; now left | exact Hmade ].
  - intro Hnow.
    assert (Hlo : Main.start (Main.flip p) + 0.5 * Main.duration (Main.flip p) <= now)
      by lra.
    assert (Hhi : Main.start (Main.flip p) + 1 * Main.duration (Main.flip p) <= now)
      by lra.
    rewrite (proj2 Hhalf (or_introl Hlo)), (proj2 Hone (or_introl Hhi))
      in Hnth, Hin, Hmade.
    split; [ exact Hnth | ]. split; [ apply Hin; now left | exact Hmade ].
Qed.

Lemma flip_timeline_witness :
  exists (tex : Main.Texture) (ps' : list Main.Panel),
    Main.updateFlips 1350 [resting_panel; flipping_panel; resting_panel] =
      (ps', [tex], Normal) /\
    nth_error ps' 1 = Some (swapped_panel flipping_panel tex).
Proof.
  assert (Hwf : Forall wf_panel [resting_panel; flipping_panel; resting_panel]).
  { repeat (apply Forall_cons;
            [ split; [ discriminate
                     | split; [ repeat constructor; discriminate | reflexivity ] ]
            | ]).
    apply Forall_nil. }
  assert (Hi : nth_error [resting_panel; flipping_panel; resting_panel] 1
               = Some flipping_panel) by reflexivity.
  destruct (flip_timeline 1350 _ 1 flipping_panel Hwf Hi eq_refl eq_refl)
    as [tex [ps' [made [_ [Hup [_ [_ [Hmid _]]]]]]]].
  assert (Hlo : Main.start (Main.flip flipping_panel)
                + 0.5 * Main.duration (Main.flip flipping_panel) <= 1350)
    by discriminate.
  assert (Hhi : 1350 < Main.start (Main.flip flipping_panel)
                       + Main.duration (Main.flip flipping_panel))
    by reflexivity.
  destruct (Hmid Hlo Hhi) as [Hnth [_ Hmade]].
  assert (Hrest : forall (j : nat) (q : Main.Panel),
             j <> 1%nat ->
             nth_error [resting_panel; flipping_panel; resting_panel] j = Some q ->
             Main.active (Main.flip q) = false).
  { intros [| [| [| j]]] q Hj Hq; simpl in Hq; try congruence;
      try (injection Hq as <-; reflexivity).
    destruct j; discriminate. }
  exists tex, ps'. rewrite <- (Hmade Hrest). split; [ exact Hup | exact Hnth ].
Defined.

Lemma started_duration (clock speed : Q) (ax : option string) (p : Main.Panel) :
  Main.active (Main.flip p) = false ->
  let p' := Main.triggerFlip clock p (Some speed) ax in
  Main.active (Main.flip p') = true /\
  Main.start (Main.flip p') = clock /\
  Main.duration (Main.flip p') = Main.clamp (400 * (1 / speed)) 360 1100.
Proof.
  intros Hp p'. subst p'. unfold Main.triggerFlip. rewrite Hp. simpl. auto.
Qed.

(** X15. How long the flips of each trigger last.  A click on a resting
    panel starts a flip of exactly 360 ms at the clicked index (the speed
    factor 2.2 is below the clamp).  An idle auto-flip that lands on a
    resting panel starts a flip of 360 ms to 2000/3 ms, whatever the random
    numbers are. *)
Theorem flip_durations_by_trigger :
  forall (w : Main.World) (i : nat) (p : Main.Panel),
    nth_error (Main.panels w) i = Some p ->
    Main.active (Main.flip p) = false ->
    (forall r clock1 clock2 : Q,
        exists p',
          nth_error (Main.panels (Main.onPointerDown (Some i) r clock1 clock2 w)) i
            = Some p' /\
          Main.active (Main.flip p') = true /\
          Main.start (Main.flip p') = clock1 /\
          Main.duration (Main.flip p') == 360) /\
    (forall (now : Q) (env : Main.Env),
        Main.autoFlipDue now w = true ->
        Main.r_chance env < 0.55 ->
        Main.random_index (Main.r_pick env) (Main.panels w) = Z.of_nat i ->
        exists p',
          nth_error (Main.panels (fst (Main.animate_idle now env w))) i = Some p' /\
          snd (Main.animate_idle now env w) = Normal /\
          Main.active (Main.flip p') = true /\
          Main.start (Main.flip p') = Main.perf env /\
          360 <= Main.duration (Main.flip p') /\
          Main.duration (Main.flip p') <= 2000 / 3).
Proof.
  intros w i p Hi Hp. split.
  - intros r clock1 clock2. unfold Main.onPointerDown. rewrite Hi. simpl.
    rewrite nth_error_update_at, Nat.eqb_refl, Hi. simpl.
    eexists. split; [ reflexivity | ].
    destruct (started_duration clock1 2.2 (Some (Main.random_axis r)) p Hp)
      as [H1 [H2 H3]].
    repeat split; auto. rewrite H3. reflexivity.
  - intros now env Hdue Hchance Hidx.
    unfold Main.animate_idle. rewrite Hdue.
    apply ltb_lt in Hchance. rewrite Hchance.
    unfold Main.triggerAt. rewrite Hidx.
    unfold js_get.
    destruct (Z.ltb_spec (Z.of_nat i) 0) as [Hneg | _]; [ lia | ].
    rewrite Nat2Z.id, Hi. simpl.
    rewrite nth_error_update_at, Nat.eqb_refl, Hi. simpl.
    eexists. split; [ reflexivity | ]. split; [ reflexivity | ].
    set (speed := Main.clamp (0.5 + Main.r_speed env * 2.5) 0.6 3.2).
    destruct (started_duration (Main.perf env) speed
                (Some (Main.random_axis (Main.r_axis env))) p Hp)
      as [H1 [H2 H3]].
    split; [ exact H1 | ]. split; [ exact H2 | ]. rewrite H3.
    assert (Hs : 0.6 <= speed <= 3.2) by (apply clamp_bounds; lra).
    clearbody speed. clear H1 H2 H3.
    assert (E3 : 2000 / 3 == 2000 # 3) by reflexivity.
    assert (Hr : 400 * (1 / speed) <= 2000 / 3).
    { assert (E : 400 * (1 / speed) == 400 / speed) by (unfold Qdiv; ring).
      rewrite E, E3. apply Qle_shift_div_r; lra. }
    split; [ apply clamp_bounds; lra | ].
    clamp_cases; lra.
Qed.

Lemma flip_durations_by_trigger_witness :
  exists p',
    nth_error
      (Main.panels
         (Main.onPointerDown (Some 0%nat) 0.7 100 101 (Main.initial_world 0 0 0)))
      0 = Some p' /\
    Main.duration (Main.flip p') == 360.
Proof.
  destruct (proj1 (flip_durations_by_trigger (Main.initial_world 0 0 0) 0
                     (Main.mkPanel Main.ZONES.PAST
                        [Main.str "memory"; Main.str "echo"; Main.str "yesterday"]
                        0%nat (Main.mkFlip false 0 700 "y")
                        (Main.mkTexture "memory" 0x525252 "#111111" 0.35) false)
                     eq_refl eq_refl) 0.7 100 101)
    as [p' [Hn [_ [_ Hd]]]].
  exists p'. split; assumption.
Defined.

(** ** buildPanels: how many panels, and when it throws *)

(** [newPanel] fails exactly when the first configured text is missing or
    [undefined]. *)
Lemma newPanel_none_iff (cfg : Main.Config) :
  Main.newPanel cfg = None <->
  Main.text_at (Main.cfg_texts cfg) 0 = Main.undefined.
Proof.
  unfold Main.newPanel.
  destruct (Main.cfg_texts cfg) as [| t0 [| t1 ts]]; simpl;
    try (split; [ reflexivity | reflexivity ]);
    destruct t0; simpl; split; intro H; try reflexivity; discriminate.
Qed.

Lemma buildLoop_some (cfg : Main.Config) (p : Main.Panel) :
  Main.newPanel cfg = Some p ->
  forall n panels,
    Main.buildLoop cfg n panels = (panels ++ repeat p n, Normal).
Proof.
  intros Hp. induction n as [| n IH]; intro panels; simpl.
  - now rewrite app_nil_r.
  - rewrite Hp, IH, <- app_assoc. reflexivity.
Qed.

Lemma buildLoop_none (cfg : Main.Config) :
  Main.newPanel cfg = None ->
  forall n panels,
    Main.buildLoop cfg n panels =
    (panels, match n with O => Normal | S _ => Throw end).
Proof.
  intros Hp [| n] panels; simpl; [ reflexivity | now rewrite Hp ].
Qed.

(** A configuration whose loop runs without a throw: it asks for no panel,
    or its first text is a string. *)
Lemma buildable_loop (cfg : Main.Config) (panels : list Main.Panel) :
  buildable cfg ->
  Main.buildLoop cfg (Main.cfg_count cfg) panels =
  (panels ++ panels_of cfg, Normal) /\
  List.length (panels_of cfg) = Main.cfg_count cfg.
Proof.
  unfold buildable, panels_of. intros [H0 | Hs].
  - rewrite H0. simpl.
    destruct (Main.newPanel cfg); simpl; rewrite app_nil_r; auto.
  - destruct (Main.newPanel cfg) as [p |] eqn:Ep.
    + rewrite (buildLoop_some cfg p Ep). split; [ reflexivity | apply repeat_length ].
    + apply newPanel_none_iff in Ep. congruence.
Qed.

Lemma buildEach_buildable :
  forall (configs : list Main.Config) (panels : list Main.Panel),
    Forall buildable configs ->
    Main.buildEach configs panels =
    (panels ++ flat_map panels_of configs, Normal).
Proof.
  induction configs as [| cfg rest IH]; intros panels Hall; simpl.
  - now rewrite app_nil_r.
  - inversion Hall as [| ? ? Hc Hrest]; subst.
    destruct (buildable_loop cfg panels Hc) as [-> _].
    rewrite (IH _ Hrest), <- app_assoc. reflexivity.
Qed.

Lemma panels_of_total (configs : list Main.Config) :
  Forall buildable configs ->
  List.length (flat_map panels_of configs) =
  list_sum (List.map Main.cfg_count configs).
Proof.
  induction 1 as [| cfg rest Hc _ IH]; [ reflexivity | ].
  simpl. rewrite length_app, IH.
  destruct (buildable_loop cfg [] Hc) as [_ ->]. reflexivity.
Qed.

(** X16. When every configuration either asks for no panel or has a string
    as its first text, [buildPanels] ends normally and has created, in
    configuration order, as many panels as the counts add up to; the panels
    of one configuration all carry the same texts, index and flip state. *)
Theorem buildPanels_creates_all :
  forall configs : list Main.Config,
    Forall buildable configs ->
    Main.buildPanels configs = (flat_map panels_of configs, Normal) /\
    List.length (fst (Main.buildPanels configs)) =
      list_sum (List.map Main.cfg_count configs).
Proof.
  intros configs Hall. unfold Main.buildPanels.
  rewrite (buildEach_buildable configs [] Hall). simpl.
  split; [ reflexivity | now apply panels_of_total ].
Qed.

Lemma buildPanels_creates_all_witness :
  List.length (fst (Main.buildPanels Main.PANEL_CONFIGS)) = 24%nat.
Proof.
  assert (H : Forall buildable Main.PANEL_CONFIGS).
  { repeat (apply Forall_cons; [ right; simpl; discriminate | ]). apply Forall_nil. }
  exact (proj2 (buildPanels_creates_all Main.PANEL_CONFIGS H)).
Defined.

(** X17. When the first configuration that asks for at least one panel
    while its first text is missing or [undefined] comes after buildable
    ones, [buildPanels] throws at it: the panels of the configurations
    before it stay in [panels], and neither it nor any later configuration
    contributes one. *)
Theorem buildPanels_throws_at_first_bad :
  forall (good rest : list Main.Config) (bad : Main.Config),
    Forall buildable good ->
    (0 < Main.cfg_count bad)%nat ->
    Main.text_at (Main.cfg_texts bad) 0 = Main.undefined ->
    Main.buildPanels (good ++ bad :: rest) = (flat_map panels_of good, Throw).
Proof.
  intros good rest bad Hgood Hcount Hbad. unfold Main.buildPanels.
  assert (Hgen : forall panels,
             Main.buildEach (good ++ bad :: rest) panels =
             (panels ++ flat_map panels_of good, Throw)).
  { induction Hgood as [| cfg good' Hc _ IH]; intro panels; simpl.
    - apply newPanel_none_iff in Hbad.
      rewrite (buildLoop_none bad Hbad).
      destruct (Main.cfg_count bad); [ lia | ]. now rewrite app_nil_r.
    - destruct (buildable_loop cfg panels Hc) as [-> _].
      rewrite IH, <- app_assoc. reflexivity. }
  apply (Hgen []).
Qed.

Lemma buildPanels_throws_at_first_bad_witness :
  Main.buildPanels
    [Main.mkConfig Main.ZONES.PAST 2 240 (-120) [Main.str "memory"];
     Main.mkConfig Main.ZONES.FAR 1 380 60 [];
     Main.mkConfig Main.ZONES.NEAR 3 220 110 [Main.str "soon"]]
  = (flat_map panels_of
       [Main.mkConfig Main.ZONES.PAST 2 240 (-120) [Main.str "memory"]],
     Throw).
Proof.
  apply (buildPanels_throws_at_first_bad
           [Main.mkConfig Main.ZONES.PAST 2 240 (-120) [Main.str "memory"]]
           [Main.mkConfig Main.ZONES.NEAR 3 220 110 [Main.str "soon"]]
           (Main.mkConfig Main.ZONES.FAR 1 380 60 [])).
  - apply Forall_cons; [ right; simpl; discriminate | apply Forall_nil ].
  - simpl. lia.
  - reflexivity.
Defined.

(** ** What holds of every panel, always *)

Lemma newPanel_inv (cfg : Main.Config) (p : Main.Panel) :
  Main.newPanel cfg = Some p -> panel_inv p.
Proof.
  intro Hp. destruct (newPanel_fresh cfg p Hp) as [[Hlen [Hcur [_ [Ha Hs]]]] _].
  assert (Hd : Main.duration (Main.flip p) = 700).
  { unfold Main.newPanel in Hp.
    destruct (Main.createTextTexture _ _ _ _); [ | discriminate ].
    injection Hp as <-. reflexivity. }
  unfold panel_inv. rewrite Hcur, Hd.
  repeat split; auto; try lia; discriminate.
Qed.

Lemma updateFlip_inv (now : Q) (p : Main.Panel) :
  panel_inv p -> panel_inv (fst (fst (Main.updateFlip now p))).
Proof.
  intros [Hcur [Hlen [Hsw [Hd1 Hd2]]]]. unfold Main.updateFlip.
  assert (Hnext : ((Main.current p + 1) mod List.length (Main.texts p)
                   < List.length (Main.texts p))%nat)
    by (apply Nat.mod_upper_bound; lia).
  destruct (Main.active (Main.flip p)) eqn:Ea; simpl;
    [ | unfold panel_inv; rewrite Ea; auto ].
  destruct (negb (Main._swapped p) && Main.geb (Main.progress now p) 0.5).
  - destruct (Main.createTextTexture _ _ _ _); simpl.
    + destruct (Main.geb (Main.progress now p) 1); simpl;
        unfold panel_inv; simpl; rewrite ?Ea;
        repeat split; auto; try discriminate.
    + unfold panel_inv; simpl; rewrite Ea.
      repeat split; auto; try discriminate.
  - destruct (Main.geb (Main.progress now p) 1); simpl;
      unfold panel_inv; simpl; rewrite ?Ea;
      repeat split; auto; try discriminate.
Qed.

Lemma updateFlips_inv (now : Q) :
  forall ps,
    Forall panel_inv ps -> Forall panel_inv (fst (fst (Main.updateFlips now ps))).
Proof.
  induction ps as [| p ps IH]; intro Hall; simpl; [ constructor | ].
  inversion Hall as [| ? ? Hp Hps]; subst.
  pose proof (updateFlip_inv now p Hp) as Hp'.
  destruct (Main.updateFlip now p) as [[p' made] c]. simpl in Hp'.
  destruct c.
  - specialize (IH Hps).
    destruct (Main.updateFlips now ps) as [[ps' made'] c']. simpl in *.
    constructor; assumption.
  - simpl. constructor; assumption.
Qed.

Lemma triggerFlip_inv (clock : Q) (p : Main.Panel) sf ax :
  panel_inv p -> panel_inv (Main.triggerFlip clock p sf ax).
Proof.
  intros [Hcur [Hlen [Hsw [Hd1 Hd2]]]]. unfold Main.triggerFlip.
  destruct (Main.active (Main.flip p)) eqn:Ea;
    [ unfold panel_inv; rewrite Ea; auto | ].
  unfold panel_inv. simpl.
  pose proof (clamp_bounds
                (400 * (1 / match sf with Some s => s | None => 1 end)) 360 1100)
    as Hb.
  repeat split; auto; try discriminate; lra.
Qed.

Lemma triggerAt_inv (i : Z) (clock sf : Q) (ax : string) (ps ps' : list Main.Panel) :
  Forall panel_inv ps ->
  Main.triggerAt i clock sf ax ps = Some ps' -> Forall panel_inv ps'.
Proof.
  intros Hall. unfold Main.triggerAt.
  destruct (js_get ps i); [ | discriminate ].
  intro H. injection H as <-.
  apply update_at_Forall; [ | exact Hall ].
  intros q Hq. now apply triggerFlip_inv.
Qed.

Lemma step_inv (ev : Main.event) (w : Main.World) :
  Forall panel_inv (Main.panels w) ->
  Forall panel_inv (Main.panels (fst (fst (Main.step ev w)))).
Proof.
  intro Hall. destruct ev as [now env | clock | hit r c1 c2 | r1 r2 c1 c2 | ]; simpl.
  - unfold Main.animate.
    destruct (Main.paused w); simpl; [ exact Hall | ].
    pose proof (updateFlips_inv now (Main.panels w) Hall) as Hup.
    destruct (Main.updateFlips now (Main.panels w)) as [[ps made] c]. simpl in Hup.
    destruct c; simpl; [ | exact Hup ].
    unfold Main.animate_idle.
    destruct (Main.autoFlipDue now _); simpl; [ | exact Hup ].
    destruct (Main.ltb (Main.r_chance env) 0.55); simpl; [ | exact Hup ].
    destruct (Main.triggerAt _ _ _ _ _) as [ps' |] eqn:Et; simpl; [ | exact Hup ].
    exact (triggerAt_inv _ _ _ _ _ _ Hup Et).
  - exact Hall.
  - unfold Main.onPointerDown. destruct hit as [i |]; [ | exact Hall ].
    destruct (nth_error (Main.panels w) i); [ | exact Hall ]. simpl.
    apply update_at_Forall; [ | exact Hall ].
    intros q Hq. now apply triggerFlip_inv.
  - unfold Main.onRandomClick.
    destruct (Main.triggerAt _ _ _ _ _) as [ps' |] eqn:Et; simpl; [ | exact Hall ].
    exact (triggerAt_inv _ _ _ _ _ _ Hall Et).
  - exact Hall.
Qed.

Lemma run_inv :
  forall (evs : list Main.event) (w : Main.World),
    Forall panel_inv (Main.panels w) ->
    Forall panel_inv (Main.panels (fst (fst (Main.run evs w)))).
Proof.
  induction evs as [| ev evs IH]; intros w Hall; simpl; [ exact Hall | ].
  pose proof (step_inv ev w Hall) as Hs.
  destruct (Main.step ev w) as [[w1 made] c]. simpl in Hs.
  destruct c; [ | exact Hs ].
  specialize (IH w1 Hs).
  destruct (Main.run evs w1) as [[w2 made'] c']. exact IH.
Qed.


(** ** The random button and the idle timer *)

(** X19. The click handler of the random button throws on an empty panel
    array, whatever the random numbers are.  On a non-empty array and with
    a random number in [0, 1) it ends normally, records the interaction,
    leaves the auto-flip timer alone, keeps the number of panels, and
    changes at most the one panel it picked, by [triggerFlip] with speed
    factor 2.4. *)
Theorem random_click_behaviour :
  forall (r1 r2 clock1 clock2 : Q) (w : Main.World),
    (Main.panels w = [] ->
     Main.onRandomClick r1 r2 clock1 clock2 w = (w, Throw)) /\
    (Main.panels w <> [] -> unit_interval r1 ->
     exists (w' : Main.World) (i : nat) (p : Main.Panel),
       Main.onRandomClick r1 r2 clock1 clock2 w = (w', Normal) /\
       Main.random_index r1 (Main.panels w) = Z.of_nat i /\
       nth_error (Main.panels w) i = Some p /\
       nth_error (Main.panels w') i =
         Some (Main.triggerFlip clock1 p (Some 2.4) (Some (Main.random_axis r2))) /\
       (forall j, j <> i ->
                  nth_error (Main.panels w') j = nth_error (Main.panels w) j) /\
       List.length (Main.panels w') = List.length (Main.panels w) /\
       Main.lastInteraction w' = clock2 /\
       Main.lastAutoFlip w' = Main.lastAutoFlip w).
Proof.
  intros r1 r2 clock1 clock2 w. split.
  - intro He.
    assert (E : Main.random_index r1 [] = 0%Z).
    { unfold Main.random_index.
      rewrite (Qfloor_comp (r1 * inject_Z (Z.of_nat (@List.length Main.Panel [])))
                           0)
        by (simpl; unfold inject_Z; ring).
      reflexivity. }
    unfold Main.onRandomClick, Main.triggerAt. rewrite He, E. reflexivity.
  - intros Hne Hr.
    destruct (random_index_in_range r1 (Main.panels w) Hne Hr) as [p Hp].
    unfold Main.onRandomClick, Main.triggerAt. rewrite Hp.
    unfold js_get in Hp.
    destruct (Z.ltb_spec (Main.random_index r1 (Main.panels w)) 0) as [Hneg | Hpos];
      [ discriminate | ].
    set (i := Z.to_nat (Main.random_index r1 (Main.panels w))) in *.
    exists (Main.mkWorld
              (Main.update_at i
                 (fun q => Main.triggerFlip clock1 q (Some 2.4)
                             (Some (Main.random_axis r2)))
                 (Main.panels w))
              clock2 (Main.lastAutoFlip w) (Main.paused w) (Main.last w)), i, p.
    split; [ reflexivity | ].
    split; [ subst i; now rewrite Z2Nat.id | ].
    split; [ exact Hp | ]. simpl.
    split; [ now rewrite nth_error_update_at, Nat.eqb_refl, Hp | ].
    split.
    { intros j Hj. rewrite nth_error_update_at.
      destruct (Nat.eqb_spec i j); [ congruence | reflexivity ]. }
    split; [ apply update_at_length | ]. split; reflexivity.
Qed.

Lemma random_click_behaviour_witness :
  Main.onRandomClick 0.3 0.9 10 11 (Main.mkWorld [] 0 0 false 0) =
    (Main.mkWorld [] 0 0 false 0, Throw).
Proof.
  exact (proj1 (random_click_behaviour 0.3 0.9 10 11 (Main.mkWorld [] 0 0 false 0))
           eq_refl).
Defined.

Lemma animate_not_due (now : Q) (env : Main.Env) (w : Main.World) :
  Main.autoFlipDue now w = false ->
  exists ps made c,
    Main.animate now env w =
    (Main.mkWorld ps (Main.lastInteraction w) (Main.lastAutoFlip w)
                  (Main.paused w) now, made, c).
Proof.
  intro Hdue. unfold Main.animate.
  destruct (Main.paused w) eqn:Hp; simpl; [ eauto | ].
  destruct (Main.updateFlips now (Main.panels w)) as [[ps made] c].
  destruct c; simpl; [ | eauto ].
  unfold Main.animate_idle.
  change (Main.autoFlipDue now
            (Main.mkWorld ps (Main.lastInteraction w) (Main.lastAutoFlip w) false now))
    with (Main.autoFlipDue now w).
  rewrite Hdue. eauto.
Qed.

Lemma frames_without_attempt :
  forall (frames : list (Q * Main.Env)) (w : Main.World),
    Forall (fun f => fst f <= Main.lastInteraction w + Main.IDLE_THRESHOLD) frames ->
    Main.attempts (List.map (fun f => Main.Frame (fst f) (snd f)) frames) w = [] /\
    Main.lastInteraction
      (fst (fst (Main.run (List.map (fun f => Main.Frame (fst f) (snd f)) frames) w)))
      = Main.lastInteraction w /\
    Main.lastAutoFlip
      (fst (fst (Main.run (List.map (fun f => Main.Frame (fst f) (snd f)) frames) w)))
      = Main.lastAutoFlip w.
Proof.
  induction frames as [| [now env] frames IH]; intros w Hall; [ simpl; auto | ].
  inversion Hall as [| ? ? Hnow Hrest]; subst. simpl in Hnow.
  assert (Hdue : Main.autoFlipDue now w = false).
  { unfold Main.autoFlipDue.
    assert (H : Main.gtb (now - Main.lastInteraction w) Main.IDLE_THRESHOLD = false).
    { destruct (Main.gtb _ _) eqn:E; [ | reflexivity ]. apply gtb_gt in E. lra. }
    now rewrite H. }
  destruct (animate_not_due now env w Hdue) as [ps [made [c Han]]].
  cbn [List.map Main.attempts Main.run Main.step fst snd].
  rewrite Han, Hdue, andb_false_r.
  destruct c; [ | simpl; auto ].
  specialize (IH (Main.mkWorld ps (Main.lastInteraction w) (Main.lastAutoFlip w)
                    (Main.paused w) now) Hrest).
  cbn [Main.lastInteraction Main.lastAutoFlip] in IH.
  destruct IH as [IHa [IHi IHt]]. rewrite IHa.
  destruct (Main.run _ _) as [[w2 made2] c2]. simpl in *. auto.
Qed.

(** X20. Every pointer move postpones the idle auto-flip: after
    [onPointerMove] at clock [c], no frame up to and including [c + 5000]
    enters the idle block, however many frames there are and whatever
    their random numbers; the auto-flip timer keeps its value over all of
    them. *)
Theorem pointer_move_postpones_autoflip :
  forall (c : Q) (w : Main.World) (frames : list (Q * Main.Env)),
    Forall (fun f => fst f <= c + 5000) frames ->
    let evs := List.map (fun f => Main.Frame (fst f) (snd f)) frames in
    Main.attempts evs (Main.onPointerMove c w) = [] /\
    Main.lastAutoFlip (fst (fst (Main.run evs (Main.onPointerMove c w))))
      = Main.lastAutoFlip w /\
    Main.lastInteraction (fst (fst (Main.run evs (Main.onPointerMove c w)))) = c.
Proof.
  intros c w frames Hall evs. subst evs.
  destruct (frames_without_attempt frames (Main.onPointerMove c w) Hall)
    as [Ha [Hi Ht]].
  repeat split; assumption.
Qed.

Lemma pointer_move_postpones_autoflip_witness :
  Main.attempts
    [Main.Frame 9000 quiet_env; Main.Frame 12000 quiet_env]
    (Main.onPointerMove 7000 (Main.initial_world 0 0 0)) = [].
Proof.
  apply (proj1 (pointer_move_postpones_autoflip 7000 (Main.initial_world 0 0 0)
                  [(9000, quiet_env); (12000, quiet_env)]
                  ltac:(repeat constructor; simpl; discriminate))).
Defined.

(** ** The camera and the pointer *)

Lemma lerp_step (cam target k : Q) :
  target - (cam + (target - cam) * k) == (target - cam) * (1 - k).
Proof. ring. Qed.

(** X21. The camera never overshoots its target.  One [updateCameraLerp]
    moves each coordinate towards the target by a fraction [k] between 0.06
    and 0.45, the same for both coordinates, so the remaining offset keeps
    its sign and shrinks to between 55% and 94% of what it was, whatever
    [dt] is; over [n] frames with a fixed target the offset is at most
    [0.94^n] of the initial one. *)
Theorem camera_lerp_contracts :
  forall (dt : Q) (c : Main.Camera) (dts : list Q),
    (exists k : Q,
        0.06 <= k /\ k <= 0.45 /\
        Main.targetCamX c - Main.camX (Main.updateCameraLerp dt c)
          == (Main.targetCamX c - Main.camX c) * (1 - k) /\
        Main.targetCamY c - Main.camY (Main.updateCameraLerp dt c)
          == (Main.targetCamY c - Main.camY c) * (1 - k)) /\
    Main.targetCamX (Main.camera_run dts c) = Main.targetCamX c /\
    Main.targetCamY (Main.camera_run dts c) = Main.targetCamY c /\
    Qabs (Main.targetCamX c - Main.camX (Main.camera_run dts c))
      <= Qabs (Main.targetCamX c - Main.camX c) * 0.94 ^ Z.of_nat (List.length dts) /\
    Qabs (Main.targetCamY c - Main.camY (Main.camera_run dts c))
      <= Qabs (Main.targetCamY c - Main.camY c) * 0.94 ^ Z.of_nat (List.length dts).
Proof.
  intros dt c dts.
  assert (Hk : forall d, 0.06 <= Main.clamp (d * 0.01) 0.06 0.45 <= 0.45)
    by (intro d; apply clamp_bounds; lra).
  split.
  { exists (Main.clamp (dt * 0.01) 0.06 0.45).
    destruct (Hk dt) as [H1 H2]. repeat split; auto; simpl; apply lerp_step. }
  assert (Hstep : forall cam target d,
             Qabs (target - (cam + (target - cam) * Main.clamp (d * 0.01) 0.06 0.45))
             <= Qabs (target - cam) * 0.94).
  { intros cam target d. rewrite lerp_step, Qabs_Qmult.
    destruct (Hk d) as [H1 H2].
    rewrite (Qabs_pos (1 - Main.clamp (d * 0.01) 0.06 0.45)) by lra.
    rewrite !(Qmult_comm (Qabs (target - cam))).
    apply Qmult_le_compat_r; [ lra | apply Qabs_nonneg ]. }
  revert c. induction dts as [| d dts IH]; intro c.
  - simpl. repeat split; try reflexivity; rewrite Qmult_1_r; apply Qle_refl.
  - destruct (IH (Main.updateCameraLerp d c)) as [Hx [Hy [Hax Hay]]].
    simpl Main.camera_run. simpl in Hx, Hy, Hax, Hay.
    split; [ exact Hx | ]. split; [ exact Hy | ].
    assert (Hpow : 0.94 ^ Z.of_nat (List.length (d :: dts))
                   == 0.94 * 0.94 ^ Z.of_nat (List.length dts)).
    { simpl List.length. rewrite Nat2Z.inj_succ.
      rewrite <- Z.add_1_l.
      rewrite Qpower_plus by discriminate. reflexivity. }
    assert (Hp0 : 0 <= 0.94 ^ Z.of_nat (List.length dts))
      by (apply Qpower_pos; discriminate).
    rewrite Hpow. split.
    + eapply Qle_trans; [ exact Hax | ].
      rewrite Qmult_assoc.
      apply Qmult_le_compat_r; [ apply Hstep | exact Hp0 ].
    + eapply Qle_trans; [ exact Hay | ].
      rewrite Qmult_assoc.
      apply Qmult_le_compat_r; [ apply Hstep | exact Hp0 ].
Qed.

(** X22. For a pointer inside the canvas rectangle [onPointerMove] yields
    normalized coordinates in [-1, 1] (with [y] pointing up: the top edge
    is +1) and a camera target within 60 horizontally and 30 vertically of
    the centre; it moves the target only, not the camera. *)
Theorem pointer_normalized :
  forall (clientX clientY : Q) (rect : Main.Rect) (c : Main.Camera),
    0 < Main.rect_width rect -> 0 < Main.rect_height rect ->
    Main.rect_left rect <= clientX ->
    clientX <= Main.rect_left rect + Main.rect_width rect ->
    Main.rect_top rect <= clientY ->
    clientY <= Main.rect_top rect + Main.rect_height rect ->
    let '(px, py, c') := Main.onPointerMove_view clientX clientY rect c in
    -1 <= px /\ px <= 1 /\ -1 <= py /\ py <= 1 /\
    (clientY == Main.rect_top rect -> py == 1) /\
    -60 <= Main.targetCamX c' /\ Main.targetCamX c' <= 60 /\
    -30 <= Main.targetCamY c' /\ Main.targetCamY c' <= 30 /\
    Main.camX c' = Main.camX c /\ Main.camY c' = Main.camY c.
Proof.
  intros clientX clientY rect c Hw Hh Hl Hr Ht Hb.
  unfold Main.onPointerMove_view. simpl.
  set (x := (clientX - Main.rect_left rect) / Main.rect_width rect).
  set (y := (clientY - Main.rect_top rect) / Main.rect_height rect).
  assert (Hx0 : 0 <= x) by (subst x; apply Qle_shift_div_l; lra).
  assert (Hx1 : x <= 1) by (subst x; apply Qle_shift_div_r; lra).
  assert (Hy0 : 0 <= y) by (subst y; apply Qle_shift_div_l; lra).
  assert (Hy1 : y <= 1) by (subst y; apply Qle_shift_div_r; lra).
  repeat split; try lra.
  intro Htop. assert (Hy : y == 0).
  { subst y. rewrite Htop. unfold Qdiv. ring. }
  rewrite Hy. reflexivity.
Qed.

Lemma pointer_normalized_witness :
  snd (fst (Main.onPointerMove_view 400 0 (Main.mkRect 0 0 800 600)
              (Main.mkCamera 0 0 0 0))) == 1.
Proof.
  pose proof (pointer_normalized 400 0 (Main.mkRect 0 0 800 600)
                (Main.mkCamera 0 0 0 0)) as H.
  simpl in H.
  destruct (H eq_refl eq_refl ltac:(discriminate) ltac:(discriminate)
              ltac:(discriminate) ltac:(discriminate))
    as [_ [_ [_ [_ [Htop _]]]]].
  apply Htop. reflexivity.
Defined.

#[local] Close Scope Q_scope.

(** ** The pulsing opacity *)

(** X23. The opacity of a FAR panel is [0.8 + 0.2 sin(0.002 now)]: it
    pulses between 0.6 and 1.0, and the clamp to [0.5, 1.2] around it never
    changes the value.  Panels of every other zone stay at opacity 1. *)
Theorem far_opacity_pulses :
  forall (now : R) (z : Main.Zone),
    ((Main.id z =? "FAR")%string = true ->
     Main.zone_opacity now z = (8 / 10 + 2 / 10 * sin (now * (2 / 1000)))%R /\
     (6 / 10 <= Main.zone_opacity now z <= 1)%R) /\
    ((Main.id z =? "FAR")%string = false -> Main.zone_opacity now z = 1%R).
Proof.
  intros now z. unfold Main.zone_opacity. split; intros ->; [ | reflexivity ].
  pose proof (SIN_bound (now * (2 / 1000))) as [Hlo Hhi].
  set (s := sin (now * (2 / 1000))) in *.
  assert (E : Main.clampR (6 / 10 + (1 + s) * (5 / 10) * (4 / 10)) (5 / 10) (12 / 10)
              = (8 / 10 + 2 / 10 * s)%R).
  { unfold Main.clampR, Rmax, Rmin. repeat destruct (Rle_dec _ _); lra. }
  rewrite E. split; [ reflexivity | lra ].
Qed.

Lemma far_opacity_pulses_witness :
  Main.zone_opacity 0 Main.ZONES.FAR = (8 / 10)%R.
Proof.
  destruct (proj1 (far_opacity_pulses 0 Main.ZONES.FAR) eq_refl) as [H _].
  rewrite H. rewrite Rmult_0_l, sin_0. lra.
Defined.

(** ** The background colour *)

(** X24. For a 24-bit colour [0xRRGGBB] the three channels that
    [createTextTexture] puts into the [rgba(...)] fill style are each
    within 0..255 and recompose to the colour: no bit is lost or moved. *)
Theorem fillStyle_channels_roundtrip :
  forall bgColor : Z,
    (0 <= bgColor < 2 ^ 24)%Z ->
    let '(r, g, b) := Main.fillStyle_channels bgColor in
    (0 <= r <= 255)%Z /\ (0 <= g <= 255)%Z /\ (0 <= b <= 255)%Z /\
    (r * 65536 + g * 256 + b = bgColor)%Z.
Proof.
  intros bgColor Hc. unfold Main.fillStyle_channels.
  change 255%Z with (Z.ones 8).
  rewrite !Z.land_ones by lia.
  rewrite !Z.shiftr_div_pow2 by lia.
  change (2 ^ 16)%Z with 65536%Z. change (2 ^ 8)%Z with 256%Z.
  change (2 ^ 24)%Z with 16777216%Z in Hc.
  change (Z.ones 8) with 255%Z.
  repeat split; try (apply Z.mod_pos_bound; lia);
    try (assert (H := Z.mod_pos_bound (bgColor / 65536) 256); lia);
    try (assert (H := Z.mod_pos_bound (bgColor / 256) 256); lia);
    try (assert (H := Z.mod_pos_bound bgColor 256); lia).
  Z.to_euclidean_division_equations. lia.
Qed.

Lemma fillStyle_channels_roundtrip_witness :
  Main.fillStyle_channels 0x8de4d8 = (0x8d, 0xe4, 0xd8)%Z.
Proof.
  assert (Hc : (0 <= 0x8de4d8 < 2 ^ 24)%Z) by (split; [ discriminate | reflexivity ]).
  assert (H : (fst (fst (Main.fillStyle_channels 0x8de4d8)) * 65536
               + snd (fst (Main.fillStyle_channels 0x8de4d8)) * 256
               + snd (Main.fillStyle_channels 0x8de4d8) = 0x8de4d8)%Z)
    by exact (proj2 (proj2 (proj2 (fillStyle_channels_roundtrip 0x8de4d8 Hc)))).
  reflexivity.
Defined.

(** ** Splitting a text into words *)

Lemma split_space_nonempty (s : string) : Main.split_space s <> [].
Proof.
  destruct s as [| c rest]; simpl; [ discriminate | ].
  destruct (Ascii.eqb c Ascii.Space); [ discriminate | ].
  destruct (Main.split_space rest); discriminate.
Qed.

Lemma join_space_cons (w : string) (ws : list string) :
  ws <> [] ->
  Main.join_space (w :: ws) = (w ++ " " ++ Main.join_space ws)%string.
Proof. destruct ws; [ congruence | reflexivity ]. Qed.

(** X25. [text.split(' ')] loses nothing: joining the words with single
    spaces gives the text back; there is always at least one word, exactly
    one more than the text has spaces, and no word contains a space. *)
Theorem split_space_roundtrip :
  forall text : string,
    Main.join_space (Main.split_space text) = text /\
    List.length (Main.split_space text) = S (count_spaces text) /\
    Forall (fun word => count_spaces word = 0) (Main.split_space text).
Proof.
  induction text as [| c rest [IHj [IHl IHs]]]; simpl.
  - repeat split. repeat constructor.
  - destruct (Ascii.eqb_spec c Ascii.Space) as [-> | Hc].
    + rewrite join_space_cons by apply split_space_nonempty.
      rewrite IHj. simpl. repeat split; [ now rewrite IHl | ].
      constructor; [ reflexivity | exact IHs ].
    + pose proof (split_space_nonempty rest) as Hne.
      destruct (Main.split_space rest) as [| w ws]; [ congruence | ].
      split; [ | split ].
      * destruct ws as [| w' ws']; simpl in *; now rewrite <- IHj.
      * exact IHl.
      * inversion IHs as [| ? ? Hw Hws]; subst.
        constructor; [ | exact Hws ]. simpl.
        destruct (Ascii.eqb_spec c Ascii.Space); [ contradiction | exact Hw ].
Qed.

(** ** wrapText *)

Lemma append_assoc (a b c : string) :
  ((a ++ b) ++ c)%string = (a ++ (b ++ c))%string.
Proof. induction a as [| x a IH]; simpl; [ reflexivity | now rewrite IH ]. Qed.

Lemma append_empty_r (a : string) : (a ++ "")%string = a.
Proof. induction a as [| x a IH]; simpl; [ reflexivity | now rewrite IH ]. Qed.

Lemma flatten_app (l1 l2 : list string) :
  flatten (l1 ++ l2) = (flatten l1 ++ flatten l2)%string.
Proof.
  induction l1 as [| a l1 IH]; simpl; [ reflexivity | ].
  now rewrite IH, append_assoc.
Qed.

Lemma wrap_loop_raw (measureText : string -> Q) (trim : string -> string) :
  forall (words : list string) (n : nat) (maxWidth : Q) (line : string)
         (raws : list string),
    Main.wrap_loop measureText trim words n maxWidth line (List.map trim raws) =
    (fst (raw_loop measureText words n maxWidth line raws),
     List.map trim (snd (raw_loop measureText words n maxWidth line raws))).
Proof.
  induction words as [| word rest IH]; intros n maxWidth line raws; simpl.
  - reflexivity.
  - destruct (Main.gtb (measureText (line ++ word ++ " ")%string) maxWidth && (0 <? n)).
    + rewrite <- IH. now rewrite map_app.
    + apply IH.
Qed.

Lemma raw_loop_content (measureText : string -> Q) :
  forall (words : list string) (n : nat) (maxWidth : Q) (line : string)
         (raws : list string),
    let r := raw_loop measureText words n maxWidth line raws in
    flatten (snd r ++ [fst r]) =
    (flatten (raws ++ [line])
     ++ flatten (List.map (fun w => (w ++ " ")%string) words))%string.
Proof.
  induction words as [| word rest IH]; intros n maxWidth line raws; simpl.
  - now rewrite append_empty_r.
  - destruct (Main.gtb (measureText (line ++ word ++ " ")%string) maxWidth && (0 <? n)).
    + rewrite IH. rewrite !flatten_app. simpl.
      rewrite !append_empty_r, !append_assoc. reflexivity.
    + rewrite IH. rewrite !flatten_app. simpl.
      rewrite !append_empty_r, !append_assoc. reflexivity.
Qed.

Lemma raw_loop_count (measureText : string -> Q) :
  forall (words : list string) (n : nat) (maxWidth : Q) (line : string)
         (raws : list string),
    List.length (snd (raw_loop measureText words n maxWidth line raws))
    <= List.length raws + List.length words - (if 0 <? n then 0 else
                                                 match words with [] => 0 | _ => 1 end).
Proof.
  induction words as [| word rest IH]; intros n maxWidth line raws; simpl.
  - destruct (0 <? n); lia.
  - destruct (Nat.ltb_spec 0 n) as [Hn | Hn].
    + rewrite andb_true_r.
      destruct (Main.gtb _ _).
      * specialize (IH (S n) maxWidth (word ++ " ")%string (raws ++ [line])).
        simpl in IH. rewrite length_app in IH. simpl in IH. lia.
      * specialize (IH (S n) maxWidth (line ++ word ++ " ")%string raws).
        simpl in IH. lia.
    + rewrite andb_false_r.
      specialize (IH (S n) maxWidth (line ++ word ++ " ")%string raws).
      simpl in IH. lia.
Qed.

Lemma split_space_no_space (text : string) :
  Forall (fun word => count_spaces word = 0) (Main.split_space text).
Proof.
  induction text as [| c rest IH]; simpl.
  - repeat constructor.
  - destruct (Ascii.eqb_spec c Ascii.Space) as [-> | Hc].
    + constructor; [ reflexivity | exact IH ].
    + pose proof (split_space_nonempty rest) as Hne.
      destruct (Main.split_space rest) as [| w ws]; [ congruence | ].
      inversion IH as [| ? ? Hw Hws]; subst.
      constructor; [ | exact Hws ]. simpl.
      destruct (Ascii.eqb_spec c Ascii.Space); [ contradiction | exact Hw ].
Qed.

Lemma raw_loop_fits (measureText : string -> Q) (maxWidth : Q)
    (all : list string) :
  forall (words : list string) (n : nat) (line : string) (raws : list string),
    Forall (fun word => In word all /\ count_spaces word = 0) words ->
    Forall (line_fits measureText maxWidth all) raws ->
    (n = 0 /\ line = EmptyString) \/
    (0 < n /\ line_fits measureText maxWidth all line) ->
    let r := raw_loop measureText words n maxWidth line raws in
    Forall (line_fits measureText maxWidth all) (snd r) /\
    (words <> [] \/ 0 < n -> line_fits measureText maxWidth all (fst r)).
Proof.
  induction words as [| word rest IH]; intros n line raws Hwords Hraws Hline;
    simpl.
  - split; [ exact Hraws | ].
    intros [H | H]; [ congruence | ].
    destruct Hline as [[H0 _] | [_ Hf]]; [ lia | exact Hf ].
  - inversion Hwords as [| ? ? [Hin Hfree] Hrest]; subst.
    assert (Hone : line_fits measureText maxWidth all (word ++ " ")%string)
      by (right; exists word; auto).
    destruct Hline as [[-> ->] | [Hn Hf]].
    + simpl. rewrite andb_false_r.
      destruct (IH 1 (word ++ " ")%string raws Hrest Hraws) as [H1 H2].
      { right. split; [ lia | exact Hone ]. }
      split; [ exact H1 | intros _; apply H2; right; lia ].
    + assert (E : (0 <? n) = true) by (apply Nat.ltb_lt; exact Hn).
      rewrite E, andb_true_r.
      destruct (Main.gtb (measureText (line ++ word ++ " ")%string) maxWidth) eqn:Eg.
      * destruct (IH (S n) (word ++ " ")%string (raws ++ [line]) Hrest)
          as [H1 H2].
        { apply Forall_app. split; [ exact Hraws | now constructor ]. }
        { right. split; [ lia | exact Hone ]. }
        split; [ exact H1 | intros _; apply H2; right; lia ].
      * destruct (IH (S n) (line ++ word ++ " ")%string raws Hrest Hraws)
          as [H1 H2].
        { right. split; [ lia | ]. left.
          unfold Main.gtb in Eg. apply negb_false_iff in Eg.
          now apply Qle_bool_iff. }
        split; [ exact H1 | intros _; apply H2; right; lia ].
Qed.

Lemma map_nth_seq {A : Type} (d : A) :
  forall l : list A, List.map (fun i => nth i l d) (seq 0 (List.length l)) = l.
Proof.
  induction l as [| a l IH]; [ reflexivity | ].
  simpl. f_equal. rewrite <- seq_shift, map_map. exact IH.
Qed.

Lemma wrapText_lines_raw (measureText : string -> Q) (trim : string -> string)
    (text : string) (maxWidth : Q) :
  Main.wrapText_lines measureText trim text maxWidth =
  List.map trim (raw_lines measureText text maxWidth).
Proof.
  unfold Main.wrapText_lines, raw_lines.
  pose proof (wrap_loop_raw measureText trim (Main.split_space text) 0 maxWidth
                EmptyString []) as H.
  simpl in H. rewrite H.
  destruct (raw_loop measureText (Main.split_space text) 0 maxWidth EmptyString [])
    as [line raws].
  simpl. now rewrite map_app.
Qed.

(** X26. [wrapText] loses no word and keeps their order: the lines it
    draws are the trimmed forms of raw lines which, put end to end, are
    exactly the words of the text each followed by a space.  It draws at
    least one line and at most as many as there are words, and each raw
    line either measures within [maxWidth] or holds a single word: one of
    the words of the text, which has no space in it, followed by the one
    space the loop appends (a word that is too wide on its own).  This
    holds for every [measureText] and [trim]. *)
Theorem wrapText_keeps_words :
  forall (measureText : string -> Q) (trim : string -> string)
         (text : string) (x y maxWidth lineHeight : Q),
    let raws := raw_lines measureText text maxWidth in
    List.map call_text
      (Main.wrapText measureText trim text x y maxWidth lineHeight)
      = List.map trim raws /\
    flatten raws =
      flatten (List.map (fun w => (w ++ " ")%string) (Main.split_space text)) /\
    1 <= List.length raws /\
    List.length raws <= List.length (Main.split_space text) /\
    Forall (line_fits measureText maxWidth (Main.split_space text)) raws.
Proof.
  intros measureText trim text x y maxWidth lineHeight raws.
  split.
  { unfold Main.wrapText. rewrite map_map. simpl.
    unfold range. rewrite Nat.sub_0_r.
    rewrite (map_nth_seq EmptyString).
    apply wrapText_lines_raw. }
  subst raws. unfold raw_lines.
  pose proof (raw_loop_content measureText (Main.split_space text) 0 maxWidth
                EmptyString []) as Hc.
  pose proof (raw_loop_count measureText (Main.split_space text) 0 maxWidth
                EmptyString []) as Hn.
  assert (Hwords : Forall (fun word => In word (Main.split_space text) /\
                                       count_spaces word = 0)
                          (Main.split_space text)).
  { apply Forall_forall. intros word Hin. split; [ exact Hin | ].
    exact (proj1 (Forall_forall _ _) (split_space_no_space text) word Hin). }
  pose proof (raw_loop_fits measureText maxWidth (Main.split_space text)
                (Main.split_space text) 0 EmptyString [] Hwords (Forall_nil _)
                (or_introl (conj eq_refl eq_refl)))
    as [Hf1 Hf2].
  clear Hwords.
  pose proof (split_space_nonempty text) as Hne.
  destruct (raw_loop measureText (Main.split_space text) 0 maxWidth EmptyString [])
    as [line rs].
  simpl in *.
  split; [ exact Hc | ].
  rewrite length_app. simpl.
  split; [ lia | ].
  split.
  - destruct (Main.split_space text); [ congruence | simpl in *; lia ].
  - apply Forall_app. split; [ exact Hf1 | ].
    constructor; [ | constructor ]. apply Hf2. now left.
Qed.

(** X27. The lines of [wrapText] are drawn at the same [x], one
    [lineHeight] apart, and placed symmetrically about [y - lineHeight]:
    the block is centred one line height above the [y] it is given, so a
    text of a single line is drawn at [y - lineHeight]. *)
Theorem wrapText_vertical_layout :
  forall (measureText : string -> Q) (trim : string -> string)
         (text : string) (x y maxWidth lineHeight : Q) (i : nat),
    let calls := Main.wrapText measureText trim text x y maxWidth lineHeight in
    let n := List.length calls in
    i < n ->
    exists (t t' : string) (yi yj : Q),
      nth_error calls i = Some (Main.fillText t x yi) /\
      nth_error calls (n - 1 - i) = Some (Main.fillText t' x yj) /\
      (yi + yj == 2 * (y - lineHeight))%Q /\
      (yi == y - lineHeight
             + (inject_Z (Z.of_nat i) - (inject_Z (Z.of_nat n) - 1) / 2) * lineHeight)%Q /\
      (n = 1 -> (yi == y - lineHeight)%Q).
Proof.
  intros measureText trim text x y maxWidth lineHeight i calls n Hi.
  subst n calls. unfold Main.wrapText in *.
  set (lines := Main.wrapText_lines measureText trim text maxWidth) in *.
  rewrite length_map in *. unfold range in *. rewrite Nat.sub_0_r in *.
  rewrite length_seq in *.
  set (n := List.length lines) in *.
  assert (Hnth : forall k, k < n ->
            nth_error (seq 0 n) k = Some k).
  { intros k Hk. rewrite nth_error_nth' with (d := 0) by (rewrite length_seq; exact Hk).
    now rewrite seq_nth. }
  assert (Hj : n - 1 - i < n) by lia.
  set (startY := (y - lineHeight
                  - (inject_Z (Z.of_nat n) - 1) * (lineHeight / 2))%Q).
  exists (nth i lines EmptyString), (nth (n - 1 - i) lines EmptyString),
         (startY + inject_Z (Z.of_nat i) * lineHeight)%Q,
         (startY + inject_Z (Z.of_nat (n - 1 - i)) * lineHeight)%Q.
  split; [ now rewrite (map_nth_error _ _ _ (Hnth i Hi)) | ].
  split; [ now rewrite (map_nth_error _ _ _ (Hnth (n - 1 - i) Hj)) | ].
  subst startY.
  assert (Hsub : (inject_Z (Z.of_nat (n - 1 - i))
                  == inject_Z (Z.of_nat n) - 1 - inject_Z (Z.of_nat i))%Q).
  { replace (Z.of_nat (n - 1 - i)) with (Z.of_nat n - 1 - Z.of_nat i)%Z by lia.
    unfold Z.sub. rewrite !inject_Z_plus, !inject_Z_opp.
    change (inject_Z 1) with 1%Q. ring. }
  split; [ rewrite Hsub; field | ].
  split; [ field | ].
  intro H1. assert (i = 0) by lia. subst i. rewrite H1. simpl. field.
Qed.

Lemma wrapText_vertical_layout_witness :
  exists (t t' : string) (yi yj : Q),
    nth_error (Main.wrapText (fun _ => 0%Q) (fun s => s) "now" 512 512 819.2 134.2) 0
      = Some (Main.fillText t 512 yi) /\
    nth_error (Main.wrapText (fun _ => 0%Q) (fun s => s) "now" 512 512 819.2 134.2) 0
      = Some (Main.fillText t' 512 yj) /\
    (yi + yj == 2 * (512 - 134.2))%Q.
Proof.
  destruct (wrapText_vertical_layout (fun _ => 0%Q) (fun s => s) "now"
              512 512 819.2 134.2 0 ltac:(simpl; lia))
    as [t [t' [yi [yj [H1 [H2 [H3 _]]]]]]].
  exists t, t', yi, yj. repeat split; assumption.
Defined.

(** ** The placement of the panels *)

(** X28. The jitter of [buildPanels] is bounded.  With random numbers in
    [0, 1) and a non-negative radius, a panel is placed within
    [radius + 15] of the axis in [x], within 50 of the zone's vertical
    offset in [y], and within [0.6 radius + 40] in [z]; consecutive panels
    of a zone are a full turn divided by the count apart in angle. *)
Theorem panel_placement_bounded :
  forall (radius yOffset : R) (i count ci : nat) (r1 r2 r3 : R),
    (0 <= radius)%R ->
    (0 <= r1 < 1)%R -> (0 <= r2 < 1)%R -> (0 <= r3 < 1)%R ->
    (0 < count)%nat ->
    let '(x, y, z) := Main.panel_position radius yOffset i count ci r1 r2 r3 in
    (- (radius + 15) <= x <= radius + 15)%R /\
    (yOffset - 50 <= y <= yOffset + 50)%R /\
    (- (radius * (6 / 10) + 40) <= z <= radius * (6 / 10) + 40)%R /\
    (Main.panel_angle (S i) count ci - Main.panel_angle i count ci
     = 2 * PI / INR count)%R.
Proof.
  intros radius yOffset i count ci r1 r2 r3 Hr H1 H2 H3 Hc.
  unfold Main.panel_position.
  set (a := Main.panel_angle i count ci).
  pose proof (COS_bound a) as [Hc1 Hc2].
  pose proof (SIN_bound a) as [Hs1 Hs2].
  pose proof (SIN_bound (a * (13 / 10))) as [Ht1 Ht2].
  set (c := cos a) in *. set (s := sin a) in *.
  set (t := sin (a * (13 / 10))) in *.
  split; [ split; nra | ].
  split; [ split; nra | ].
  split; [ split; nra | ].
  subst a. unfold Main.panel_angle. rewrite S_INR.
  assert (Hn : (0 < INR count)%R) by (apply lt_0_INR; exact Hc).
  field. lra.
Qed.

Lemma panel_placement_bounded_witness :
  (fst (fst (Main.panel_position 240 (-120) 0 6 0 (5 / 10) (5 / 10) (5 / 10)))
   <= 240 + 15)%R.
Proof.
  pose proof (panel_placement_bounded 240 (-120) 0 6 0 (5 / 10) (5 / 10) (5 / 10)
                ltac:(lra) ltac:(lra) ltac:(lra) ltac:(lra) ltac:(lia)) as H.
  simpl in H. destruct H as [[_ Hx] _]. exact Hx.
Defined.
